(** * Remembered set and typed-slot update dispatcher (src/heap/remembered-set.h)

    A shallow embedding of [RememberedSet<direction>] and
    [UpdateTypedSlotHelper] together with the properties of the design
    document that concern them.

    Conventions of the embedding.
    - Addresses and [uintptr_t] values are integers; a conversion to
      [uintptr_t] (64 bit) or [uint32_t] is written out with its wrap-around.
    - A table pointer that may be [nullptr] is an [option], the null address
      is 0; the slot-set array a chunk owns is a [list], indexed by page unit.
    - A function whose C++ body mutates a chunk through a pointer returns the
      updated chunk.
    - A result [None] means that the call has no defined result: a [DCHECK]
      failed in a checked build, [UNREACHABLE()] was hit, or an array was
      indexed out of bounds.
    - Callbacks are state-passing functions over a caller-chosen state.
    - Retained counts ([int new_count]) are mathematical integers: a count is
      bounded by the number of pointer-size words of the chunk, so the
      additions of the source stay within [int]. *)

From stdpp Require Import base option list sorting gmap.

Local Open Scope Z_scope.

(** ** Machine integers *)

Definition kUintptrBits : Z := 64.

Definition to_uintptr (z : Z) : Z := z mod 2 ^ kUintptrBits.

Definition to_uint32 (z : Z) : Z := z mod 2 ^ 32.

(** The null address. *)
Definition nullptr : Z := 0.

(** ** Enumerations *)

(** [enum PointerDirection { OLD_TO_OLD, OLD_TO_NEW }]. *)
Inductive PointerDirection := OLD_TO_OLD | OLD_TO_NEW.

(** The two verdicts of a slot callback, as used by the source. *)
Inductive SlotCallbackResult := KEEP_SLOT | REMOVE_SLOT.

(** The slot kinds, as enumerated by the [switch] of [UpdateTypedSlot]. *)
Inductive SlotType :=
| CODE_TARGET_SLOT
| CELL_TARGET_SLOT
| CODE_ENTRY_SLOT
| DEBUG_TARGET_SLOT
| EMBEDDED_OBJECT_SLOT
| OBJECT_SLOT
| NUMBER_OF_SLOT_TYPES.

Global Instance PointerDirection_eq_dec : EqDecision PointerDirection.
Proof. solve_decision. Defined.

Global Instance SlotCallbackResult_eq_dec : EqDecision SlotCallbackResult.
Proof. solve_decision. Defined.

Global Instance SlotType_eq_dec : EqDecision SlotType.
Proof. solve_decision. Defined.

(** [DCHECK(cond)]: checked only when the build has debug checks. *)
Definition DCHECK (debug cond : bool) : option unit :=
  if debug && negb cond then None else Some tt.

(** ** SlotSet (src/heap/slot-set.h) *)

Module SlotSet.

(** Modelled from the spec: slot-set.h is not among the sources. The design
    document describes a per-page-unit, existence-only structure of
    intra-page offsets (present or absent, no multiplicity) with point
    insert and remove, half-open range removal and a filtering iteration
    that returns the count still present. [page_start] is the address the
    offsets are relative to. *)
Record t := Build { page_start : Z; bits : gset Z }.

(** Modelled from the spec: [SlotSet::Insert], idempotent. *)
Definition Insert (s : t) (slot_offset : Z) : t :=
  Build (page_start s) ({[ slot_offset ]} ∪ bits s).

(** Modelled from the spec: [SlotSet::Remove], a no-op if absent. *)
Definition Remove (s : t) (slot_offset : Z) : t :=
  Build (page_start s) (bits s ∖ {[ slot_offset ]}).

(** Modelled from the spec: [SlotSet::RemoveRange], removes every contained
    offset of the half-open range. *)
Definition RemoveRange (s : t) (start_offset end_offset : Z) : t :=
  Build (page_start s)
        (filter (λ o, ¬ (start_offset ≤ o < end_offset)) (bits s)).

(** The offsets present, in ascending order. *)
Definition offsets (s : t) : list Z := merge_sort Z.le (elements (bits s)).

Section Iterate.
Context {S : Type}.
Variable callback : Z → S → SlotCallbackResult * S.

(** One step of the iteration for the offset [o]; the accumulator holds
    the bits, [new_count] and the callback state. *)
Definition visit (start : Z) (acc : gset Z * Z * S) (o : Z)
  : gset Z * Z * S :=
  let '(b, new_count, st) := acc in
  match callback (start + o) st with
  | (KEEP_SLOT, st') => (b, new_count + 1, st')
  | (REMOVE_SLOT, st') => (b ∖ {[ o ]}, new_count, st')
  end.

(** Modelled from the spec: [SlotSet::Iterate] visits every present
    offset exactly once, invokes the callback on its address, clears the
    entry on a REMOVE verdict in the same pass and returns the count
    still present. *)
Definition Iterate (s : t) (st : S) : t * Z * S :=
  let '(b, new_count, st') :=
    foldl (visit (page_start s)) (bits s, 0, st) (offsets s) in
  (Build (page_start s) b, new_count, st').
End Iterate.

End SlotSet.

(** ** TypedSlotSet (src/heap/slot-set.h) *)

Module TypedSlotSet.

(** Modelled from the spec: a typed slot is a triple (kind, host-offset,
    slot-offset). *)
Record TypedSlot := Slot { type : SlotType; host_offset : Z; offset : Z }.

(** Modelled from the spec: an ordered collection of typed slots, not
    deduplicated, processed in insertion order. *)
Record t := Build { page_start : Z; slots : list TypedSlot }.

(** Modelled from the spec: [TypedSlotSet::Insert] appends the entry. *)
Definition Insert (s : t) (ty : SlotType) (host_off off : Z) : t :=
  Build (page_start s) (slots s ++ [Slot ty host_off off]).

Section Iterate.
Context {S : Type}.
Variable callback : SlotType → Z → Z → S → SlotCallbackResult * S.

Fixpoint iterate_slots (start : Z) (l : list TypedSlot) (st : S)
  : list TypedSlot * Z * S :=
  match l with
  | [] => ([], 0, st)
  | e :: rest =>
      match callback (type e) (start + host_offset e) (start + offset e) st
      with
      | (KEEP_SLOT, st') =>
          let '(kept, new_count, st'') := iterate_slots start rest st' in
          (e :: kept, new_count + 1, st'')
      | (REMOVE_SLOT, st') => iterate_slots start rest st'
      end
  end.

(** Modelled from the spec: [TypedSlotSet::Iterate] invokes the callback
    on (kind, host-derived address, slot-derived address) per entry in
    insertion order; REMOVE drops the entry; returns the retained
    count. *)
Definition Iterate (s : t) (st : S) : t * Z * S :=
  let '(kept, new_count, st') := iterate_slots (page_start s) (slots s) st in
  (Build (page_start s) kept, new_count, st').
End Iterate.

End TypedSlotSet.

(** ** MemoryChunk (src/heap/spaces.h) *)

Module MemoryChunk.

(** Modelled from the spec: spaces.h is not among the sources. A chunk has a
    base address and a size and owns at most one slot table and one typed
    slot table per direction. *)
Record t := Build {
  address : Z;
  size : Z;
  old_to_new_slots : option (list SlotSet.t);
  old_to_old_slots : option (list SlotSet.t);
  typed_old_to_new_slots : option TypedSlotSet.t;
  typed_old_to_old_slots : option TypedSlotSet.t
}.

Definition set_old_to_new_slots (c : t) v : t :=
  Build (address c) (size c) v (old_to_old_slots c)
        (typed_old_to_new_slots c) (typed_old_to_old_slots c).

Definition set_old_to_old_slots (c : t) v : t :=
  Build (address c) (size c) (old_to_new_slots c) v
        (typed_old_to_new_slots c) (typed_old_to_old_slots c).

Definition set_typed_old_to_new_slots (c : t) v : t :=
  Build (address c) (size c) (old_to_new_slots c) (old_to_old_slots c)
        v (typed_old_to_old_slots c).

Definition set_typed_old_to_old_slots (c : t) v : t :=
  Build (address c) (size c) (old_to_new_slots c) (old_to_old_slots c)
        (typed_old_to_new_slots c) v.

(** Modelled from the spec: the containment test of a chunk. *)
Definition Contains (c : t) (addr : Z) : bool :=
  bool_decide (address c ≤ addr < address c + size c).

(** The number of page units of a chunk, as computed by
    [RememberedSet::Iterate]:
    [(chunk->size() + Page::kPageSize - 1) / Page::kPageSize]. *)
Definition pages (kPageSize : Z) (c : t) : Z :=
  to_uintptr (size c + kPageSize - 1) / kPageSize.

Definition new_slot_set_at (kPageSize : Z) (c : t) (page : nat) : SlotSet.t :=
  SlotSet.Build (address c + Z.of_nat page * kPageSize) ∅.

(** Modelled from the spec: a fresh slot table has one empty slot set per
    page unit of the chunk. *)
Definition new_slot_set_array (kPageSize : Z) (c : t) : list SlotSet.t :=
  new_slot_set_at kPageSize c <$> seq 0 (Z.to_nat (pages kPageSize c)).

(** Modelled from the spec: a fresh typed slot table is empty. *)
Definition new_typed_slot_set (c : t) : TypedSlotSet.t :=
  TypedSlotSet.Build (address c) [].

(** Modelled from the spec: allocate and release, per direction. *)
Definition AllocateOldToNewSlots (kPageSize : Z) (c : t) : t :=
  set_old_to_new_slots c (Some (new_slot_set_array kPageSize c)).

Definition AllocateOldToOldSlots (kPageSize : Z) (c : t) : t :=
  set_old_to_old_slots c (Some (new_slot_set_array kPageSize c)).

Definition AllocateTypedOldToNewSlots (c : t) : t :=
  set_typed_old_to_new_slots c (Some (new_typed_slot_set c)).

Definition AllocateTypedOldToOldSlots (c : t) : t :=
  set_typed_old_to_old_slots c (Some (new_typed_slot_set c)).

Definition ReleaseOldToNewSlots (c : t) : t := set_old_to_new_slots c None.

Definition ReleaseOldToOldSlots (c : t) : t := set_old_to_old_slots c None.

Definition ReleaseTypedOldToNewSlots (c : t) : t :=
  set_typed_old_to_new_slots c None.

Definition ReleaseTypedOldToOldSlots (c : t) : t :=
  set_typed_old_to_old_slots c None.

End MemoryChunk.

(** The heap is the sequence of its chunks, in the order in which
    [MemoryChunkIterator] enumerates them. *)

(** ** RememberedSet<direction> *)

Module RememberedSet.
Section RememberedSet.

(** [Page::kPageSize] and [TypedSlotSet::kMaxOffset] are declared in
    headers that are not among the sources; [debug] tells whether the
    build checks its [DCHECK]s. *)
Variables (kPageSize kMaxOffset : Z) (debug : bool).

(** The template parameter of the class. *)
Variable direction : PointerDirection.

Definition GetSlotSet (chunk : MemoryChunk.t) : option (list SlotSet.t) :=
  if decide (direction = OLD_TO_OLD)
  then MemoryChunk.old_to_old_slots chunk
  else MemoryChunk.old_to_new_slots chunk.

Definition GetTypedSlotSet (chunk : MemoryChunk.t) : option TypedSlotSet.t :=
  if decide (direction = OLD_TO_OLD)
  then MemoryChunk.typed_old_to_old_slots chunk
  else MemoryChunk.typed_old_to_new_slots chunk.

Definition ReleaseSlotSet (chunk : MemoryChunk.t) : MemoryChunk.t :=
  if decide (direction = OLD_TO_OLD)
  then MemoryChunk.ReleaseOldToOldSlots chunk
  else MemoryChunk.ReleaseOldToNewSlots chunk.

Definition ReleaseTypedSlotSet (chunk : MemoryChunk.t) : MemoryChunk.t :=
  if decide (direction = OLD_TO_OLD)
  then MemoryChunk.ReleaseTypedOldToOldSlots chunk
  else MemoryChunk.ReleaseTypedOldToNewSlots chunk.

(** Returns the chunk after the allocation and the table now attached. *)
Definition AllocateSlotSet (chunk : MemoryChunk.t)
  : MemoryChunk.t * option (list SlotSet.t) :=
  if decide (direction = OLD_TO_OLD)
  then let chunk := MemoryChunk.AllocateOldToOldSlots kPageSize chunk in
       (chunk, MemoryChunk.old_to_old_slots chunk)
  else let chunk := MemoryChunk.AllocateOldToNewSlots kPageSize chunk in
       (chunk, MemoryChunk.old_to_new_slots chunk).

Definition AllocateTypedSlotSet (chunk : MemoryChunk.t)
  : MemoryChunk.t * option TypedSlotSet.t :=
  if decide (direction = OLD_TO_OLD)
  then let chunk := MemoryChunk.AllocateTypedOldToOldSlots chunk in
       (chunk, MemoryChunk.typed_old_to_old_slots chunk)
  else let chunk := MemoryChunk.AllocateTypedOldToNewSlots chunk in
       (chunk, MemoryChunk.typed_old_to_new_slots chunk).

(** A write through the [SlotSet*] obtained from [GetSlotSet]: the array
    belongs to the chunk, so the chunk sees the new contents. *)
Definition store_slot_set (chunk : MemoryChunk.t) (slot_set : list SlotSet.t)
  : MemoryChunk.t :=
  if decide (direction = OLD_TO_OLD)
  then MemoryChunk.set_old_to_old_slots chunk (Some slot_set)
  else MemoryChunk.set_old_to_new_slots chunk (Some slot_set).

(** The same for the [TypedSlotSet*] obtained from [GetTypedSlotSet]. *)
Definition store_typed_slot_set (chunk : MemoryChunk.t)
    (slot_set : TypedSlotSet.t) : MemoryChunk.t :=
  if decide (direction = OLD_TO_OLD)
  then MemoryChunk.set_typed_old_to_old_slots chunk (Some slot_set)
  else MemoryChunk.set_typed_old_to_new_slots chunk (Some slot_set).

(** [Insert(Page*, Address)]: adds the slot to the remembered set. *)
Definition Insert (page : MemoryChunk.t) (slot_addr : Z)
  : option MemoryChunk.t :=
  _ ← DCHECK debug (MemoryChunk.Contains page slot_addr);
  '(page, slot_set) ← match GetSlotSet page with
                      | Some slot_set => Some (page, slot_set)
                      | None =>
                          let '(page, slot_set) := AllocateSlotSet page in
                          slot_set ← slot_set; Some (page, slot_set)
                      end;
  let offset := to_uintptr (slot_addr - MemoryChunk.address page) in
  let index := Z.to_nat (offset / kPageSize) in
  s ← slot_set !! index;
  Some (store_slot_set page
          (<[index := SlotSet.Insert s (offset `mod` kPageSize)]> slot_set)).

(** [Remove(Page*, Address)]: removes the slot from the remembered set. *)
Definition Remove (page : MemoryChunk.t) (slot_addr : Z)
  : option MemoryChunk.t :=
  _ ← DCHECK debug (MemoryChunk.Contains page slot_addr);
  match GetSlotSet page with
  | Some slot_set =>
      let offset := to_uintptr (slot_addr - MemoryChunk.address page) in
      let index := Z.to_nat (offset / kPageSize) in
      s ← slot_set !! index;
      Some (store_slot_set page
              (<[index := SlotSet.Remove s (offset `mod` kPageSize)]> slot_set))
  | None => Some page
  end.

(** [RemoveRange(Page*, Address, Address)]; [slot_set->RemoveRange(...)]
    addresses the first element of the array. *)
Definition RemoveRange (page : MemoryChunk.t) (start end_ : Z)
  : option MemoryChunk.t :=
  match GetSlotSet page with
  | Some slot_set =>
      let start_offset := to_uintptr (start - MemoryChunk.address page) in
      let end_offset := to_uintptr (end_ - MemoryChunk.address page) in
      _ ← DCHECK debug (bool_decide (start_offset < end_offset));
      _ ← DCHECK debug (bool_decide (end_offset ≤ to_uintptr kPageSize));
      s ← slot_set !! 0%nat;
      Some (store_slot_set page
              (<[0%nat := SlotSet.RemoveRange s (to_uint32 start_offset)
                                                (to_uint32 end_offset)]>
                 slot_set))
  | None => Some page
  end.

Section Callbacks.
Context {S : Type}.

Section IterateMemoryChunks.
(** The callback receives a chunk by pointer: it returns the chunk as
    it leaves it. *)
Variable callback : MemoryChunk.t → S → option (MemoryChunk.t * S).

(** [IterateMemoryChunks(Heap*, Callback)]. *)
Fixpoint IterateMemoryChunks (heap : list MemoryChunk.t) (st : S)
  : option (list MemoryChunk.t * S) :=
  match heap with
  | [] => Some ([], st)
  | chunk :: rest =>
      let slots := GetSlotSet chunk in
      let typed_slots := GetTypedSlotSet chunk in
      '(chunk, st) ← (if bool_decide (slots ≠ None)
                         || bool_decide (typed_slots ≠ None)
                      then callback chunk st
                      else Some (chunk, st));
      '(rest, st) ← IterateMemoryChunks rest st;
      Some (chunk :: rest, st)
  end.
End IterateMemoryChunks.

Section Iterate.
Variable callback : Z → S → SlotCallbackResult * S.

(** The loop [for (page = 0; page < pages; page++)
    new_count += slots[page].Iterate(callback)], over the page units
    still to visit. *)
Fixpoint iterate_pages (slots : list SlotSet.t) (todo : list nat)
    (new_count : Z) (st : S) : option (list SlotSet.t * Z * S) :=
  match todo with
  | [] => Some (slots, new_count, st)
  | page :: todo =>
      s ← slots !! page;
      let '(s, n, st) := SlotSet.Iterate callback s st in
      iterate_pages (<[page := s]> slots) todo (new_count + n) st
  end.

(** [Iterate(MemoryChunk*, Callback)]. *)
Definition IterateChunk (chunk : MemoryChunk.t) (st : S)
  : option (MemoryChunk.t * S) :=
  match GetSlotSet chunk with
  | Some slots =>
      let pages := MemoryChunk.pages kPageSize chunk in
      '(slots, new_count, st) ←
        iterate_pages slots (seq 0 (Z.to_nat pages)) 0 st;
      let chunk := store_slot_set chunk slots in
      if bool_decide (new_count = 0)
      then Some (ReleaseSlotSet chunk, st)
      else Some (chunk, st)
  | None => Some (chunk, st)
  end.

(** [Iterate(Heap*, Callback)]. *)
Definition Iterate (heap : list MemoryChunk.t) (st : S)
  : option (list MemoryChunk.t * S) :=
  IterateMemoryChunks IterateChunk heap st.
End Iterate.

Section IterateTyped.
Variable callback : SlotType → Z → Z → S → SlotCallbackResult * S.

(** [IterateTyped(MemoryChunk*, Callback)]. *)
Definition IterateTypedChunk (chunk : MemoryChunk.t) (st : S)
  : option (MemoryChunk.t * S) :=
  match GetTypedSlotSet chunk with
  | Some slots =>
      let '(slots, new_count, st) :=
        TypedSlotSet.Iterate callback slots st in
      let chunk := store_typed_slot_set chunk slots in
      if bool_decide (new_count = 0)
      then Some (ReleaseTypedSlotSet chunk, st)
      else Some (chunk, st)
  | None => Some (chunk, st)
  end.

(** [IterateTyped(Heap*, Callback)]. *)
Definition IterateTyped (heap : list MemoryChunk.t) (st : S)
  : option (list MemoryChunk.t * S) :=
  IterateMemoryChunks IterateTypedChunk heap st.
End IterateTyped.
End Callbacks.

(** [InsertTyped(Page*, Address, SlotType, Address)]. *)
Definition InsertTyped (page : MemoryChunk.t) (host_addr : Z)
    (slot_type : SlotType) (slot_addr : Z) : option MemoryChunk.t :=
  '(page, slot_set) ← match GetTypedSlotSet page with
                      | Some slot_set => Some (page, slot_set)
                      | None =>
                          let page := (AllocateTypedSlotSet page).1 in
                          slot_set ← GetTypedSlotSet page;
                          Some (page, slot_set)
                      end;
  let host_addr := if bool_decide (host_addr = nullptr)
                   then MemoryChunk.address page
                   else host_addr in
  let offset := to_uintptr (slot_addr - MemoryChunk.address page) in
  let host_offset := to_uintptr (host_addr - MemoryChunk.address page) in
  _ ← DCHECK debug (bool_decide (offset < to_uintptr kMaxOffset));
  _ ← DCHECK debug (bool_decide (host_offset < to_uintptr kMaxOffset));
  Some (store_typed_slot_set page
          (TypedSlotSet.Insert slot_set slot_type (to_uint32 host_offset)
                               (to_uint32 offset))).

(** The lambda passed to [slots->Iterate] by [RemoveRangeTyped]. *)
Definition in_range_callback (start end_ : Z)
    (slot_type : SlotType) (host_addr slot_addr : Z) (st : unit)
  : SlotCallbackResult * unit :=
  (if bool_decide (start ≤ slot_addr) && bool_decide (slot_addr < end_)
   then REMOVE_SLOT else KEEP_SLOT, st).

(** [RemoveRangeTyped(Page*, Address, Address)]; the count returned by
    [slots->Iterate] is dropped. *)
Definition RemoveRangeTyped (page : MemoryChunk.t) (start end_ : Z)
  : option MemoryChunk.t :=
  match GetTypedSlotSet page with
  | Some slots =>
      let '(slots, _, _) :=
        TypedSlotSet.Iterate (in_range_callback start end_) slots tt in
      Some (store_typed_slot_set page slots)
  | None => Some page
  end.

(** [ClearAll(Heap* heap)]. [STATIC_ASSERT(direction == OLD_TO_OLD)]: the other
    instantiation does not compile, so it has no result. *)
Definition ClearAll (heap : list MemoryChunk.t) : option (list MemoryChunk.t) :=
  if decide (direction = OLD_TO_OLD)
  then Some ((λ chunk, MemoryChunk.ReleaseTypedOldToOldSlots
                         (MemoryChunk.ReleaseOldToOldSlots chunk)) <$> heap)
  else None.

End RememberedSet.
End RememberedSet.

(** ** RelocInfo (src/assembler.h) *)

Module RelocInfo.

(** Modelled from the spec: assembler.h is not among the sources. The
    relocation modes are those [UpdateTypedSlot] constructs a [RelocInfo]
    with. *)
Inductive Mode := CODE_TARGET | CELL | DEBUG_BREAK_SLOT_AT_POSITION | EMBEDDED_OBJECT.

Global Instance Mode_eq_dec : EqDecision Mode.
Proof. solve_decision. Defined.

(** [RelocInfo rinfo(isolate, addr, mode, 0, NULL)]: the position in the
    instruction stream and the mode. *)
Record t := Build { pc : Z; rmode : Mode }.

Definition IsCodeTarget (mode : Mode) : bool := bool_decide (mode = CODE_TARGET).

Definition IsDebugBreakSlot (mode : Mode) : bool :=
  bool_decide (mode = DEBUG_BREAK_SLOT_AT_POSITION).

(** Modelled from the spec: the relocatable-reference codec, an external
    collaborator with decode and encode primitives per kind of reference
    and a predicate telling whether a debug-break sequence is patched. [W]
    is the state they act on: the instruction stream and the heap. *)
Class Codec (W : Type) := {
  target_cell : t → W → Z;
  set_target_cell : t → Z → W → W;
  target_address : t → W → Z;
  set_target_address : t → Z → W → W;
  target_object : t → W → Z;
  set_target_object : t → Z → W → W;
  debug_call_address : t → W → Z;
  set_debug_call_address : t → Z → W → W;
  IsPatchedDebugBreakSlotSequence : t → W → bool;
(** [Code::GetObjectFromEntryAddress], [Code::GetCodeFromTargetAddress],
    [Code::entry] and [Code::instruction_start]. *)
GetObjectFromEntryAddress : Z → W → Z;
GetCodeFromTargetAddress : Z → W → Z;
entry : Z → W → Z;
instruction_start : Z → W → Z;
(** [Memory::Address_at(addr) = value]. *)
store_Address_at : Z → Z → W → W
}.

End RelocInfo.

(** ** UpdateTypedSlotHelper *)

Module UpdateTypedSlotHelper.

(** What a run of the dispatcher does to its environment, in order: the
    callback is invoked on a decoded reference or on a slot in memory, a
    reference is written back at an address of the instruction stream. *)
Inductive Event :=
| CallbackInvoked (object : Z)
| CallbackInvokedAt (addr : Z)
| WrittenBack (addr value : Z).

Record State (W : Type) := MkState { world : W; trace : list Event }.
Global Arguments MkState {W} _ _.
Global Arguments world {W} _.
Global Arguments trace {W} _.

(** State and failure. *)
Definition M (W A : Type) : Type := State W → option (A * State W).

Definition ret {W A} (a : A) : M W A := λ st, Some (a, st).

Definition bind {W A B} (m : M W A) (k : A → M W B) : M W B :=
  λ st, match m st with
        | Some (a, st') => k a st'
        | None => None
        end.

Definition fail {W A} : M W A := λ _, None.

Definition dcheck {W} (debug cond : bool) : M W unit :=
  λ st, match DCHECK debug cond with Some _ => Some (tt, st) | None => None end.

Definition read {W A} (f : W → A) : M W A := λ st, Some (f (world st), st).

Definition write_back {W} (addr value : Z) (f : W → W) : M W unit :=
  λ st, Some (tt, MkState (f (world st)) (trace st ++ [WrittenBack addr value])).

Declare Scope dispatch_scope.
Delimit Scope dispatch_scope with dispatch.
Notation "'let!' x := m 'in' k" := (bind m (λ x, k))
  (at level 10, x name, m at level 100, k at level 200) : dispatch_scope.
Notation "'let!' ' p := m 'in' k" := (bind m (λ x, match x with p => k end))
  (at level 10, p pattern, m at level 100, k at level 200) : dispatch_scope.
Notation "'do!' m 'in' k" := (bind m (λ _, k))
  (at level 10, m at level 100, k at level 200) : dispatch_scope.

Section UpdateTypedSlotHelper.
Context {W : Type} `{!RelocInfo.Codec W}.
Variable debug : bool.

(** The callback receives a pointer to a reference, may redirect it and may
    change the state; it returns its verdict, the reference it leaves and
    the state. *)
Variable callback : Z → W → SlotCallbackResult * Z * W.

(** [callback(&object)] for a local [object]. *)
Definition invoke (object : Z) : M W (SlotCallbackResult * Z) :=
  λ st, let '(result, object', w) := callback object (world st) in
        Some ((result, object'),
              MkState w (trace st ++ [CallbackInvoked object])).

Local Open Scope dispatch_scope.

Definition UpdateCell (rinfo : RelocInfo.t) : M W SlotCallbackResult :=
  do! dcheck debug (bool_decide (RelocInfo.rmode rinfo = RelocInfo.CELL)) in
  let! cell := read (RelocInfo.target_cell rinfo) in
  let old_cell := cell in
  let! '(result, cell) := invoke cell in
  do! (if bool_decide (cell ≠ old_cell)
       then write_back (RelocInfo.pc rinfo) cell
                       (RelocInfo.set_target_cell rinfo cell)
       else ret tt) in
  ret result.

Definition UpdateCodeEntry (entry_address : Z) : M W SlotCallbackResult :=
  let! code := read (RelocInfo.GetObjectFromEntryAddress entry_address) in
  let old_code := code in
  let! '(result, code) := invoke code in
  do! (if bool_decide (code ≠ old_code)
       then let! entry := read (RelocInfo.entry code) in
            write_back entry_address entry
                       (RelocInfo.store_Address_at entry_address entry)
       else ret tt) in
  ret result.

Definition UpdateCodeTarget (rinfo : RelocInfo.t) : M W SlotCallbackResult :=
  do! dcheck debug (RelocInfo.IsCodeTarget (RelocInfo.rmode rinfo)) in
  let! target_address := read (RelocInfo.target_address rinfo) in
  let! target := read (RelocInfo.GetCodeFromTargetAddress target_address) in
  let old_target := target in
  let! '(result, target) := invoke target in
  do! (if bool_decide (target ≠ old_target)
       then let! start := read (RelocInfo.instruction_start target) in
            write_back (RelocInfo.pc rinfo) start
                       (RelocInfo.set_target_address rinfo start)
       else ret tt) in
  ret result.

Definition UpdateEmbeddedPointer (rinfo : RelocInfo.t)
  : M W SlotCallbackResult :=
  do! dcheck debug
        (bool_decide (RelocInfo.rmode rinfo = RelocInfo.EMBEDDED_OBJECT)) in
  let! target := read (RelocInfo.target_object rinfo) in
  let old_target := target in
  let! '(result, target) := invoke target in
  do! (if bool_decide (target ≠ old_target)
       then write_back (RelocInfo.pc rinfo) target
                       (RelocInfo.set_target_object rinfo target)
       else ret tt) in
  ret result.

Definition UpdateDebugTarget (rinfo : RelocInfo.t) : M W SlotCallbackResult :=
  let! patched := read (RelocInfo.IsPatchedDebugBreakSlotSequence rinfo) in
  do! dcheck debug
        (RelocInfo.IsDebugBreakSlot (RelocInfo.rmode rinfo) && patched) in
  let! debug_call_address := read (RelocInfo.debug_call_address rinfo) in
  let! target := read (RelocInfo.GetCodeFromTargetAddress debug_call_address) in
  let! '(result, target) := invoke target in
  let! start := read (RelocInfo.instruction_start target) in
  do! write_back (RelocInfo.pc rinfo) start
                 (RelocInfo.set_debug_call_address rinfo start) in
  ret result.

(** [callback(reinterpret_cast<Object**>(addr))]: the same callback,
    handed the slot in memory itself; what it does there is part of its
    effect on the state. The dispatcher neither decodes nor encodes. *)
Variable callback_at : Z → W → SlotCallbackResult * W.

Definition invoke_at (addr : Z) : M W SlotCallbackResult :=
  λ st, let '(result, w) := callback_at addr (world st) in
        Some (result, MkState w (trace st ++ [CallbackInvokedAt addr])).

Definition UpdateTypedSlot (slot_type : SlotType) (addr : Z)
  : M W SlotCallbackResult :=
  match slot_type with
  | CODE_TARGET_SLOT =>
      let rinfo := RelocInfo.Build addr RelocInfo.CODE_TARGET in
      UpdateCodeTarget rinfo
  | CELL_TARGET_SLOT =>
      let rinfo := RelocInfo.Build addr RelocInfo.CELL in
      UpdateCell rinfo
  | CODE_ENTRY_SLOT => UpdateCodeEntry addr
  | DEBUG_TARGET_SLOT =>
      let rinfo := RelocInfo.Build addr RelocInfo.DEBUG_BREAK_SLOT_AT_POSITION in
      let! patched := read (RelocInfo.IsPatchedDebugBreakSlotSequence rinfo) in
      if patched then UpdateDebugTarget rinfo else ret REMOVE_SLOT
  | EMBEDDED_OBJECT_SLOT =>
      let rinfo := RelocInfo.Build addr RelocInfo.EMBEDDED_OBJECT in
      UpdateEmbeddedPointer rinfo
  | OBJECT_SLOT => invoke_at addr
  | NUMBER_OF_SLOT_TYPES => fail
  end.

End UpdateTypedSlotHelper.
End UpdateTypedSlotHelper.

(** ** Vocabulary of the statements *)

Section DispatchVocabulary.
Context {W : Type} `{!RelocInfo.Codec W}.

(** The kinds whose reference is decoded from and encoded into the
    instruction stream only when it changes. *)
Definition encodes_on_change (slot_type : SlotType) : bool :=
  match slot_type with
  | CODE_TARGET_SLOT | EMBEDDED_OBJECT_SLOT | CELL_TARGET_SLOT
  | CODE_ENTRY_SLOT => true
  | _ => false
  end.

(** The [RelocInfo] the dispatcher builds for a kind. *)
Definition rinfo_of (slot_type : SlotType) (addr : Z) : RelocInfo.t :=
  RelocInfo.Build addr
    match slot_type with
    | CELL_TARGET_SLOT => RelocInfo.CELL
    | DEBUG_TARGET_SLOT => RelocInfo.DEBUG_BREAK_SLOT_AT_POSITION
    | EMBEDDED_OBJECT_SLOT => RelocInfo.EMBEDDED_OBJECT
    | _ => RelocInfo.CODE_TARGET
    end.

(** The reference the dispatcher decodes at [addr]. *)
Definition decoded (slot_type : SlotType) (addr : Z) (w : W) : Z :=
  let rinfo := rinfo_of slot_type addr in
  match slot_type with
  | CODE_TARGET_SLOT =>
      RelocInfo.GetCodeFromTargetAddress (RelocInfo.target_address rinfo w) w
  | CELL_TARGET_SLOT => RelocInfo.target_cell rinfo w
  | CODE_ENTRY_SLOT => RelocInfo.GetObjectFromEntryAddress addr w
  | DEBUG_TARGET_SLOT =>
      RelocInfo.GetCodeFromTargetAddress (RelocInfo.debug_call_address rinfo w) w
  | EMBEDDED_OBJECT_SLOT => RelocInfo.target_object rinfo w
  | _ => 0
  end.

(** The value written for the reference [object]. *)
Definition encoding (slot_type : SlotType) (object : Z) (w : W) : Z :=
  match slot_type with
  | CODE_TARGET_SLOT | DEBUG_TARGET_SLOT => RelocInfo.instruction_start object w
  | CODE_ENTRY_SLOT => RelocInfo.entry object w
  | _ => object
  end.

(** The write itself. *)
Definition encode (slot_type : SlotType) (addr value : Z) (w : W) : W :=
  let rinfo := rinfo_of slot_type addr in
  match slot_type with
  | CODE_TARGET_SLOT => RelocInfo.set_target_address rinfo value w
  | CELL_TARGET_SLOT => RelocInfo.set_target_cell rinfo value w
  | CODE_ENTRY_SLOT => RelocInfo.store_Address_at addr value w
  | DEBUG_TARGET_SLOT => RelocInfo.set_debug_call_address rinfo value w
  | EMBEDDED_OBJECT_SLOT => RelocInfo.set_target_object rinfo value w
  | _ => w
  end.

(** The state after the callback left the reference [object] in the state
    [w] and the dispatcher wrote it back at [addr]. *)
Definition written_back (slot_type : SlotType) (addr old object : Z) (w : W)
    (tr : list UpdateTypedSlotHelper.Event) : UpdateTypedSlotHelper.State W :=
  let value := encoding slot_type object w in
  UpdateTypedSlotHelper.MkState
    (encode slot_type addr value w)
    (tr ++ [UpdateTypedSlotHelper.CallbackInvoked old;
            UpdateTypedSlotHelper.WrittenBack addr value]).

(** The state after the callback, nothing written. *)
Definition left_alone (old : Z) (w : W)
    (tr : list UpdateTypedSlotHelper.Event) : UpdateTypedSlotHelper.State W :=
  UpdateTypedSlotHelper.MkState w (tr ++ [UpdateTypedSlotHelper.CallbackInvoked old]).

End DispatchVocabulary.

(** A small codec to run the dispatcher on: the state maps addresses to
    words, a reference is stored at its [pc], a code object starts 96 bytes
    before its first instruction, and a debug-break sequence is patched when
    the word after it is 1. *)
Module ExampleCodec.

Definition load (addr : Z) (w : gmap Z Z) : Z := default 0 (w !! addr).

Definition store (addr value : Z) (w : gmap Z Z) : gmap Z Z := <[addr := value]> w.

Global Instance codec : RelocInfo.Codec (gmap Z Z) := {|
  RelocInfo.target_cell r w := load (RelocInfo.pc r) w;
  RelocInfo.set_target_cell r v w := store (RelocInfo.pc r) v w;
  RelocInfo.target_address r w := load (RelocInfo.pc r) w;
  RelocInfo.set_target_address r v w := store (RelocInfo.pc r) v w;
  RelocInfo.target_object r w := load (RelocInfo.pc r) w;
  RelocInfo.set_target_object r v w := store (RelocInfo.pc r) v w;
  RelocInfo.debug_call_address r w := load (RelocInfo.pc r) w;
  RelocInfo.set_debug_call_address r v w := store (RelocInfo.pc r) v w;
  RelocInfo.IsPatchedDebugBreakSlotSequence r w :=
    bool_decide (load (RelocInfo.pc r + 8) w = 1);
  RelocInfo.GetObjectFromEntryAddress a w := load a w - 96;
  RelocInfo.GetCodeFromTargetAddress a w := a - 96;
  RelocInfo.entry o w := o + 96;
  RelocInfo.instruction_start o w := o + 96;
  RelocInfo.store_Address_at a v w := store a v w
|}.

(** A callback that keeps every slot and leaves the reference alone. *)
Definition keep (object : Z) (w : gmap Z Z) : SlotCallbackResult * Z * gmap Z Z :=
  (KEEP_SLOT, object, w).

(** A callback that keeps every slot and moves the object by 4096 bytes. *)
Definition move (object : Z) (w : gmap Z Z) : SlotCallbackResult * Z * gmap Z Z :=
  (KEEP_SLOT, object + 4096, w).

Definition keep_at (addr : Z) (w : gmap Z Z) : SlotCallbackResult * gmap Z Z :=
  (KEEP_SLOT, w).

(** A code target at 1000 and a patched debug-break slot at 2000. *)
Definition world0 : gmap Z Z := {[ 1000 := 5096; 2000 := 7096; 2008 := 1 ]}.

Definition state0 : UpdateTypedSlotHelper.State (gmap Z Z) :=
  UpdateTypedSlotHelper.MkState world0 [].

End ExampleCodec.

(** Slot tables. *)

(** The other direction. *)
Definition other (direction : PointerDirection) : PointerDirection :=
  match direction with
  | OLD_TO_OLD => OLD_TO_NEW
  | OLD_TO_NEW => OLD_TO_OLD
  end.

(** The chunk with the two tables of [direction] replaced. *)
Definition set_tables (direction : PointerDirection) (chunk : MemoryChunk.t)
    (slots : option (list SlotSet.t)) (typed : option TypedSlotSet.t)
  : MemoryChunk.t :=
  match direction with
  | OLD_TO_OLD =>
      MemoryChunk.Build (MemoryChunk.address chunk) (MemoryChunk.size chunk)
        (MemoryChunk.old_to_new_slots chunk) slots
        (MemoryChunk.typed_old_to_new_slots chunk) typed
  | OLD_TO_NEW =>
      MemoryChunk.Build (MemoryChunk.address chunk) (MemoryChunk.size chunk)
        slots (MemoryChunk.old_to_old_slots chunk)
        typed (MemoryChunk.typed_old_to_old_slots chunk)
  end.

(** Whether the slot at the chunk offset [offset] is present in a slot
    table. *)
Definition recorded_in (kPageSize : Z) (slots : list SlotSet.t) (offset : Z)
  : bool :=
  match slots !! Z.to_nat (offset / kPageSize) with
  | Some s => bool_decide (offset `mod` kPageSize ∈ SlotSet.bits s)
  | None => false
  end.

(** Whether it is present in the slot table of a chunk; no table, no slot. *)
Definition slot_recorded (kPageSize : Z) (direction : PointerDirection)
    (chunk : MemoryChunk.t) (offset : Z) : bool :=
  match RememberedSet.GetSlotSet direction chunk with
  | Some slots => recorded_in kPageSize slots offset
  | None => false
  end.

(** The operations of a remembered set on one chunk. *)
Inductive Operation (S : Type) :=
| OpInsert (slot_addr : Z)
| OpRemove (slot_addr : Z)
| OpRemoveRange (start end_ : Z)
| OpInsertTyped (host_addr : Z) (slot_type : SlotType) (slot_addr : Z)
| OpRemoveRangeTyped (start end_ : Z)
| OpIterate (callback : Z → S → SlotCallbackResult * S)
| OpIterateTyped (callback : SlotType → Z → Z → S → SlotCallbackResult * S)
| OpAllocateSlotSet
| OpAllocateTypedSlotSet
| OpReleaseSlotSet
| OpReleaseTypedSlotSet.
Global Arguments OpInsert {S} _.
Global Arguments OpRemove {S} _.
Global Arguments OpRemoveRange {S} _ _.
Global Arguments OpInsertTyped {S} _ _ _.
Global Arguments OpRemoveRangeTyped {S} _ _.
Global Arguments OpIterate {S} _.
Global Arguments OpIterateTyped {S} _.
Global Arguments OpAllocateSlotSet {S}.
Global Arguments OpAllocateTypedSlotSet {S}.
Global Arguments OpReleaseSlotSet {S}.
Global Arguments OpReleaseTypedSlotSet {S}.

(** Running one operation of the remembered set of [direction]. *)
Definition perform {S : Type} (kPageSize kMaxOffset : Z) (debug : bool)
    (direction : PointerDirection) (op : Operation S)
    (chunk : MemoryChunk.t) (st : S) : option (MemoryChunk.t * S) :=
  let pure (r : option MemoryChunk.t) := (λ c, (c, st)) <$> r in
  match op with
  | OpInsert slot_addr =>
      pure (RememberedSet.Insert kPageSize debug direction chunk slot_addr)
  | OpRemove slot_addr =>
      pure (RememberedSet.Remove kPageSize debug direction chunk slot_addr)
  | OpRemoveRange start end_ =>
      pure (RememberedSet.RemoveRange kPageSize debug direction chunk start end_)
  | OpInsertTyped host_addr slot_type slot_addr =>
      pure (RememberedSet.InsertTyped kMaxOffset debug direction chunk
              host_addr slot_type slot_addr)
  | OpRemoveRangeTyped start end_ =>
      pure (RememberedSet.RemoveRangeTyped direction chunk start end_)
  | OpIterate callback =>
      RememberedSet.IterateChunk kPageSize direction callback chunk st
  | OpIterateTyped callback =>
      RememberedSet.IterateTypedChunk direction callback chunk st
  | OpAllocateSlotSet =>
      pure (Some (RememberedSet.AllocateSlotSet kPageSize direction chunk).1)
  | OpAllocateTypedSlotSet =>
      pure (Some (RememberedSet.AllocateTypedSlotSet direction chunk).1)
  | OpReleaseSlotSet => pure (Some (RememberedSet.ReleaseSlotSet direction chunk))
  | OpReleaseTypedSlotSet =>
      pure (Some (RememberedSet.ReleaseTypedSlotSet direction chunk))
  end.

(** Whether a chunk has a slot table or a typed slot table of [direction]:
    the test of [IterateMemoryChunks]. *)
Definition has_table (direction : PointerDirection) (chunk : MemoryChunk.t)
  : bool :=
  bool_decide (RememberedSet.GetSlotSet direction chunk ≠ None)
  || bool_decide (RememberedSet.GetTypedSlotSet direction chunk ≠ None).

(** Whether a table of [direction] of the chunk holds at least one entry. *)
Definition holds_slots (direction : PointerDirection) (chunk : MemoryChunk.t)
  : bool :=
  match RememberedSet.GetSlotSet direction chunk with
  | Some slots => bool_decide (Exists (λ s, SlotSet.bits s ≠ ∅) slots)
  | None => false
  end
  || match RememberedSet.GetTypedSlotSet direction chunk with
     | Some typed => bool_decide (TypedSlotSet.slots typed ≠ [])
     | None => false
     end.

(** A chunk callback that also notes, in order, the chunks it is invoked
    on. *)
Definition recording {S : Type}
    (callback : MemoryChunk.t → S → option (MemoryChunk.t * S))
    (chunk : MemoryChunk.t) (st : S * list MemoryChunk.t)
  : option (MemoryChunk.t * (S * list MemoryChunk.t)) :=
  r ← callback chunk st.1; Some (r.1, (r.2, st.2 ++ [chunk])).

(** Iterations. *)

(** Running a callback over a sequence of items: the verdicts, in order, and
    the state it leaves. *)
Fixpoint run_callback {A S : Type} (callback : A → S → SlotCallbackResult * S)
    (items : list A) (st : S) : list SlotCallbackResult * S :=
  match items with
  | [] => ([], st)
  | a :: items =>
      let r := callback a st in
      let rs := run_callback callback items r.2 in
      (r.1 :: rs.1, rs.2)
  end.

(** The number of KEEP verdicts. *)
Definition retained (verdicts : list SlotCallbackResult) : Z :=
  Z.of_nat (length (filter (λ v, v = KEEP_SLOT) verdicts)).

(** The items that met the verdict [v], in order. *)
Definition with_verdict {A : Type} (v : SlotCallbackResult) (items : list A)
    (verdicts : list SlotCallbackResult) : list A :=
  (filter (λ p, p.2 = v) (zip items verdicts)).*1.

(** The addresses of the slots of a table, in the order of the visit: page
    unit by page unit, ascending within one. *)
Fixpoint slot_addresses (slots : list SlotSet.t) : list Z :=
  match slots with
  | [] => []
  | s :: rest =>
      ((λ o, SlotSet.page_start s + o) <$> SlotSet.offsets s)
        ++ slot_addresses rest
  end.

(** The same slots as pairs of a page unit and an offset, [page] being the
    number of the first page unit of [slots]. *)
Fixpoint slot_entries (page : nat) (slots : list SlotSet.t) : list (nat * Z) :=
  match slots with
  | [] => []
  | s :: rest =>
      ((λ o, (page, o)) <$> SlotSet.offsets s) ++ slot_entries (S page) rest
  end.

(** Whether a table holds the entry. *)
Definition entry_recorded (slots : list SlotSet.t) (e : nat * Z) : Prop :=
  ∃ s, slots !! e.1 = Some s ∧ e.2 ∈ SlotSet.bits s.

(** The number of slots of a table. *)
Definition total_slots (slots : list SlotSet.t) : Z :=
  Z.of_nat (length (slot_addresses slots)).

(** A table without the entries that met a REMOVE verdict, the verdicts being
    in the order of the visit. *)
Fixpoint drained (slots : list SlotSet.t) (verdicts : list SlotCallbackResult)
  : list SlotSet.t :=
  match slots with
  | [] => []
  | s :: rest =>
      let n := length (SlotSet.offsets s) in
      SlotSet.Build (SlotSet.page_start s)
        (SlotSet.bits s
           ∖ list_to_set (with_verdict REMOVE_SLOT (SlotSet.offsets s)
                            (take n verdicts)))
        :: drained rest (drop n verdicts)
  end.

(** The call [TypedSlotSet::Iterate] makes for an entry. *)
Definition typed_call {S : Type}
    (callback : SlotType → Z → Z → S → SlotCallbackResult * S)
    (page_start : Z) (e : TypedSlotSet.TypedSlot) (st : S)
  : SlotCallbackResult * S :=
  callback (TypedSlotSet.type e) (page_start + TypedSlotSet.host_offset e)
           (page_start + TypedSlotSet.offset e) st.

(** The operations that may release the typed slot table. *)
Definition may_release_typed {S : Type} (op : Operation S) : bool :=
  match op with
  | OpIterateTyped _ | OpReleaseTypedSlotSet => true
  | _ => false
  end.

(** Whether a typed slot lies in the address range [start, end_). *)
Definition typed_slot_in_range (page_start start end_ : Z)
    (e : TypedSlotSet.TypedSlot) : bool :=
  bool_decide (start ≤ page_start + TypedSlotSet.offset e)
  && bool_decide (page_start + TypedSlotSet.offset e < end_).

(** Example values: pages of 512 KB, a packing limit of 2^29, a chunk of two
    page units at 1 MB without any table. *)
Module Example.

Definition kPageSize : Z := 524288.

Definition kMaxOffset : Z := 536870912.

Definition base : Z := 1048576.

Definition empty_chunk : MemoryChunk.t :=
  MemoryChunk.Build base (2 * kPageSize) None None None None.

(** The chunk after the write barrier recorded the slots at the offsets 20
    and [kPageSize + 20] in the direction [d]. *)
Definition two_slots (debug : bool) (d : PointerDirection)
  : option MemoryChunk.t :=
  chunk ← RememberedSet.Insert kPageSize debug d empty_chunk (base + 20);
  RememberedSet.Insert kPageSize debug d chunk (base + kPageSize + 20).

(** The same as a chunk, the empty one standing in for a failure. *)
Definition recorded_chunk (d : PointerDirection) : MemoryChunk.t :=
  default empty_chunk (two_slots true d).

(** The chunk after the slot at the offset 20 was recorded and removed
    again: its table is there and holds nothing. *)
Definition emptied_chunk (d : PointerDirection) : MemoryChunk.t :=
  default empty_chunk
    (chunk ← RememberedSet.Insert kPageSize true d empty_chunk (base + 20);
     RememberedSet.Remove kPageSize true d chunk (base + 20)).

(** A range that starts in the first page unit and ends in the second. *)
Definition range_start : Z := base + 10.

Definition range_end : Z := base + kPageSize + 30.

(** A chunk callback that does nothing. *)
Definition skip (chunk : MemoryChunk.t) (st : unit)
  : option (MemoryChunk.t * unit) :=
  Some (chunk, st).

(** The chunk after one typed slot was recorded at the offset 64. *)
Definition one_typed_slot (debug : bool) (d : PointerDirection)
  : option MemoryChunk.t :=
  RememberedSet.InsertTyped kMaxOffset debug d empty_chunk nullptr
    CODE_TARGET_SLOT (base + 64).

(** The chunk after that typed slot was removed again by range: its typed
    table is there and holds nothing. *)
Definition emptied_typed_chunk (d : PointerDirection) : MemoryChunk.t :=
  default empty_chunk
    (chunk ← one_typed_slot true d;
     RememberedSet.RemoveRangeTyped d chunk base (base + 128)).

(** Callbacks that note the addresses they are invoked on. *)
Definition keep_all (addr : Z) (st : list Z) : SlotCallbackResult * list Z :=
  (KEEP_SLOT, st ++ [addr]).

Definition remove_all (addr : Z) (st : list Z) : SlotCallbackResult * list Z :=
  (REMOVE_SLOT, st ++ [addr]).

Definition keep_all_typed (slot_type : SlotType) (host_addr slot_addr : Z)
    (st : list Z) : SlotCallbackResult * list Z :=
  (KEEP_SLOT, st ++ [slot_addr]).

End Example.

(** Well-formed chunks. *)

(** The slot set of the page unit [page] of a chunk: its offsets are
    relative to the start of that page unit and lie within it. *)
Definition slot_set_ok (kPageSize : Z) (chunk : MemoryChunk.t) (page : nat)
    (s : SlotSet.t) : Prop :=
  SlotSet.page_start s
    = MemoryChunk.address chunk + Z.of_nat page * kPageSize ∧
  ∀ o, o ∈ SlotSet.bits s → 0 ≤ o < kPageSize.

(** The tables of [direction] of a chunk are as the operations of the
    remembered set make them: a slot table has one slot set per page unit,
    each as above, and a typed slot table is relative to the base address. *)
Definition table_ok (kPageSize : Z) (chunk : MemoryChunk.t)
    (slots : list SlotSet.t) : Prop :=
  length slots = Z.to_nat (MemoryChunk.pages kPageSize chunk) ∧
  ∀ page s, slots !! page = Some s → slot_set_ok kPageSize chunk page s.

Definition well_formed (kPageSize : Z) (direction : PointerDirection)
    (chunk : MemoryChunk.t) : Prop :=
  (∀ slots,
     RememberedSet.GetSlotSet direction chunk = Some slots →
     table_ok kPageSize chunk slots) ∧
  (∀ typed,
     RememberedSet.GetTypedSlotSet direction chunk = Some typed →
     TypedSlotSet.page_start typed = MemoryChunk.address chunk).

(** The operations that work on the typed slot table. *)
Definition on_typed_table {S : Type} (op : Operation S) : bool :=
  match op with
  | OpInsertTyped _ _ _ | OpRemoveRangeTyped _ _ | OpIterateTyped _
  | OpAllocateTypedSlotSet | OpReleaseTypedSlotSet => true
  | _ => false
  end.

(** The addresses of the slots of the chunks of a heap, in the order of a
    heap-wide visit. *)
Definition heap_slot_addresses (direction : PointerDirection)
    (heap : list MemoryChunk.t) : list Z :=
  chunk ← heap;
  slot_addresses (default [] (RememberedSet.GetSlotSet direction chunk)).

(** The typed slots of the chunks of a heap with the address they are
    relative to, in the order of a heap-wide visit. *)
Definition heap_typed_slots (direction : PointerDirection)
    (heap : list MemoryChunk.t) : list (Z * TypedSlotSet.TypedSlot) :=
  chunk ← heap;
  match RememberedSet.GetTypedSlotSet direction chunk with
  | Some typed =>
      (λ e, (TypedSlotSet.page_start typed, e)) <$> TypedSlotSet.slots typed
  | None => []
  end.

(** The chunk a per-chunk [Iterate] leaves when started in the state [st]:
    the slot table without the slots that met a REMOVE verdict, or no slot
    table if none is left. *)
Definition chunk_after_Iterate {S : Type} (direction : PointerDirection)
    (callback : Z → S → SlotCallbackResult * S) (chunk : MemoryChunk.t) (st : S)
  : MemoryChunk.t :=
  set_tables direction chunk
    match RememberedSet.GetSlotSet direction chunk with
    | Some slots =>
        let verdicts := (run_callback callback (slot_addresses slots) st).1 in
        if decide (retained verdicts = 0) then None
        else Some (drained slots verdicts)
    | None => None
    end
    (RememberedSet.GetTypedSlotSet direction chunk).

(** The heap a heap-wide [Iterate] leaves. *)
Fixpoint heap_after_Iterate {S : Type} (direction : PointerDirection)
    (callback : Z → S → SlotCallbackResult * S) (heap : list MemoryChunk.t)
    (st : S) : list MemoryChunk.t :=
  match heap with
  | [] => []
  | chunk :: rest =>
      chunk_after_Iterate direction callback chunk st
        :: heap_after_Iterate direction callback rest
             (run_callback callback
                (slot_addresses
                   (default [] (RememberedSet.GetSlotSet direction chunk)))
                st).2
  end.

(** The events a run of the dispatcher added to the trace. *)
Definition is_dispatch_trace (addr : Z) (events : list UpdateTypedSlotHelper.Event)
  : Prop :=
  events = [] ∨
  events = [UpdateTypedSlotHelper.CallbackInvokedAt addr] ∨
  (∃ object, events = [UpdateTypedSlotHelper.CallbackInvoked object]) ∨
  (∃ object value,
     events = [UpdateTypedSlotHelper.CallbackInvoked object;
               UpdateTypedSlotHelper.WrittenBack addr value]).

(** Tactics. *)

(** Unfolds the accessors of a remembered set once the direction is known. *)
Ltac unfold_accessors :=
  unfold RememberedSet.GetSlotSet, RememberedSet.GetTypedSlotSet,
    RememberedSet.ReleaseSlotSet, RememberedSet.ReleaseTypedSlotSet,
    RememberedSet.AllocateSlotSet, RememberedSet.AllocateTypedSlotSet,
    RememberedSet.store_slot_set, RememberedSet.store_typed_slot_set,
    MemoryChunk.AllocateOldToNewSlots, MemoryChunk.AllocateOldToOldSlots,
    MemoryChunk.AllocateTypedOldToNewSlots,
    MemoryChunk.AllocateTypedOldToOldSlots,
    MemoryChunk.ReleaseOldToNewSlots, MemoryChunk.ReleaseOldToOldSlots,
    MemoryChunk.ReleaseTypedOldToNewSlots,
    MemoryChunk.ReleaseTypedOldToOldSlots,
    MemoryChunk.set_old_to_new_slots, MemoryChunk.set_old_to_old_slots,
    MemoryChunk.set_typed_old_to_new_slots,
    MemoryChunk.set_typed_old_to_old_slots,
    MemoryChunk.new_slot_set_array, MemoryChunk.new_slot_set_at,
    MemoryChunk.new_typed_slot_set, MemoryChunk.pages, MemoryChunk.Contains
    in *;
  simpl in *.

(** Takes the steps of an operation apart: the checks, the array accesses
    and the iterations. *)
Ltac destruct_steps :=
  repeat match goal with
    | |- context [DCHECK ?d ?c] => destruct (DCHECK d c) as [[]|]; simpl
    | |- context [@lookup _ _ (list _) _ ?i ?l] => destruct (l !! i); simpl
    | |- context [RememberedSet.iterate_pages ?cb ?l ?t ?n ?st] =>
        destruct (RememberedSet.iterate_pages cb l t n st) as [[[? ?] ?]|];
        simpl
    | |- context [TypedSlotSet.Iterate ?cb ?l ?st] =>
        destruct (TypedSlotSet.Iterate cb l st) as [[? ?] ?]; simpl
    | |- context [bool_decide ?P] => destruct (bool_decide P); simpl
    end.

(** * Properties *)

(** ** The dispatcher *)

Lemma DCHECK_true debug : DCHECK debug true = Some tt.
Proof. unfold DCHECK. by rewrite andb_false_r. Qed.

Section Dispatcher.
Context {W : Type} `{!RelocInfo.Codec W}.
Variable debug : bool.
Variable callback : Z → W → SlotCallbackResult * Z * W.
Variable callback_at : Z → W → SlotCallbackResult * W.

Import UpdateTypedSlotHelper.

Lemma dcheck_true (st : State W) : dcheck debug true st = Some (tt, st).
Proof. unfold dcheck. by rewrite DCHECK_true. Qed.

(** Running one of the four decode-and-encode helpers. *)
Lemma UpdateTypedSlot_encodes_on_change slot_type addr st result object w :
  encodes_on_change slot_type = true →
  callback (decoded slot_type addr (world st)) (world st) = (result, object, w) →
  UpdateTypedSlot debug callback callback_at slot_type addr st =
    Some (result,
          if decide (object = decoded slot_type addr (world st))
          then left_alone (decoded slot_type addr (world st)) w (trace st)
          else written_back slot_type addr
                 (decoded slot_type addr (world st)) object w (trace st)).
Proof.
  intros Hkind Hcb.
  destruct slot_type; try discriminate Hkind; simpl.
  all: unfold UpdateCodeTarget, UpdateCell, UpdateCodeEntry,
         UpdateEmbeddedPointer, bind, read, invoke, ret; simpl.
  all: rewrite ?bool_decide_eq_true_2 by done; rewrite ?dcheck_true.
  all: unfold decoded, rinfo_of in *; simpl in Hcb; rewrite Hcb; simpl.
  all: unfold left_alone, written_back, encode, encoding, rinfo_of,
         write_back, bind, read, ret.
  all: case_bool_decide; case_decide; simpl; rewrite <- ?app_assoc; done.
Qed.

(** Running the debug-target case on a patched sequence. *)
Lemma UpdateTypedSlot_patched_debug_target addr st result object w :
  RelocInfo.IsPatchedDebugBreakSlotSequence
    (rinfo_of DEBUG_TARGET_SLOT addr) (world st) = true →
  callback (decoded DEBUG_TARGET_SLOT addr (world st)) (world st)
    = (result, object, w) →
  UpdateTypedSlot debug callback callback_at DEBUG_TARGET_SLOT addr st =
    Some (result,
          written_back DEBUG_TARGET_SLOT addr
            (decoded DEBUG_TARGET_SLOT addr (world st)) object w (trace st)).
Proof.
  intros Hpatched Hcb. simpl.
  unfold decoded, rinfo_of in *; simpl in *.
  unfold bind at 1, read at 1. rewrite Hpatched.
  unfold UpdateDebugTarget, bind, read, invoke, ret; simpl.
  rewrite Hpatched, dcheck_true, Hcb. unfold written_back, write_back; simpl.
  by rewrite <- app_assoc.
Qed.

End Dispatcher.

(** C2. Write-back asymmetry of the dispatcher. For the code-target,
    embedded-object, cell and code-entry kinds the dispatcher decodes the
    reference, invokes the callback once and writes the reference back exactly
    when the callback left a different one: otherwise the run performs no
    write and ends in the state the callback left. For the debug-target kind
    on a patched sequence the reference is written back in every case, also
    when the callback left it as it was. *)
Theorem UpdateTypedSlot_write_back_asymmetry
    {W : Type} `{!RelocInfo.Codec W} (debug : bool)
    (callback : Z → W → SlotCallbackResult * Z * W)
    (callback_at : Z → W → SlotCallbackResult * W)
    (addr : Z) (st : UpdateTypedSlotHelper.State W) :
  (∀ slot_type result object w,
     encodes_on_change slot_type = true →
     let old := decoded slot_type addr (UpdateTypedSlotHelper.world st) in
     callback old (UpdateTypedSlotHelper.world st) = (result, object, w) →
     (object = old →
      UpdateTypedSlotHelper.UpdateTypedSlot debug callback callback_at
        slot_type addr st
      = Some (result, left_alone old w (UpdateTypedSlotHelper.trace st))) ∧
     (object ≠ old →
      UpdateTypedSlotHelper.UpdateTypedSlot debug callback callback_at
        slot_type addr st
      = Some (result, written_back slot_type addr old object w
                        (UpdateTypedSlotHelper.trace st)))) ∧
  (∀ result object w,
     RelocInfo.IsPatchedDebugBreakSlotSequence
       (rinfo_of DEBUG_TARGET_SLOT addr) (UpdateTypedSlotHelper.world st) = true →
     let old := decoded DEBUG_TARGET_SLOT addr (UpdateTypedSlotHelper.world st) in
     callback old (UpdateTypedSlotHelper.world st) = (result, object, w) →
     UpdateTypedSlotHelper.UpdateTypedSlot debug callback callback_at
       DEBUG_TARGET_SLOT addr st
     = Some (result, written_back DEBUG_TARGET_SLOT addr old object w
                       (UpdateTypedSlotHelper.trace st))).
Proof.
  split.
  - intros slot_type result object w Hkind old Hcb.
    pose proof (UpdateTypedSlot_encodes_on_change debug callback callback_at
                  slot_type addr st result object w Hkind Hcb) as Hrun.
    fold old in Hrun.
    split; intros Hobj; rewrite Hrun; by case_decide.
  - intros result object w Hpatched old Hcb.
    by apply UpdateTypedSlot_patched_debug_target.
Qed.

Lemma UpdateTypedSlot_write_back_asymmetry_witness :
  (UpdateTypedSlotHelper.UpdateTypedSlot true ExampleCodec.keep
     ExampleCodec.keep_at CODE_TARGET_SLOT 1000 ExampleCodec.state0
   = Some (KEEP_SLOT, left_alone 5000 ExampleCodec.world0 [])) ∧
  (UpdateTypedSlotHelper.UpdateTypedSlot true ExampleCodec.move
     ExampleCodec.keep_at CODE_TARGET_SLOT 1000 ExampleCodec.state0
   = Some (KEEP_SLOT,
           written_back CODE_TARGET_SLOT 1000 5000 9096 ExampleCodec.world0 [])) ∧
  (UpdateTypedSlotHelper.UpdateTypedSlot true ExampleCodec.keep
     ExampleCodec.keep_at DEBUG_TARGET_SLOT 2000 ExampleCodec.state0
   = Some (KEEP_SLOT,
           written_back DEBUG_TARGET_SLOT 2000 7000 7000 ExampleCodec.world0 [])).
Proof.
  split; [| split].
  - exact (proj1 (proj1 (UpdateTypedSlot_write_back_asymmetry true
                           ExampleCodec.keep ExampleCodec.keep_at 1000
                           ExampleCodec.state0)
                    CODE_TARGET_SLOT KEEP_SLOT 5000 ExampleCodec.world0
                    eq_refl eq_refl)
             eq_refl).
  - refine (proj2 (proj1 (UpdateTypedSlot_write_back_asymmetry true
                            ExampleCodec.move ExampleCodec.keep_at 1000
                            ExampleCodec.state0)
                     CODE_TARGET_SLOT KEEP_SLOT 9096 ExampleCodec.world0
                     eq_refl eq_refl)
              _).
    vm_compute. discriminate.
  - exact (proj2 (UpdateTypedSlot_write_back_asymmetry true ExampleCodec.keep
                    ExampleCodec.keep_at 2000 ExampleCodec.state0)
             KEEP_SLOT 7000 ExampleCodec.world0 eq_refl eq_refl).
Defined.

(** C3. A debug-target slot whose instruction sequence is not patched is
    stale: the dispatcher returns REMOVE_SLOT at once. The state it returns is
    the one it was given, with nothing added to the trace: the callback was
    not invoked and nothing was written. *)
Theorem UpdateTypedSlot_unpatched_debug_target
    {W : Type} `{!RelocInfo.Codec W} (debug : bool)
    (callback : Z → W → SlotCallbackResult * Z * W)
    (callback_at : Z → W → SlotCallbackResult * W)
    (addr : Z) (st : UpdateTypedSlotHelper.State W) :
  RelocInfo.IsPatchedDebugBreakSlotSequence
    (RelocInfo.Build addr RelocInfo.DEBUG_BREAK_SLOT_AT_POSITION)
    (UpdateTypedSlotHelper.world st) = false →
  UpdateTypedSlotHelper.UpdateTypedSlot debug callback callback_at
    DEBUG_TARGET_SLOT addr st
  = Some (REMOVE_SLOT, st).
Proof.
  intros Hstale. simpl.
  unfold UpdateTypedSlotHelper.bind, UpdateTypedSlotHelper.read.
  by rewrite Hstale.
Qed.

Lemma UpdateTypedSlot_unpatched_debug_target_witness :
  UpdateTypedSlotHelper.UpdateTypedSlot true ExampleCodec.move
    ExampleCodec.keep_at DEBUG_TARGET_SLOT 1000 ExampleCodec.state0
  = Some (REMOVE_SLOT, ExampleCodec.state0).
Proof.
  apply (UpdateTypedSlot_unpatched_debug_target true ExampleCodec.move
           ExampleCodec.keep_at 1000 ExampleCodec.state0).
  reflexivity.
Defined.

(** ** The remembered set *)

(** C9. Directional isolation. Whatever the tables of the other direction
    are, an operation of the remembered set of [direction] behaves in the same
    way and hands them back as they were: replacing them before the operation
    or after it gives the same chunk, the same callback state and the same
    failures. In particular the getters of [direction] do not see them, and a
    chunk that went through an operation has the tables of the other
    direction it had before. The direction is arbitrary, so this holds for
    old-to-old against old-to-new and conversely. *)
Theorem directional_isolation {S : Type} (kPageSize kMaxOffset : Z)
    (debug : bool) (direction : PointerDirection) (op : Operation S)
    (chunk : MemoryChunk.t) (slots : option (list SlotSet.t))
    (typed : option TypedSlotSet.t) (st : S) :
  RememberedSet.GetSlotSet direction (set_tables (other direction) chunk slots typed)
    = RememberedSet.GetSlotSet direction chunk ∧
  RememberedSet.GetTypedSlotSet direction
      (set_tables (other direction) chunk slots typed)
    = RememberedSet.GetTypedSlotSet direction chunk ∧
  perform kPageSize kMaxOffset debug direction op
      (set_tables (other direction) chunk slots typed) st
    = (λ r, (set_tables (other direction) r.1 slots typed, r.2))
        <$> perform kPageSize kMaxOffset debug direction op chunk st ∧
  match perform kPageSize kMaxOffset debug direction op chunk st with
  | Some (chunk', _) =>
      RememberedSet.GetSlotSet (other direction) chunk'
        = RememberedSet.GetSlotSet (other direction) chunk ∧
      RememberedSet.GetTypedSlotSet (other direction) chunk'
        = RememberedSet.GetTypedSlotSet (other direction) chunk
  | None => True
  end.
Proof.
  destruct chunk as [a sz otn oto totn toto].
  split; [by destruct direction |].
  split; [by destruct direction |].
  split.
  - destruct direction, op; simpl.
    all: unfold RememberedSet.Insert, RememberedSet.Remove,
           RememberedSet.RemoveRange, RememberedSet.InsertTyped,
           RememberedSet.RemoveRangeTyped, RememberedSet.IterateChunk,
           RememberedSet.IterateTypedChunk; unfold_accessors.
    all: repeat (case_match; simplify_eq/=; try done).
    all: destruct_steps; done.
  - destruct direction, op; simpl.
    all: unfold RememberedSet.Insert, RememberedSet.Remove,
           RememberedSet.RemoveRange, RememberedSet.InsertTyped,
           RememberedSet.RemoveRangeTyped, RememberedSet.IterateChunk,
           RememberedSet.IterateTypedChunk; unfold_accessors.
    all: repeat (case_match; simplify_eq/=; try done).
    all: try revert select (_ = Some _); destruct_steps; intros;
      by simplify_eq/=.
Qed.


(** C5. [ClearAll] exists for the old-to-old direction only: the old-to-new
    instantiation is rejected by the static assertion and has no result. For
    old-to-old it returns the heap with, chunk by chunk and in the same order,
    both the slot table and the typed slot table of that direction released,
    whatever they held, and everything else as it was. *)
Theorem ClearAll_old_to_old_only (heap : list MemoryChunk.t) :
  RememberedSet.ClearAll OLD_TO_NEW heap = None ∧
  ∃ heap',
    RememberedSet.ClearAll OLD_TO_OLD heap = Some heap' ∧
    length heap' = length heap ∧
    ∀ i chunk,
      heap !! i = Some chunk →
      ∃ chunk',
        heap' !! i = Some chunk' ∧
        RememberedSet.GetSlotSet OLD_TO_OLD chunk' = None ∧
        RememberedSet.GetTypedSlotSet OLD_TO_OLD chunk' = None ∧
        chunk' = set_tables OLD_TO_OLD chunk None None.
Proof.
  split; [done |].
  eexists. split; [reflexivity |].
  split; [by rewrite length_fmap |].
  intros i chunk Hi. eexists.
  rewrite list_lookup_fmap, Hi. simpl.
  by destruct chunk.
Qed.

Lemma ClearAll_old_to_old_only_witness :
  ∃ chunk',
    (default [] (RememberedSet.ClearAll OLD_TO_OLD
                   (default [] (c ← Example.two_slots true OLD_TO_OLD; Some [c]))))
      !! 0%nat = Some chunk' ∧
    RememberedSet.GetSlotSet OLD_TO_OLD chunk' = None.
Proof.
  destruct (ClearAll_old_to_old_only
              (default [] (c ← Example.two_slots true OLD_TO_OLD; Some [c])))
    as (_ & heap' & Hrun & _ & Hchunks).
  destruct (Hchunks 0%nat _ eq_refl) as (chunk' & Hlookup & Hslots & _).
  exists chunk'. rewrite Hrun. simpl. by split.
Defined.

(** A chunk is what it was after its own table is stored back. *)
Lemma store_slot_set_same direction chunk slot_set :
  RememberedSet.GetSlotSet direction chunk = Some slot_set →
  RememberedSet.store_slot_set direction chunk slot_set = chunk.
Proof.
  destruct direction, chunk; unfold_accessors; by intros ->.
Qed.

Lemma store_typed_slot_set_same direction chunk slot_set :
  RememberedSet.GetTypedSlotSet direction chunk = Some slot_set →
  RememberedSet.store_typed_slot_set direction chunk slot_set = chunk.
Proof.
  destruct direction, chunk; unfold_accessors; by intros ->.
Qed.

(** Removing an offset that is not there leaves a slot set as it is. *)
Lemma SlotSet_Remove_absent (s : SlotSet.t) (slot_offset : Z) :
  slot_offset ∉ SlotSet.bits s → SlotSet.Remove s slot_offset = s.
Proof.
  intros Habsent. destruct s as [start b]. unfold SlotSet.Remove. simpl in *.
  f_equal. by apply difference_disjoint_L, disjoint_singleton_r.
Qed.

(** C6. Removing from a chunk without a table is a no-op that returns the
    chunk itself, so nothing is allocated: [Remove] and [RemoveRange] when the
    slot table is absent, [RemoveRangeTyped] when the typed slot table is
    absent. [Remove] of a slot that is not recorded in an existing table
    returns the chunk itself as well. [Remove] checks first that the page
    contains the slot, as every caller must ensure. *)
Theorem Remove_absent_is_no_op (kPageSize : Z) (debug : bool)
    (direction : PointerDirection) (page : MemoryChunk.t) :
  (∀ slot_addr,
     RememberedSet.GetSlotSet direction page = None →
     (debug = true → MemoryChunk.Contains page slot_addr = true) →
     RememberedSet.Remove kPageSize debug direction page slot_addr = Some page) ∧
  (∀ start end_,
     RememberedSet.GetSlotSet direction page = None →
     RememberedSet.RemoveRange kPageSize debug direction page start end_
       = Some page) ∧
  (∀ start end_,
     RememberedSet.GetTypedSlotSet direction page = None →
     RememberedSet.RemoveRangeTyped direction page start end_ = Some page) ∧
  (∀ slot_addr slot_set,
     RememberedSet.GetSlotSet direction page = Some slot_set →
     (debug = true → MemoryChunk.Contains page slot_addr = true) →
     let offset := to_uintptr (slot_addr - MemoryChunk.address page) in
     (Z.to_nat (offset / kPageSize) < length slot_set)%nat →
     recorded_in kPageSize slot_set offset = false →
     RememberedSet.Remove kPageSize debug direction page slot_addr = Some page).
Proof.
  assert (Hcheck : ∀ cond, (debug = true → cond = true) →
                           DCHECK debug cond = Some tt).
  { intros cond Hcond. unfold DCHECK.
    destruct debug; [| done]. by rewrite Hcond. }
  repeat split.
  - intros slot_addr Habsent Hcontains. unfold RememberedSet.Remove.
    by rewrite (Hcheck _ Hcontains), Habsent.
  - intros start end_ Habsent. unfold RememberedSet.RemoveRange.
    by rewrite Habsent.
  - intros start end_ Habsent. unfold RememberedSet.RemoveRangeTyped.
    by rewrite Habsent.
  - intros slot_addr slot_set Hpresent Hcontains offset Hindex Hfresh.
    unfold RememberedSet.Remove.
    rewrite (Hcheck _ Hcontains), Hpresent. simpl.
    fold offset. unfold recorded_in in Hfresh.
    destruct (lookup_lt_is_Some_2 _ _ Hindex) as [s Hs].
    rewrite Hs in *. simpl.
    apply bool_decide_eq_false in Hfresh.
    rewrite SlotSet_Remove_absent by done.
    rewrite list_insert_id by done.
    by rewrite store_slot_set_same.
Qed.

Lemma Remove_absent_is_no_op_witness :
  RememberedSet.Remove Example.kPageSize true OLD_TO_NEW Example.empty_chunk
    (Example.base + 20) = Some Example.empty_chunk ∧
  RememberedSet.RemoveRange Example.kPageSize true OLD_TO_NEW
    Example.empty_chunk (Example.base + 8) (Example.base + 64)
    = Some Example.empty_chunk ∧
  RememberedSet.RemoveRangeTyped OLD_TO_NEW Example.empty_chunk
    (Example.base + 8) (Example.base + 64) = Some Example.empty_chunk ∧
  RememberedSet.Remove Example.kPageSize true OLD_TO_NEW
    (Example.recorded_chunk OLD_TO_NEW) (Example.base + 28)
    = Some (Example.recorded_chunk OLD_TO_NEW).
Proof.
  destruct (Remove_absent_is_no_op Example.kPageSize true OLD_TO_NEW
              Example.empty_chunk) as (Hremove & Hrange & Htyped & _).
  split; [| split; [| split]].
  - apply Hremove; reflexivity.
  - apply Hrange; reflexivity.
  - apply Htyped; reflexivity.
  - eapply (Remove_absent_is_no_op Example.kPageSize true OLD_TO_NEW);
      [reflexivity | reflexivity | vm_compute; lia | reflexivity].
Defined.

(** The getters see what was stored. *)
Lemma GetTypedSlotSet_store direction chunk slot_set :
  RememberedSet.GetTypedSlotSet direction
    (RememberedSet.store_typed_slot_set direction chunk slot_set)
  = Some slot_set.
Proof. by destruct direction. Qed.

Lemma GetSlotSet_store direction chunk slot_set :
  RememberedSet.GetSlotSet direction
    (RememberedSet.store_slot_set direction chunk slot_set)
  = Some slot_set.
Proof. by destruct direction. Qed.

Lemma to_uint32_small (z : Z) : 0 ≤ z < 2 ^ 32 → to_uint32 z = z.
Proof. intros Hz. unfold to_uint32. by apply Z.mod_small. Qed.

Lemma to_uintptr_small (z : Z) : 0 ≤ z < 2 ^ 64 → to_uintptr z = z.
Proof. intros Hz. unfold to_uintptr, kUintptrBits. by apply Z.mod_small. Qed.

Lemma to_uintptr_nonneg (z : Z) : 0 ≤ to_uintptr z.
Proof. unfold to_uintptr, kUintptrBits. apply Z.mod_pos_bound. lia. Qed.

(** C8. [InsertTyped] with the base address of the chunk as host address, or
    with the null address, which it replaces by the base address, records the
    host offset 0. The entry is appended to the typed slot table of the chunk,
    which is a fresh empty one if the chunk had none. A checked build requires
    both offsets to be below [kMaxOffset]: otherwise the call fails, and when
    it succeeds the offsets are recorded as they are. *)
Theorem InsertTyped_records (kMaxOffset : Z) (debug : bool)
    (direction : PointerDirection) (page : MemoryChunk.t)
    (host_addr : Z) (slot_type : SlotType) (slot_addr : Z) :
  0 < kMaxOffset < 2 ^ 32 →
  let base := MemoryChunk.address page in
  let host := if bool_decide (host_addr = nullptr) then base else host_addr in
  let offset := to_uintptr (slot_addr - base) in
  let host_offset := to_uintptr (host - base) in
  let table := default (MemoryChunk.new_typed_slot_set page)
                       (RememberedSet.GetTypedSlotSet direction page) in
  let insert := RememberedSet.InsertTyped kMaxOffset debug direction page
                  host_addr slot_type slot_addr in
  let recorded host_off off page' :=
    page' = RememberedSet.store_typed_slot_set direction page
              (TypedSlotSet.Insert table slot_type host_off off) ∧
    RememberedSet.GetTypedSlotSet direction page'
      = Some (TypedSlotSet.Build (TypedSlotSet.page_start table)
                (TypedSlotSet.slots table
                   ++ [TypedSlotSet.Slot slot_type host_off off])) in
  (host_addr = base ∨ host_addr = nullptr → host_offset = 0) ∧
  (debug = true → ¬ (offset < kMaxOffset ∧ host_offset < kMaxOffset) →
   insert = None) ∧
  (debug = true → offset < kMaxOffset → host_offset < kMaxOffset →
   ∃ page', insert = Some page' ∧ recorded host_offset offset page') ∧
  (debug = false →
   ∃ page', insert = Some page' ∧
            recorded (to_uint32 host_offset) (to_uint32 offset) page').
Proof.
  intros Hmax base host offset host_offset table insert recorded.
  assert (Hlimit : to_uintptr kMaxOffset = kMaxOffset)
    by (apply to_uintptr_small; lia).
  assert (Hrun : insert =
            (_ ← DCHECK debug (bool_decide (offset < kMaxOffset));
             _ ← DCHECK debug (bool_decide (host_offset < kMaxOffset));
             Some (RememberedSet.store_typed_slot_set direction page
                     (TypedSlotSet.Insert table slot_type
                        (to_uint32 host_offset) (to_uint32 offset))))).
  { subst insert table host_offset offset host base.
    unfold RememberedSet.InsertTyped. rewrite Hlimit.
    destruct (RememberedSet.GetTypedSlotSet direction page) as [t|] eqn:Hget;
      simpl; [done |].
    destruct direction, page; unfold_accessors; simplify_eq/=;
      destruct_steps; done. }
  assert (Hrecorded : ∀ host_off off,
            recorded host_off off
              (RememberedSet.store_typed_slot_set direction page
                 (TypedSlotSet.Insert table slot_type host_off off))).
  { intros host_off off. split; [done |].
    by rewrite GetTypedSlotSet_store. }
  repeat split.
  - intros Hhost. subst host_offset host.
    replace (if bool_decide (host_addr = nullptr) then base else host_addr)
      with base by (case_bool_decide; by destruct Hhost).
    by rewrite Z.sub_diag.
  - intros -> Hnot. rewrite Hrun. unfold DCHECK. simpl.
    repeat case_bool_decide; simpl; try done. lia.
  - intros -> Hoff Hhost. eexists. split; [| apply Hrecorded].
    rewrite Hrun. unfold DCHECK. simpl.
    rewrite !bool_decide_eq_true_2 by done. simpl.
    pose proof (to_uintptr_nonneg (slot_addr - base)).
    pose proof (to_uintptr_nonneg (host - base)).
    by rewrite !to_uint32_small by (subst offset host_offset; lia).
  - intros ->. eexists. split; [| apply Hrecorded]. by rewrite Hrun.
Qed.

Lemma InsertTyped_records_witness :
  ∃ page',
    RememberedSet.InsertTyped Example.kMaxOffset true OLD_TO_OLD
      Example.empty_chunk Example.base CODE_TARGET_SLOT
      (Example.base + 64) = Some page' ∧
    RememberedSet.GetTypedSlotSet OLD_TO_OLD page'
      = Some (TypedSlotSet.Build Example.base
                [TypedSlotSet.Slot CODE_TARGET_SLOT 0 64]).
Proof.
  destruct (InsertTyped_records Example.kMaxOffset true OLD_TO_OLD
              Example.empty_chunk Example.base CODE_TARGET_SLOT
              (Example.base + 64))
    as (_ & _ & Hchecked & _); [done |].
  destruct Hchecked as (page' & Hrun & _ & Hget); [done.. |].
  exists page'. split; [exact Hrun | exact Hget].
Defined.

(** What the iteration of [RemoveRangeTyped] leaves: the entries outside the
    range, in their order, and their number. *)
Lemma iterate_slots_in_range (page_start start end_ : Z)
    (l : list TypedSlotSet.TypedSlot) :
  let kept :=
    filter (λ e, typed_slot_in_range page_start start end_ e = false) l in
  TypedSlotSet.iterate_slots (RememberedSet.in_range_callback start end_)
    page_start l tt
  = (kept, Z.of_nat (length kept), tt).
Proof.
  induction l as [| e l IH]; [done |]. simpl in *.
  rewrite !filter_cons, IH.
  destruct (typed_slot_in_range page_start start end_ e) eqn:Hrange;
    pose proof Hrange as Hrange'; unfold typed_slot_in_range in Hrange';
    rewrite Hrange'; case_decide; simplify_eq/=; try done.
  all: do 2 f_equal; lia.
Qed.

(** An iteration over a typed table without entries invokes nothing and
    retains nothing. *)
Lemma IterateTypedChunk_empty {S : Type} direction
    (callback : SlotType → Z → Z → S → SlotCallbackResult * S)
    chunk page_start (st : S) :
  RememberedSet.GetTypedSlotSet direction chunk
    = Some (TypedSlotSet.Build page_start []) →
  RememberedSet.IterateTypedChunk direction callback chunk st
    = Some (RememberedSet.ReleaseTypedSlotSet direction chunk, st).
Proof.
  intros Hget. unfold RememberedSet.IterateTypedChunk. rewrite Hget. simpl.
  by destruct direction, chunk.
Qed.

Lemma GetTypedSlotSet_Release direction chunk :
  RememberedSet.GetTypedSlotSet direction
    (RememberedSet.ReleaseTypedSlotSet direction chunk) = None.
Proof. by destruct direction. Qed.

Lemma GetSlotSet_Release direction chunk :
  RememberedSet.GetSlotSet direction
    (RememberedSet.ReleaseSlotSet direction chunk) = None.
Proof. by destruct direction. Qed.

(** No operation but the typed iteration and the release itself detaches a
    typed slot table. *)
Lemma typed_table_stays {S : Type} (kPageSize kMaxOffset : Z) (debug : bool)
    (direction : PointerDirection) (op : Operation S)
    (chunk : MemoryChunk.t) (st : S) :
  may_release_typed op = false →
  is_Some (RememberedSet.GetTypedSlotSet direction chunk) →
  match perform kPageSize kMaxOffset debug direction op chunk st with
  | Some (chunk', _) =>
      is_Some (RememberedSet.GetTypedSlotSet direction chunk')
  | None => True
  end.
Proof.
  intros Hop [typed Htyped].
  destruct chunk as [a sz otn oto totn toto].
  destruct direction, op; try discriminate Hop; simpl.
  all: unfold RememberedSet.Insert, RememberedSet.Remove,
         RememberedSet.RemoveRange, RememberedSet.InsertTyped,
         RememberedSet.RemoveRangeTyped, RememberedSet.IterateChunk;
       unfold_accessors.
  all: repeat (case_match; simplify_eq/=; try done).
  all: try revert select (_ = Some _); destruct_steps; intros;
    by simplify_eq/=.
Qed.

(** C10. [RemoveRangeTyped] keeps the typed slot table attached whatever it
    removes. On a chunk with a typed table it returns the chunk with the same
    table holding the entries outside [start, end_), in their order; the table
    is still there when no entry is left. Such an emptied table goes away
    with the next [IterateTyped] on the chunk, which retains nothing and
    releases it, or with [ClearAll]; no other operation detaches it. *)
Theorem RemoveRangeTyped_keeps_table (direction : PointerDirection)
    (page : MemoryChunk.t) (start end_ : Z) (slots : TypedSlotSet.t) :
  RememberedSet.GetTypedSlotSet direction page = Some slots →
  let kept :=
    filter (λ e, typed_slot_in_range (TypedSlotSet.page_start slots)
                   start end_ e = false)
           (TypedSlotSet.slots slots) in
  ∃ page',
    RememberedSet.RemoveRangeTyped direction page start end_ = Some page' ∧
    RememberedSet.GetTypedSlotSet direction page'
      = Some (TypedSlotSet.Build (TypedSlotSet.page_start slots) kept) ∧
    page' = RememberedSet.store_typed_slot_set direction page
              (TypedSlotSet.Build (TypedSlotSet.page_start slots) kept) ∧
    (∀ (S : Type) (kPageSize kMaxOffset : Z) (debug : bool)
       (op : Operation S) (st : S),
       may_release_typed op = false →
       match perform kPageSize kMaxOffset debug direction op page' st with
       | Some (page'', _) =>
           is_Some (RememberedSet.GetTypedSlotSet direction page'')
       | None => True
       end) ∧
    (kept = [] →
     (∀ (S : Type) (callback : SlotType → Z → Z → S → SlotCallbackResult * S)
        (st : S),
        ∃ page'',
          RememberedSet.IterateTypedChunk direction callback page' st
            = Some (page'', st) ∧
          RememberedSet.GetTypedSlotSet direction page'' = None) ∧
     (direction = OLD_TO_OLD →
      ∃ page'',
        RememberedSet.ClearAll direction [page'] = Some [page''] ∧
        RememberedSet.GetTypedSlotSet direction page'' = None)).
Proof.
  intros Hget kept. eexists.
  split.
  { unfold RememberedSet.RemoveRangeTyped, TypedSlotSet.Iterate.
    by rewrite Hget, iterate_slots_in_range. }
  fold kept.
  split; [apply GetTypedSlotSet_store |].
  split; [done |].
  split.
  { intros S kPageSize kMaxOffset debug op st Hop.
    apply typed_table_stays; [done |].
    rewrite GetTypedSlotSet_store. by eexists. }
  intros Hempty. rewrite Hempty. split.
  - intros S callback st. eexists. split.
    + apply IterateTypedChunk_empty with (TypedSlotSet.page_start slots).
      apply GetTypedSlotSet_store.
    + apply GetTypedSlotSet_Release.
  - intros ->. eexists. split; reflexivity.
Qed.

Lemma RemoveRangeTyped_keeps_table_witness :
  ∃ page',
    RememberedSet.RemoveRangeTyped OLD_TO_OLD
      (default Example.empty_chunk (Example.one_typed_slot true OLD_TO_OLD))
      Example.base (Example.base + 128) = Some page' ∧
    RememberedSet.GetTypedSlotSet OLD_TO_OLD page'
      = Some (TypedSlotSet.Build Example.base []).
Proof.
  destruct (RemoveRangeTyped_keeps_table OLD_TO_OLD
              (default Example.empty_chunk
                 (Example.one_typed_slot true OLD_TO_OLD))
              Example.base (Example.base + 128)
              (TypedSlotSet.Build Example.base
                 [TypedSlotSet.Slot CODE_TARGET_SLOT 0 64]) eq_refl)
    as (page' & Hrun & Hget & _).
  exists page'. split; [exact Hrun | exact Hget].
Defined.

(** One step of the loop over the chunks. *)
Lemma IterateMemoryChunks_cons {S : Type} direction
    (callback : MemoryChunk.t → S → option (MemoryChunk.t * S))
    (chunk : MemoryChunk.t) (heap : list MemoryChunk.t) (st : S) :
  RememberedSet.IterateMemoryChunks direction callback (chunk :: heap) st
  = r ← (if has_table direction chunk then callback chunk st
         else Some (chunk, st));
    r' ← RememberedSet.IterateMemoryChunks direction callback heap r.2;
    Some (r.1 :: r'.1, r'.2).
Proof.
  simpl. unfold has_table.
  destruct (if _ || _ then _ else _) as [[c st'] |]; simpl; [| done].
  by destruct (RememberedSet.IterateMemoryChunks direction callback heap st')
    as [[rest st''] |].
Qed.

(** The chunks [IterateMemoryChunks] hands to its callback are those with a
    table, in heap order. *)
Lemma IterateMemoryChunks_recording {S : Type} direction
    (callback : MemoryChunk.t → S → option (MemoryChunk.t * S))
    (heap : list MemoryChunk.t) (st : S) (log : list MemoryChunk.t) :
  RememberedSet.IterateMemoryChunks direction (recording callback) heap (st, log)
  = (λ r, (r.1, (r.2, log ++ filter (λ c, has_table direction c = true) heap)))
      <$> RememberedSet.IterateMemoryChunks direction callback heap st.
Proof.
  revert st log. induction heap as [| chunk heap IH]; intros st log.
  { simpl. by rewrite app_nil_r. }
  rewrite !IterateMemoryChunks_cons, filter_cons.
  destruct (has_table direction chunk); simpl.
  - unfold recording. simpl.
    destruct (callback chunk st) as [[chunk' st'] |]; simpl; [| done].
    fold (recording callback). rewrite IH.
    destruct (RememberedSet.IterateMemoryChunks direction callback heap st')
      as [[heap' st''] |]; simpl; [| done].
    by rewrite <- app_assoc.
  - rewrite IH.
    by destruct (RememberedSet.IterateMemoryChunks direction callback heap st)
      as [[heap' st'] |].
Qed.

(** A chunk without a table stays in its place as it is. *)
Lemma IterateMemoryChunks_skips {S : Type} direction
    (callback : MemoryChunk.t → S → option (MemoryChunk.t * S))
    (heap heap' : list MemoryChunk.t) (st st' : S) :
  RememberedSet.IterateMemoryChunks direction callback heap st
    = Some (heap', st') →
  length heap' = length heap ∧
  ∀ i chunk, heap !! i = Some chunk → has_table direction chunk = false →
             heap' !! i = Some chunk.
Proof.
  revert heap' st. induction heap as [| c heap IH]; intros heap' st Hrun.
  { simpl in Hrun. simplify_eq. split; [done |]. intros i chunk Hi.
    by rewrite lookup_nil in Hi. }
  rewrite IterateMemoryChunks_cons in Hrun.
  destruct (if has_table direction c then callback c st else Some (c, st))
    as [[c' st1] |] eqn:Hhead; simpl in Hrun; [| done].
  destruct (RememberedSet.IterateMemoryChunks direction callback heap st1)
    as [[rest st2] |] eqn:Hrest; simpl in Hrun; [| done].
  simplify_eq. destruct (IH _ _ Hrest) as [Hlen Hskip].
  split; [simpl; by rewrite Hlen |].
  intros [| i] chunk Hi Hnone; simpl in *.
  - simplify_eq. rewrite Hnone in Hhead. by simplify_eq.
  - by apply Hskip.
Qed.

(** C7, as the code has it. The heap-wide [IterateMemoryChunks], and with it
    [Iterate] and [IterateTyped], which run their per-chunk form through it,
    invoke the per-chunk callback on the chunks that have a slot table or a
    typed slot table of the direction attached, in heap order, whether or not
    the table holds an entry, and on no other chunk; a chunk without a table
    stays as it is. *)
Theorem IterateMemoryChunks_visits_chunks_with_table {S : Type}
    (kPageSize : Z) (direction : PointerDirection)
    (heap : list MemoryChunk.t) (st : S) :
  let visited := filter (λ c, has_table direction c = true) heap in
  (∀ callback : MemoryChunk.t → S → option (MemoryChunk.t * S),
     RememberedSet.IterateMemoryChunks direction (recording callback) heap
         (st, [])
     = (λ r, (r.1, (r.2, visited)))
         <$> RememberedSet.IterateMemoryChunks direction callback heap st ∧
     match RememberedSet.IterateMemoryChunks direction callback heap st with
     | Some (heap', _) =>
         length heap' = length heap ∧
         ∀ i chunk, heap !! i = Some chunk →
                    has_table direction chunk = false →
                    heap' !! i = Some chunk
     | None => True
     end) ∧
  (∀ callback : Z → S → SlotCallbackResult * S,
     RememberedSet.IterateMemoryChunks direction
         (recording (RememberedSet.IterateChunk kPageSize direction callback))
         heap (st, [])
     = (λ r, (r.1, (r.2, visited)))
         <$> RememberedSet.Iterate kPageSize direction callback heap st) ∧
  (∀ callback : SlotType → Z → Z → S → SlotCallbackResult * S,
     RememberedSet.IterateMemoryChunks direction
         (recording (RememberedSet.IterateTypedChunk direction callback))
         heap (st, [])
     = (λ r, (r.1, (r.2, visited)))
         <$> RememberedSet.IterateTyped direction callback heap st).
Proof.
  intros visited. repeat split.
  - apply (IterateMemoryChunks_recording direction callback heap st []).
  - destruct (RememberedSet.IterateMemoryChunks direction callback heap st)
      as [[heap' st'] |] eqn:Hrun; [| done].
    by apply IterateMemoryChunks_skips in Hrun.
  - intros callback.
    apply (IterateMemoryChunks_recording direction _ heap st []).
  - intros callback.
    apply (IterateMemoryChunks_recording direction _ heap st []).
Qed.

Lemma IterateMemoryChunks_visits_chunks_with_table_witness :
  RememberedSet.IterateMemoryChunks OLD_TO_NEW (recording Example.skip)
    [Example.empty_chunk; Example.recorded_chunk OLD_TO_NEW] (tt, [])
  = Some ([Example.empty_chunk; Example.recorded_chunk OLD_TO_NEW],
          (tt, [Example.recorded_chunk OLD_TO_NEW])).
Proof.
  exact (proj1 (proj1 (IterateMemoryChunks_visits_chunks_with_table
                         Example.kPageSize OLD_TO_NEW
                         [Example.empty_chunk; Example.recorded_chunk OLD_TO_NEW]
                         tt)
                  Example.skip)).
Defined.

(** C7, as stated, fails: a chunk whose slot table is attached and empty
    holds no slot of the direction, and the callback is invoked on it. The
    heap-wide [Iterate] shows the call: it releases the table. *)
Lemma IterateMemoryChunks_empty_table_counterexample :
  holds_slots OLD_TO_NEW (Example.emptied_chunk OLD_TO_NEW) = false ∧
  RememberedSet.IterateMemoryChunks OLD_TO_NEW (recording Example.skip)
    [Example.emptied_chunk OLD_TO_NEW] (tt, [])
  = Some ([Example.emptied_chunk OLD_TO_NEW],
          (tt, [Example.emptied_chunk OLD_TO_NEW])) ∧
  RememberedSet.GetSlotSet OLD_TO_NEW (Example.emptied_chunk OLD_TO_NEW)
    ≠ None ∧
  RememberedSet.Iterate Example.kPageSize OLD_TO_NEW Example.keep_all
    [Example.emptied_chunk OLD_TO_NEW] []
  = Some ([Example.empty_chunk], []).
Proof.
  split; [by vm_compute |].
  split; [by vm_compute |].
  split; [by vm_compute |].
  by vm_compute.
Qed.

(** What [SlotSet::RemoveRange] leaves. *)
Lemma elem_of_SlotSet_RemoveRange (s : SlotSet.t) (start_offset end_offset o : Z) :
  o ∈ SlotSet.bits (SlotSet.RemoveRange s start_offset end_offset)
  ↔ o ∈ SlotSet.bits s ∧ ¬ (start_offset ≤ o < end_offset).
Proof. unfold SlotSet.RemoveRange. simpl. rewrite elem_of_filter. tauto. Qed.

(** C1, as the code has it. On a page with a slot table, [RemoveRange] with
    a range [start, end_) that lies within the first page unit (the end
    offset is at most [kPageSize], as the second check demands) removes the
    recorded slots whose offset is in the range and no other: a slot is
    recorded afterwards if and only if it was recorded before and is outside
    the range. Only the slot table of the direction changes. *)
Theorem RemoveRange_first_page_unit (kPageSize : Z) (debug : bool)
    (direction : PointerDirection) (page : MemoryChunk.t) (start end_ : Z)
    (slot_set : list SlotSet.t) :
  0 < kPageSize < 2 ^ 31 →
  RememberedSet.GetSlotSet direction page = Some slot_set →
  slot_set ≠ [] →
  let start_offset := to_uintptr (start - MemoryChunk.address page) in
  let end_offset := to_uintptr (end_ - MemoryChunk.address page) in
  start_offset < end_offset →
  end_offset ≤ kPageSize →
  ∃ page' slot_set',
    RememberedSet.RemoveRange kPageSize debug direction page start end_
      = Some page' ∧
    page' = RememberedSet.store_slot_set direction page slot_set' ∧
    length slot_set' = length slot_set ∧
    ∀ offset,
      0 ≤ offset →
      slot_recorded kPageSize direction page' offset
      = slot_recorded kPageSize direction page offset
        && negb (bool_decide (start_offset ≤ offset < end_offset)).
Proof.
  intros Hsize Hget Hnonempty start_offset end_offset Hlt Hle.
  destruct slot_set as [| s rest]; [done |].
  pose proof (to_uintptr_nonneg (start - MemoryChunk.address page)) as Hstart.
  fold start_offset in Hstart.
  exists (RememberedSet.store_slot_set direction page
            (SlotSet.RemoveRange s start_offset end_offset :: rest)),
         (SlotSet.RemoveRange s start_offset end_offset :: rest).
  split.
  { unfold RememberedSet.RemoveRange. rewrite Hget. simpl.
    fold start_offset end_offset.
    rewrite to_uintptr_small by lia.
    unfold DCHECK. rewrite !bool_decide_eq_true_2 by done.
    rewrite andb_false_r. simpl.
    by rewrite !to_uint32_small by lia. }
  split; [done |]. split; [done |].
  intros offset Hoffset. unfold slot_recorded.
  rewrite GetSlotSet_store, Hget. unfold recorded_in.
  destruct (decide (offset < kPageSize)) as [Hfirst | Hlater].
  - rewrite Z.div_small by lia. rewrite Z.mod_small by lia. simpl.
    apply eq_true_iff_eq.
    rewrite andb_true_iff, negb_true_iff, bool_decide_eq_false,
      !bool_decide_eq_true.
    apply elem_of_SlotSet_RemoveRange.
  - assert (0 < offset `div` kPageSize) by (apply Z.div_str_pos; lia).
    destruct (Z.to_nat (offset `div` kPageSize)) as [| n] eqn:Hn; [lia |].
    simpl. rewrite (bool_decide_eq_false_2 (start_offset ≤ offset < end_offset))
      by lia.
    simpl. by rewrite andb_true_r.
Qed.

Lemma RemoveRange_first_page_unit_witness :
  ∃ page',
    RememberedSet.RemoveRange Example.kPageSize true OLD_TO_NEW
      (Example.recorded_chunk OLD_TO_NEW) (Example.base + 8)
      (Example.base + 64) = Some page' ∧
    slot_recorded Example.kPageSize OLD_TO_NEW page' 20 = false ∧
    slot_recorded Example.kPageSize OLD_TO_NEW page' (Example.kPageSize + 20)
      = true.
Proof.
  destruct (RemoveRange_first_page_unit Example.kPageSize true OLD_TO_NEW
              (Example.recorded_chunk OLD_TO_NEW) (Example.base + 8)
              (Example.base + 64)
              (default [] (RememberedSet.GetSlotSet OLD_TO_NEW
                             (Example.recorded_chunk OLD_TO_NEW))))
    as (page' & slot_set' & Hrun & _ & _ & Hrecorded);
    [done | reflexivity | by vm_compute | by vm_compute | by vm_compute |].
  exists page'. split; [exact Hrun |].
  split.
  - rewrite Hrecorded by done. by vm_compute.
  - rewrite Hrecorded by done. by vm_compute.
Defined.

(** C1, as stated, fails on a range that spans two page units. The chunk has
    two page units and the slots at the offsets 20 and [kPageSize + 20]
    recorded; the range runs from the offset 10 to [kPageSize + 30], within
    the chunk, and contains both. A checked build stops at
    [DCHECK_LE(end_offset, kPageSize)]; an unchecked build removes the slot of
    the first page unit and leaves the slot of the second recorded. *)
Lemma RemoveRange_across_page_units_counterexample :
  MemoryChunk.Contains (Example.recorded_chunk OLD_TO_NEW) Example.range_start
    = true ∧
  Example.range_start < Example.range_end
    ≤ Example.base + MemoryChunk.size (Example.recorded_chunk OLD_TO_NEW) ∧
  slot_recorded Example.kPageSize OLD_TO_NEW
    (Example.recorded_chunk OLD_TO_NEW) (Example.kPageSize + 20) = true ∧
  Example.range_start ≤ Example.base + (Example.kPageSize + 20)
    < Example.range_end ∧
  RememberedSet.RemoveRange Example.kPageSize true OLD_TO_NEW
    (Example.recorded_chunk OLD_TO_NEW) Example.range_start Example.range_end
    = None ∧
  ∃ page',
    RememberedSet.RemoveRange Example.kPageSize false OLD_TO_NEW
      (Example.recorded_chunk OLD_TO_NEW) Example.range_start Example.range_end
      = Some page' ∧
    slot_recorded Example.kPageSize OLD_TO_NEW page' 20 = false ∧
    slot_recorded Example.kPageSize OLD_TO_NEW page' (Example.kPageSize + 20)
      = true.
Proof.
  split; [by vm_compute |].
  split; [by vm_compute |].
  split; [by vm_compute |].
  split; [by vm_compute |].
  split; [by vm_compute |].
  eexists. split; [by vm_compute |].
  split; by vm_compute.
Qed.

(** ** Iteration *)

Section RunCallback.
Context {A S : Type}.
Variable callback : A → S → SlotCallbackResult * S.

Lemma run_callback_length (items : list A) (st : S) :
  length (run_callback callback items st).1 = length items.
Proof.
  revert st. induction items as [| a items IH]; intros st; simpl; [done |].
  by rewrite IH.
Qed.

Lemma run_callback_app (l1 l2 : list A) (st : S) :
  run_callback callback (l1 ++ l2) st
  = ((run_callback callback l1 st).1
       ++ (run_callback callback l2 (run_callback callback l1 st).2).1,
     (run_callback callback l2 (run_callback callback l1 st).2).2).
Proof.
  revert st. induction l1 as [| a l1 IH]; intros st; simpl.
  - by destruct (run_callback callback l2 st).
  - by rewrite IH.
Qed.

End RunCallback.

Lemma run_callback_fmap {A B S : Type} (f : A → B)
    (callback : B → S → SlotCallbackResult * S) (items : list A) (st : S) :
  run_callback callback (f <$> items) st
  = run_callback (λ a, callback (f a)) items st.
Proof.
  revert st. induction items as [| a items IH]; intros st; simpl; [done |].
  by rewrite IH.
Qed.

Lemma retained_app (l1 l2 : list SlotCallbackResult) :
  retained (l1 ++ l2) = retained l1 + retained l2.
Proof. unfold retained. rewrite filter_app, length_app. lia. Qed.

Lemma retained_nonneg (l : list SlotCallbackResult) : 0 ≤ retained l.
Proof. unfold retained. lia. Qed.

Lemma retained_all_keep (l : list SlotCallbackResult) :
  Forall (λ v, v = KEEP_SLOT) l → retained l = Z.of_nat (length l).
Proof.
  intros Hall. unfold retained. f_equal.
  induction Hall as [| v l Hv Hl IH]; [done |].
  rewrite filter_cons_True by done. simpl. by rewrite IH.
Qed.

Lemma with_verdict_nil {A : Type} v (verdicts : list SlotCallbackResult) :
  with_verdict v (@nil A) verdicts = [].
Proof. done. Qed.

Lemma with_verdict_cons {A : Type} v (a : A) items v' verdicts :
  with_verdict v (a :: items) (v' :: verdicts)
  = if decide (v' = v) then a :: with_verdict v items verdicts
    else with_verdict v items verdicts.
Proof.
  unfold with_verdict. simpl. rewrite filter_cons. simpl.
  by case_decide.
Qed.

Lemma with_verdict_subseteq {A : Type} v (items : list A) verdicts :
  with_verdict v items verdicts ⊆ items.
Proof.
  revert verdicts. induction items as [| a items IH]; intros [| v' verdicts];
    try apply list_subseteq_nil.
  rewrite with_verdict_cons. specialize (IH verdicts).
  intros x Hx. rewrite elem_of_cons.
  case_decide; [apply elem_of_cons in Hx as [-> | Hx] |]; auto.
Qed.

Lemma with_verdict_remove_all_keep {A : Type} (items : list A) verdicts :
  Forall (λ v, v = KEEP_SLOT) verdicts →
  with_verdict REMOVE_SLOT items verdicts = [].
Proof.
  intros Hall. revert items.
  induction Hall as [| v l Hv Hl IH]; intros [| a items]; try done.
  rewrite with_verdict_cons, IH. by case_decide; simplify_eq.
Qed.

Lemma length_with_verdict_keep {A : Type} (items : list A) verdicts :
  length items = length verdicts →
  Z.of_nat (length (with_verdict KEEP_SLOT items verdicts)) = retained verdicts.
Proof.
  revert verdicts. unfold retained.
  induction items as [| a items IH]; intros [| v verdicts] Hlen;
    simplify_eq/=; [done |].
  rewrite with_verdict_cons, filter_cons.
  specialize (IH verdicts Hlen).
  case_decide; simpl; lia.
Qed.

Lemma retained_cons (v : SlotCallbackResult) (l : list SlotCallbackResult) :
  retained (v :: l) = (if decide (v = KEEP_SLOT) then 1 else 0) + retained l.
Proof.
  unfold retained. rewrite filter_cons. case_decide; simpl; lia.
Qed.

Lemma offsets_NoDup (s : SlotSet.t) : NoDup (SlotSet.offsets s).
Proof.
  unfold SlotSet.offsets. rewrite merge_sort_Permutation.
  apply NoDup_elements.
Qed.

Lemma elem_of_offsets (s : SlotSet.t) (o : Z) :
  o ∈ SlotSet.offsets s ↔ o ∈ SlotSet.bits s.
Proof.
  unfold SlotSet.offsets. rewrite merge_sort_Permutation.
  apply elem_of_elements.
Qed.

Section SlotSetIterate.
Context {S : Type}.
Variable callback : Z → S → SlotCallbackResult * S.

Lemma visit_eq (start : Z) (b : gset Z) (n : Z) (st : S) (o : Z) :
  SlotSet.visit callback start (b, n, st) o
  = let r := callback (start + o) st in
    (if decide (r.1 = REMOVE_SLOT) then b ∖ {[ o ]} else b,
     n + (if decide (r.1 = KEEP_SLOT) then 1 else 0), r.2).
Proof.
  unfold SlotSet.visit.
  destruct (callback (start + o) st) as [[] st1]; simpl; [| by rewrite Z.add_0_r].
  done.
Qed.

(** The loop of [SlotSet::Iterate] in terms of the verdicts. *)
Lemma foldl_visit (start : Z) (l : list Z) (b : gset Z) (n : Z) (st : S) :
  foldl (SlotSet.visit callback start) (b, n, st) l
  = let r := run_callback callback ((λ o, start + o) <$> l) st in
    (b ∖ list_to_set (with_verdict REMOVE_SLOT l r.1), n + retained r.1, r.2).
Proof.
  revert b n st. induction l as [| o l IH]; intros b n st.
  { simpl. rewrite difference_empty_L. unfold retained. simpl.
    by rewrite Z.add_0_r. }
  cbn [foldl]. rewrite visit_eq. cbv zeta. rewrite IH.
  rewrite fmap_cons. cbn [run_callback]. cbv zeta. cbn [fst snd].
  rewrite with_verdict_cons, retained_cons.
  destruct (callback (start + o) st) as [[] st1]; cbn [fst snd];
    repeat case_decide; try done.
  - f_equal. f_equal. lia.
  - rewrite list_to_set_cons, difference_difference_l_L.
    f_equal. f_equal. lia.
Qed.

Lemma SlotSet_Iterate_spec (s : SlotSet.t) (st : S) :
  SlotSet.Iterate callback s st
  = let r := run_callback callback
               ((λ o, SlotSet.page_start s + o) <$> SlotSet.offsets s) st in
    (SlotSet.Build (SlotSet.page_start s)
       (SlotSet.bits s
          ∖ list_to_set (with_verdict REMOVE_SLOT (SlotSet.offsets s) r.1)),
     retained r.1, r.2).
Proof.
  unfold SlotSet.Iterate. rewrite foldl_visit. simpl.
  by rewrite Z.add_0_l.
Qed.

End SlotSetIterate.

Section IteratePages.
Context {S : Type}.
Variable callback : Z → S → SlotCallbackResult * S.

Lemma drained_cons (s : SlotSet.t) (rest : list SlotSet.t)
    (vs1 vs2 : list SlotCallbackResult) :
  length vs1 = length (SlotSet.offsets s) →
  drained (s :: rest) (vs1 ++ vs2)
  = SlotSet.Build (SlotSet.page_start s)
      (SlotSet.bits s
         ∖ list_to_set (with_verdict REMOVE_SLOT (SlotSet.offsets s) vs1))
      :: drained rest vs2.
Proof.
  intros Hlen. cbn [drained]. cbv zeta.
  by rewrite take_app_length', drop_app_length'.
Qed.

(** The loop over the page units, started at the page unit [length done], in
    terms of the verdicts. *)
Lemma iterate_pages_spec (rest done : list SlotSet.t) (n : Z) (st : S) :
  RememberedSet.iterate_pages callback (done ++ rest)
    (seq (length done) (length rest)) n st
  = let r := run_callback callback (slot_addresses rest) st in
    Some (done ++ drained rest r.1, n + retained r.1, r.2).
Proof.
  revert done n st. induction rest as [| s rest IH]; intros done n st.
  { simpl. unfold retained. simpl. by rewrite Z.add_0_r. }
  cbn [length seq RememberedSet.iterate_pages slot_addresses].
  rewrite list_lookup_middle by done. cbn [mbind option_bind].
  rewrite SlotSet_Iterate_spec. cbv beta iota zeta.
  rewrite insert_app_r_alt, Nat.sub_diag by done. cbn [insert list_insert].
  rewrite run_callback_app. cbn [fst snd].
  set (r1 := run_callback callback
               ((λ o, SlotSet.page_start s + o) <$> SlotSet.offsets s) st).
  rewrite drained_cons
    by (subst r1; by rewrite run_callback_length, length_fmap).
  rewrite (cons_middle _ done), app_assoc.
  replace (Datatypes.S (length done)) with (length (done ++
    [SlotSet.Build (SlotSet.page_start s)
       (SlotSet.bits s
          ∖ list_to_set (with_verdict REMOVE_SLOT (SlotSet.offsets s) r1.1))]))
    by (rewrite length_app; simpl; lia).
  rewrite IH. cbv zeta. rewrite retained_app.
  rewrite <- !app_assoc. simpl. do 3 f_equal. lia.
Qed.

End IteratePages.

(** ** The table an iteration leaves *)

Lemma NoDup_with_verdict {A : Type} v (items : list A) verdicts :
  NoDup items → NoDup (with_verdict v items verdicts).
Proof.
  intros Hitems. revert verdicts.
  induction Hitems as [| a items Ha Hitems IH]; intros [| v' verdicts];
    try apply NoDup_nil_2.
  rewrite with_verdict_cons. case_decide; [| apply IH].
  apply NoDup_cons. split; [| apply IH].
  intros Hin. by apply with_verdict_subseteq in Hin.
Qed.

(** Of items without duplicates, those kept are those not removed. *)
Lemma elem_of_with_verdict_keep {A : Type} (items : list A) verdicts (x : A) :
  NoDup items → length items = length verdicts →
  x ∈ with_verdict KEEP_SLOT items verdicts
  ↔ x ∈ items ∧ x ∉ with_verdict REMOVE_SLOT items verdicts.
Proof.
  intros Hitems. revert verdicts.
  induction Hitems as [| a items Ha Hitems IH]; intros [| v verdicts] Hlen;
    simplify_eq/=.
  { rewrite with_verdict_nil. split; [by intros ?%elem_of_nil |].
    by intros [?%elem_of_nil _]. }
  specialize (IH verdicts Hlen). rewrite !with_verdict_cons.
  pose proof (with_verdict_subseteq REMOVE_SLOT items verdicts) as Hsub.
  destruct v; repeat case_decide; try done; rewrite !elem_of_cons, ?IH.
  - split.
    + intros [-> | [Hx Hnot]]; [| by auto].
      split; [by left |]. intros Hin. by apply Hsub in Hin.
    + intros [[-> | Hx] Hnot]; auto.
  - split.
    + intros [Hx Hnot]. split; [by right |].
      intros [-> | Hin]; done.
    + intros [[-> | Hx] Hnot]; [| by auto]. destruct Hnot. by left.
Qed.

(** An entry meets a verdict if it is paired with it. *)
Lemma elem_of_zip_fmap_with_verdict {A B : Type} (f : A → B) `{!Inj (=) (=) f}
    v (items : list A) verdicts (x : A) :
  (f x, v) ∈ zip (f <$> items) verdicts ↔ x ∈ with_verdict v items verdicts.
Proof.
  revert verdicts. induction items as [| a items IH]; intros [| v' verdicts];
    simpl; try (rewrite ?with_verdict_nil; split; by intros ?%elem_of_nil).
  rewrite with_verdict_cons, elem_of_cons, IH.
  case_decide; [rewrite elem_of_cons |]; split.
  - intros [Heq | Hin]; [left | by right]. simplify_eq. done.
  - intros [-> | Hin]; [left | by right]. by subst.
  - intros [Heq | Hin]; [by simplify_eq | done].
  - by right.
Qed.

Lemma slot_entries_length (page : nat) (slots : list SlotSet.t) :
  length (slot_entries page slots) = length (slot_addresses slots).
Proof.
  revert page. induction slots as [| s rest IH]; intros page; simpl; [done |].
  by rewrite !length_app, !length_fmap, IH.
Qed.

(** The entries of a table that starts at [page] are of later page units. *)
Lemma slot_entries_page (page : nat) (slots : list SlotSet.t) (e : nat * Z) :
  e ∈ slot_entries page slots → (page ≤ e.1)%nat.
Proof.
  revert page. induction slots as [| s rest IH]; intros page; simpl.
  { by intros ?%elem_of_nil. }
  rewrite elem_of_app, list_elem_of_fmap.
  intros [(o & -> & _) | Hin]; [done |].
  apply IH in Hin. lia.
Qed.

Lemma drained_length (slots : list SlotSet.t) verdicts :
  length (drained slots verdicts) = length slots.
Proof.
  revert verdicts. induction slots as [| s rest IH]; intros verdicts; simpl;
    [done |].
  by rewrite IH.
Qed.

(** Nothing is removed when every verdict is KEEP. *)
Lemma drained_all_keep (slots : list SlotSet.t) verdicts :
  Forall (λ v, v = KEEP_SLOT) verdicts → drained slots verdicts = slots.
Proof.
  revert verdicts. induction slots as [| s rest IH]; intros verdicts Hall;
    simpl; [done |].
  rewrite with_verdict_remove_all_keep by by apply Forall_take.
  rewrite IH by by apply Forall_drop.
  simpl. rewrite difference_empty_L. by destruct s.
Qed.

(** What one slot set holds after its part of the visit. *)
Lemma elem_of_drained_bits (s : SlotSet.t) verdicts (o : Z) :
  length verdicts = length (SlotSet.offsets s) →
  o ∈ SlotSet.bits s
      ∖ list_to_set (with_verdict REMOVE_SLOT (SlotSet.offsets s) verdicts)
  ↔ o ∈ with_verdict KEEP_SLOT (SlotSet.offsets s) verdicts.
Proof.
  intros Hlen.
  rewrite elem_of_difference, elem_of_list_to_set, <- elem_of_offsets.
  symmetry. by apply elem_of_with_verdict_keep; [apply offsets_NoDup |].
Qed.

Lemma offsets_length_drained (s : SlotSet.t) verdicts :
  length verdicts = length (SlotSet.offsets s) →
  Z.of_nat (length (SlotSet.offsets
    (SlotSet.Build (SlotSet.page_start s)
       (SlotSet.bits s
          ∖ list_to_set (with_verdict REMOVE_SLOT (SlotSet.offsets s)
                           verdicts)))))
  = retained verdicts.
Proof.
  intros Hlen.
  rewrite <- (length_with_verdict_keep (SlotSet.offsets s)) by done.
  f_equal. unfold SlotSet.offsets at 1. simpl.
  rewrite merge_sort_Permutation.
  replace (SlotSet.bits s
             ∖ list_to_set (with_verdict REMOVE_SLOT (SlotSet.offsets s)
                              verdicts))
    with (list_to_set (C:=gset Z)
            (with_verdict KEEP_SLOT (SlotSet.offsets s) verdicts)).
  - apply (size_list_to_set (C:=gset Z)).
    apply NoDup_with_verdict, offsets_NoDup.
  - apply set_eq. intros o.
    by rewrite elem_of_list_to_set, elem_of_drained_bits.
Qed.

(** The retained count is the number of slots left. *)
Lemma total_slots_drained (slots : list SlotSet.t) verdicts :
  length verdicts = length (slot_addresses slots) →
  total_slots (drained slots verdicts) = retained verdicts.
Proof.
  unfold total_slots.
  revert verdicts. induction slots as [| s rest IH]; intros verdicts Hlen;
    simpl in *.
  { by destruct verdicts. }
  rewrite length_app, length_fmap in Hlen.
  rewrite length_app, length_fmap, Nat2Z.inj_add.
  rewrite <- (take_drop (length (SlotSet.offsets s)) verdicts) at 3.
  rewrite retained_app.
  rewrite offsets_length_drained by (rewrite length_take; lia).
  rewrite IH by (rewrite length_drop; lia).
  done.
Qed.

(** The slots left are those that met a KEEP verdict. *)
Lemma drained_entries (slots : list SlotSet.t) (page : nat) verdicts
    (j : nat) (o : Z) :
  length verdicts = length (slot_addresses slots) →
  (∃ s, drained slots verdicts !! j = Some s ∧ o ∈ SlotSet.bits s)
  ↔ ((page + j)%nat, o, KEEP_SLOT) ∈ zip (slot_entries page slots) verdicts.
Proof.
  revert page verdicts j.
  induction slots as [| s rest IH]; intros page verdicts j Hlen; simpl in *.
  { split; [| by intros ?%elem_of_nil].
    intros (s & Hs & _). by rewrite lookup_nil in Hs. }
  rewrite length_app, length_fmap in Hlen.
  set (n := length (SlotSet.offsets s)) in *.
  replace (zip (((λ o, (page, o)) <$> SlotSet.offsets s)
                  ++ slot_entries (Datatypes.S page) rest) verdicts)
    with (zip (((λ o, (page, o)) <$> SlotSet.offsets s)
                 ++ slot_entries (Datatypes.S page) rest)
              (take n verdicts ++ drop n verdicts))
    by (by rewrite take_drop).
  rewrite zip_with_app by (rewrite length_fmap, length_take; lia).
  rewrite elem_of_app.
  assert (Htake : length (take n verdicts) = n) by (rewrite length_take; lia).
  assert (Hdrop : length (drop n verdicts) = length (slot_addresses rest))
    by (rewrite length_drop; lia).
  destruct j as [| j]; simpl.
  - rewrite Nat.add_0_r. split.
    + intros (s' & [= <-] & Ho). left. simpl in Ho.
      apply (elem_of_zip_fmap_with_verdict (λ o, (page, o))).
      by apply elem_of_drained_bits.
    + intros [Hin | Hin].
      * eexists. split; [done |]. simpl.
        apply elem_of_drained_bits; [done |].
        by apply (elem_of_zip_fmap_with_verdict (λ o, (page, o))) in Hin.
      * apply elem_of_zip_l, slot_entries_page in Hin. simpl in Hin. lia.
  - rewrite (IH (Datatypes.S page) (drop n verdicts) j Hdrop).
    replace (page + Datatypes.S j)%nat with (Datatypes.S page + j)%nat by lia.
    split; [by right |].
    intros [Hin | Hin]; [| done].
    apply elem_of_zip_l, list_elem_of_fmap in Hin as (o' & Heq & _).
    simplify_eq. lia.
Qed.

(** [TypedSlotSet::Iterate] in terms of the verdicts. *)
Lemma iterate_slots_spec {S : Type}
    (callback : SlotType → Z → Z → S → SlotCallbackResult * S)
    (start : Z) (l : list TypedSlotSet.TypedSlot) (st : S) :
  TypedSlotSet.iterate_slots callback start l st
  = let r := run_callback (typed_call callback start) l st in
    (with_verdict KEEP_SLOT l r.1, retained r.1, r.2).
Proof.
  revert st. induction l as [| e l IH]; intros st; [done |].
  cbn [TypedSlotSet.iterate_slots run_callback]. cbv zeta. cbn [fst snd].
  rewrite with_verdict_cons, retained_cons.
  change (callback (TypedSlotSet.type e) (start + TypedSlotSet.host_offset e)
            (start + TypedSlotSet.offset e) st)
    with (typed_call callback start e st).
  destruct (typed_call callback start e st) as [[] st1]; cbn [fst snd];
    rewrite IH; cbv zeta; case_decide; try done.
  cbv beta iota. f_equal. f_equal. lia.
Qed.

(** The chunk after a store or a release, field by field. *)
Lemma store_slot_set_tables direction chunk slot_set :
  RememberedSet.store_slot_set direction chunk slot_set
  = set_tables direction chunk (Some slot_set)
      (RememberedSet.GetTypedSlotSet direction chunk).
Proof. by destruct direction. Qed.

Lemma ReleaseSlotSet_tables direction chunk :
  RememberedSet.ReleaseSlotSet direction chunk
  = set_tables direction chunk None
      (RememberedSet.GetTypedSlotSet direction chunk).
Proof. by destruct direction. Qed.

Lemma store_typed_slot_set_tables direction chunk slot_set :
  RememberedSet.store_typed_slot_set direction chunk slot_set
  = set_tables direction chunk (RememberedSet.GetSlotSet direction chunk)
      (Some slot_set).
Proof. by destruct direction. Qed.

Lemma ReleaseTypedSlotSet_tables direction chunk :
  RememberedSet.ReleaseTypedSlotSet direction chunk
  = set_tables direction chunk (RememberedSet.GetSlotSet direction chunk) None.
Proof. by destruct direction. Qed.

Lemma set_tables_same direction chunk :
  set_tables direction chunk (RememberedSet.GetSlotSet direction chunk)
    (RememberedSet.GetTypedSlotSet direction chunk) = chunk.
Proof. by destruct direction, chunk. Qed.

(** The per-chunk [Iterate] in terms of the verdicts. *)
Lemma IterateChunk_spec {S : Type} (kPageSize : Z) direction
    (callback : Z → S → SlotCallbackResult * S)
    (chunk : MemoryChunk.t) (slots : list SlotSet.t) (st : S) :
  RememberedSet.GetSlotSet direction chunk = Some slots →
  length slots = Z.to_nat (MemoryChunk.pages kPageSize chunk) →
  let run := run_callback callback (slot_addresses slots) st in
  RememberedSet.IterateChunk kPageSize direction callback chunk st
  = Some (set_tables direction chunk
            (if decide (retained run.1 = 0) then None
             else Some (drained slots run.1))
            (RememberedSet.GetTypedSlotSet direction chunk),
          run.2).
Proof.
  intros Hget Hlen run. unfold RememberedSet.IterateChunk.
  rewrite Hget, <- Hlen.
  pose proof (iterate_pages_spec callback slots [] 0 st) as Hloop.
  simpl in Hloop. rewrite Hloop. fold run. simpl.
  case_bool_decide; case_decide; try done.
  - by rewrite ReleaseSlotSet_tables; destruct direction.
  - by rewrite store_slot_set_tables.
Qed.

(** The per-chunk [IterateTyped] in terms of the verdicts. *)
Lemma IterateTypedChunk_spec {S : Type} direction
    (callback : SlotType → Z → Z → S → SlotCallbackResult * S)
    (chunk : MemoryChunk.t) (typed : TypedSlotSet.t) (st : S) :
  RememberedSet.GetTypedSlotSet direction chunk = Some typed →
  let run := run_callback (typed_call callback (TypedSlotSet.page_start typed))
               (TypedSlotSet.slots typed) st in
  RememberedSet.IterateTypedChunk direction callback chunk st
  = Some (set_tables direction chunk
            (RememberedSet.GetSlotSet direction chunk)
            (if decide (retained run.1 = 0) then None
             else Some (TypedSlotSet.Build (TypedSlotSet.page_start typed)
                          (with_verdict KEEP_SLOT (TypedSlotSet.slots typed)
                             run.1))),
          run.2).
Proof.
  intros Hget run. unfold RememberedSet.IterateTypedChunk, TypedSlotSet.Iterate.
  rewrite Hget, iterate_slots_spec. cbv zeta. fold run. cbv beta iota.
  case_bool_decide; case_decide; try done.
  - by rewrite ReleaseTypedSlotSet_tables; destruct direction.
  - by rewrite store_typed_slot_set_tables.
Qed.

(** C4, as the code has it. The per-chunk [Iterate] on a chunk with a slot
    table invokes the callback on the slots of all page units, page unit by
    page unit, and hands back the state the callback leaves. The count it
    sums over the page units is the number of KEEP verdicts, which is the
    number of slots the table holds afterwards; the slots it holds afterwards
    are those that met a KEEP verdict. The slot table of the direction is
    released exactly when that count is zero, and nothing else of the chunk
    changes. When every verdict is KEEP and the table holds at least one
    slot, the chunk is left as it was. [IterateTyped] does the same on the
    typed slot table. *)
Theorem Iterate_releases_when_drained {S : Type} (kPageSize : Z)
    (direction : PointerDirection) (chunk : MemoryChunk.t) (st : S) :
  (∀ (callback : Z → S → SlotCallbackResult * S) (slots : list SlotSet.t),
     RememberedSet.GetSlotSet direction chunk = Some slots →
     length slots = Z.to_nat (MemoryChunk.pages kPageSize chunk) →
     let run := run_callback callback (slot_addresses slots) st in
     let slots' := drained slots run.1 in
     RememberedSet.IterateChunk kPageSize direction callback chunk st
       = Some (set_tables direction chunk
                 (if decide (retained run.1 = 0) then None else Some slots')
                 (RememberedSet.GetTypedSlotSet direction chunk),
               run.2) ∧
     total_slots slots' = retained run.1 ∧
     (∀ e, entry_recorded slots' e
           ↔ (e, KEEP_SLOT) ∈ zip (slot_entries 0 slots) run.1) ∧
     (Forall (λ v, v = KEEP_SLOT) run.1 → 0 < total_slots slots →
      RememberedSet.IterateChunk kPageSize direction callback chunk st
        = Some (chunk, run.2))) ∧
  (∀ (callback : SlotType → Z → Z → S → SlotCallbackResult * S)
     (typed : TypedSlotSet.t),
     RememberedSet.GetTypedSlotSet direction chunk = Some typed →
     let run := run_callback
                  (typed_call callback (TypedSlotSet.page_start typed))
                  (TypedSlotSet.slots typed) st in
     let kept := with_verdict KEEP_SLOT (TypedSlotSet.slots typed) run.1 in
     RememberedSet.IterateTypedChunk direction callback chunk st
       = Some (set_tables direction chunk
                 (RememberedSet.GetSlotSet direction chunk)
                 (if decide (retained run.1 = 0) then None
                  else Some (TypedSlotSet.Build
                               (TypedSlotSet.page_start typed) kept)),
               run.2) ∧
     Z.of_nat (length kept) = retained run.1 ∧
     (Forall (λ v, v = KEEP_SLOT) run.1 → TypedSlotSet.slots typed ≠ [] →
      RememberedSet.IterateTypedChunk direction callback chunk st
        = Some (chunk, run.2))).
Proof.
  split.
  - intros callback slots Hget Hlen run slots'.
    assert (Hverdicts : length run.1 = length (slot_addresses slots))
      by apply run_callback_length.
    split; [by apply IterateChunk_spec |].
    split; [by apply total_slots_drained |].
    split.
    + intros [j o].
      by apply (drained_entries slots 0 run.1 j o).
    + intros Hall Hsome.
      rewrite (IterateChunk_spec kPageSize direction callback chunk slots st)
        by done.
      fold run. rewrite decide_False.
      * rewrite drained_all_keep, <- Hget by done.
        by rewrite set_tables_same.
      * rewrite retained_all_keep, Hverdicts by done.
        unfold total_slots in Hsome. lia.
  - intros callback typed Hget run kept.
    assert (Hverdicts : length run.1 = length (TypedSlotSet.slots typed))
      by apply run_callback_length.
    split; [by apply IterateTypedChunk_spec |].
    split; [by apply length_with_verdict_keep |].
    intros Hall Hsome.
    rewrite (IterateTypedChunk_spec direction callback chunk typed st) by done.
    fold run. rewrite decide_False.
    + replace (with_verdict KEEP_SLOT (TypedSlotSet.slots typed) run.1)
        with (TypedSlotSet.slots typed).
      * replace (TypedSlotSet.Build (TypedSlotSet.page_start typed)
                   (TypedSlotSet.slots typed)) with typed by by destruct typed.
        by rewrite <- Hget, set_tables_same.
      * clear -Hall Hverdicts. revert Hall Hverdicts.
        generalize run.1 as verdicts.
        induction (TypedSlotSet.slots typed) as [| e l IH];
          intros [| v verdicts] Hall Hlen; simplify_eq/=; [done |].
        apply Forall_cons in Hall as [-> Hall].
        rewrite with_verdict_cons, decide_True by done.
        by rewrite <- IH.
    + rewrite retained_all_keep, Hverdicts by done.
      destruct (TypedSlotSet.slots typed); [done | simpl; lia].
Qed.

Lemma Iterate_releases_when_drained_witness :
  RememberedSet.IterateChunk Example.kPageSize OLD_TO_NEW Example.keep_all
    (Example.recorded_chunk OLD_TO_NEW) []
  = Some (Example.recorded_chunk OLD_TO_NEW,
          [Example.base + 20; Example.base + Example.kPageSize + 20]) ∧
  RememberedSet.IterateChunk Example.kPageSize OLD_TO_NEW Example.remove_all
    (Example.recorded_chunk OLD_TO_NEW) []
  = Some (Example.empty_chunk,
          [Example.base + 20; Example.base + Example.kPageSize + 20]).
Proof.
  split.
  - refine (proj2 (proj2 (proj2 (proj1
      (Iterate_releases_when_drained Example.kPageSize OLD_TO_NEW
         (Example.recorded_chunk OLD_TO_NEW) [])
      Example.keep_all
      (default [] (RememberedSet.GetSlotSet OLD_TO_NEW
                     (Example.recorded_chunk OLD_TO_NEW)))
      eq_refl _))) _ _).
    + by vm_compute.
    + vm_compute. repeat constructor.
    + by vm_compute.
  - refine (proj1 (proj1
      (Iterate_releases_when_drained Example.kPageSize OLD_TO_NEW
         (Example.recorded_chunk OLD_TO_NEW) [])
      Example.remove_all
      (default [] (RememberedSet.GetSlotSet OLD_TO_NEW
                     (Example.recorded_chunk OLD_TO_NEW)))
      eq_refl _)).
    by vm_compute.
Defined.

(** C4, as stated, fails on a table that is attached and holds nothing: the
    callback returns KEEP for every slot, the retained count is zero and the
    table is released. The same holds for a typed table that holds
    nothing. *)
Lemma Iterate_keep_all_empty_table_counterexample :
  RememberedSet.GetSlotSet OLD_TO_NEW (Example.emptied_chunk OLD_TO_NEW)
    = Some (MemoryChunk.new_slot_set_array Example.kPageSize
              Example.empty_chunk) ∧
  (∀ addr st, (Example.keep_all addr st).1 = KEEP_SLOT) ∧
  RememberedSet.IterateChunk Example.kPageSize OLD_TO_NEW Example.keep_all
    (Example.emptied_chunk OLD_TO_NEW) []
  = Some (Example.empty_chunk, []) ∧
  RememberedSet.GetSlotSet OLD_TO_NEW Example.empty_chunk = None ∧
  RememberedSet.GetTypedSlotSet OLD_TO_NEW
    (Example.emptied_typed_chunk OLD_TO_NEW)
    = Some (TypedSlotSet.Build Example.base []) ∧
  RememberedSet.IterateTypedChunk OLD_TO_NEW Example.keep_all_typed
    (Example.emptied_typed_chunk OLD_TO_NEW) []
  = Some (Example.empty_chunk, []).
Proof.
  split; [by vm_compute |].
  split; [done |].
  split; [by vm_compute |].
  split; [done |].
  split; by vm_compute.
Qed.

(** ** The shape of a slot table *)

(** A fresh slot table has one slot set per page unit of the chunk. *)
Lemma new_slot_set_array_length (kPageSize : Z) (chunk : MemoryChunk.t) :
  length (MemoryChunk.new_slot_set_array kPageSize chunk)
  = Z.to_nat (MemoryChunk.pages kPageSize chunk).
Proof.
  unfold MemoryChunk.new_slot_set_array.
  by rewrite length_fmap, length_seq.
Qed.

(** [Insert] attaches such a table or keeps the shape of the one it finds, so
    the table of a chunk filled by the write barrier has one slot set per page
    unit, as the per-chunk [Iterate] expects. *)
Lemma Insert_table_length (kPageSize : Z) (debug : bool)
    (direction : PointerDirection) (page page' : MemoryChunk.t) (slot_addr : Z) :
  (∀ slots, RememberedSet.GetSlotSet direction page = Some slots →
            length slots = Z.to_nat (MemoryChunk.pages kPageSize page)) →
  RememberedSet.Insert kPageSize debug direction page slot_addr = Some page' →
  ∃ slots,
    RememberedSet.GetSlotSet direction page' = Some slots ∧
    length slots = Z.to_nat (MemoryChunk.pages kPageSize page').
Proof.
  intros Hshape. unfold RememberedSet.Insert.
  destruct (DCHECK debug _) as [[] |]; simpl; [| done].
  destruct (RememberedSet.GetSlotSet direction page) as [slots |] eqn:Hget;
    simpl.
  - destruct (slots !! _) as [s |]; simpl; [| done].
    intros [= <-]. eexists. split; [apply GetSlotSet_store |].
    rewrite length_insert, (Hshape slots) by done.
    by destruct direction.
  - pose proof (new_slot_set_array_length kPageSize page) as Hlen.
    destruct direction, page; unfold_accessors;
      (destruct (_ !! _) as [s |]; simpl; [| done]);
      intros [= <-]; eexists; (split; [done |]);
      by rewrite length_insert, length_fmap, length_seq.
Qed.

(** A slot the chunk contains belongs to one of its page units, so its slot
    set exists in a table of that shape. *)
Lemma Contains_page_unit (kPageSize : Z) (chunk : MemoryChunk.t) (slot_addr : Z) :
  0 < kPageSize →
  MemoryChunk.size chunk + kPageSize ≤ 2 ^ 64 →
  MemoryChunk.Contains chunk slot_addr = true →
  (Z.to_nat (to_uintptr (slot_addr - MemoryChunk.address chunk) / kPageSize)
   < Z.to_nat (MemoryChunk.pages kPageSize chunk))%nat.
Proof.
  intros Hpage Hsize Hin. unfold MemoryChunk.Contains in Hin.
  apply bool_decide_eq_true in Hin. unfold MemoryChunk.pages.
  rewrite !to_uintptr_small by lia.
  set (offset := slot_addr - MemoryChunk.address chunk).
  assert (Hle : offset / kPageSize ≤ (MemoryChunk.size chunk - 1) / kPageSize)
    by (apply Z.div_le_mono; lia).
  replace (MemoryChunk.size chunk + kPageSize - 1)
    with (MemoryChunk.size chunk - 1 + 1 * kPageSize) by lia.
  rewrite Z.div_add by lia.
  assert (0 ≤ offset / kPageSize) by (apply Z.div_pos; lia).
  lia.
Qed.

(** * Further properties of the remembered set *)

(** ** Insert and Remove *)

(** Two offsets are the same when they agree on page unit and on offset
    within it. *)
Lemma offset_eq_div_mod (k x y : Z) :
  0 < k → 0 ≤ x → 0 ≤ y →
  x = y ↔ Z.to_nat (x / k) = Z.to_nat (y / k) ∧ x `mod` k = y `mod` k.
Proof.
  intros Hk Hx Hy. split; [by intros -> |]. intros [Hdiv Hmod].
  assert (0 ≤ x / k) by (apply Z.div_pos; lia).
  assert (0 ≤ y / k) by (apply Z.div_pos; lia).
  rewrite (Z.div_mod x k), (Z.div_mod y k) by lia.
  rewrite Hmod. f_equal. f_equal. lia.
Qed.

(** The slots of a table after an insertion into the slot set of the page
    unit of [offset]. *)
Lemma recorded_in_insert (k : Z) (slots : list SlotSet.t) (s : SlotSet.t)
    (offset x : Z) :
  0 < k → 0 ≤ offset → 0 ≤ x →
  slots !! Z.to_nat (offset / k) = Some s →
  recorded_in k
    (<[Z.to_nat (offset / k) := SlotSet.Insert s (offset `mod` k)]> slots) x
  = recorded_in k slots x || bool_decide (x = offset).
Proof.
  intros Hk Hoffset Hx Hs. unfold recorded_in.
  pose proof (lookup_lt_Some _ _ _ Hs) as Hlt.
  destruct (decide (Z.to_nat (x / k) = Z.to_nat (offset / k))) as [Heq | Hne].
  - rewrite Heq, list_lookup_insert_eq, Hs by done. simpl.
    apply eq_true_iff_eq.
    rewrite orb_true_iff, !bool_decide_eq_true, elem_of_union,
      elem_of_singleton, (offset_eq_div_mod k x offset) by done.
    tauto.
  - rewrite list_lookup_insert_ne by done.
    rewrite (bool_decide_eq_false_2 (x = offset)), orb_false_r; [done |].
    by intros ->.
Qed.

(** The same after a removal. *)
Lemma recorded_in_remove (k : Z) (slots : list SlotSet.t) (s : SlotSet.t)
    (offset x : Z) :
  0 < k → 0 ≤ offset → 0 ≤ x →
  slots !! Z.to_nat (offset / k) = Some s →
  recorded_in k
    (<[Z.to_nat (offset / k) := SlotSet.Remove s (offset `mod` k)]> slots) x
  = recorded_in k slots x && negb (bool_decide (x = offset)).
Proof.
  intros Hk Hoffset Hx Hs. unfold recorded_in.
  pose proof (lookup_lt_Some _ _ _ Hs) as Hlt.
  destruct (decide (Z.to_nat (x / k) = Z.to_nat (offset / k))) as [Heq | Hne].
  - rewrite Heq, list_lookup_insert_eq, Hs by done. simpl.
    apply eq_true_iff_eq.
    rewrite andb_true_iff, negb_true_iff, bool_decide_eq_false,
      !bool_decide_eq_true, elem_of_difference, elem_of_singleton,
      (offset_eq_div_mod k x offset) by done.
    tauto.
  - rewrite list_lookup_insert_ne by done.
    rewrite (bool_decide_eq_false_2 (x = offset)), andb_true_r; [done |].
    by intros ->.
Qed.

(** A fresh table holds no slot. *)
Lemma recorded_in_new (k : Z) (chunk : MemoryChunk.t) (x : Z) :
  recorded_in k (MemoryChunk.new_slot_set_array k chunk) x = false.
Proof.
  unfold recorded_in, MemoryChunk.new_slot_set_array.
  rewrite list_lookup_fmap.
  destruct (seq _ _ !! _); simpl; [| done].
  by apply bool_decide_eq_false_2.
Qed.

(** [Insert] in terms of the table it works on: the one attached, or a fresh
    one. *)
Lemma Insert_eq (kPageSize : Z) (debug : bool) (direction : PointerDirection)
    (page : MemoryChunk.t) (slot_addr : Z) :
  let table := default (MemoryChunk.new_slot_set_array kPageSize page)
                       (RememberedSet.GetSlotSet direction page) in
  let offset := to_uintptr (slot_addr - MemoryChunk.address page) in
  let index := Z.to_nat (offset / kPageSize) in
  RememberedSet.Insert kPageSize debug direction page slot_addr
  = _ ← DCHECK debug (MemoryChunk.Contains page slot_addr);
    s ← table !! index;
    Some (RememberedSet.store_slot_set direction page
            (<[index := SlotSet.Insert s (offset `mod` kPageSize)]> table)).
Proof.
  intros table offset index. subst table offset index.
  unfold RememberedSet.Insert.
  destruct (DCHECK debug _) as [[] |]; simpl; [| done].
  destruct (RememberedSet.GetSlotSet direction page) as [slots |] eqn:Hget;
    simpl; [done |].
  destruct direction, page; unfold_accessors;
    by (destruct (_ !! _) as [s |]).
Qed.

(** X1. The write barrier's [Insert] records the slot. On a page that
    contains the slot and whose slot table, if attached, has one slot set per
    page unit, [Insert] succeeds, attaching a fresh table if there was none.
    Afterwards the slot is recorded, every other slot is recorded exactly if
    it was before, and the typed slot table is the one the page had. *)
Theorem Insert_records (kPageSize : Z) (debug : bool)
    (direction : PointerDirection) (page : MemoryChunk.t) (slot_addr : Z) :
  0 < kPageSize →
  MemoryChunk.size page + kPageSize ≤ 2 ^ 64 →
  (∀ slots, RememberedSet.GetSlotSet direction page = Some slots →
            length slots = Z.to_nat (MemoryChunk.pages kPageSize page)) →
  MemoryChunk.Contains page slot_addr = true →
  let offset := slot_addr - MemoryChunk.address page in
  ∃ page',
    RememberedSet.Insert kPageSize debug direction page slot_addr = Some page' ∧
    is_Some (RememberedSet.GetSlotSet direction page') ∧
    RememberedSet.GetTypedSlotSet direction page'
      = RememberedSet.GetTypedSlotSet direction page ∧
    slot_recorded kPageSize direction page' offset = true ∧
    ∀ x, 0 ≤ x → x ≠ offset →
         slot_recorded kPageSize direction page' x
         = slot_recorded kPageSize direction page x.
Proof.
  intros Hk Hsize Hshape Hin offset.
  pose proof (Contains_page_unit kPageSize page slot_addr Hk Hsize Hin) as Hindex.
  pose proof Hin as Hrange. unfold MemoryChunk.Contains in Hrange.
  apply bool_decide_eq_true in Hrange.
  assert (Hoffset : to_uintptr (slot_addr - MemoryChunk.address page) = offset)
    by (apply to_uintptr_small; subst offset; lia).
  rewrite Hoffset in Hindex.
  set (table := default (MemoryChunk.new_slot_set_array kPageSize page)
                        (RememberedSet.GetSlotSet direction page)).
  assert (Hlen : length table = Z.to_nat (MemoryChunk.pages kPageSize page)).
  { subst table.
    destruct (RememberedSet.GetSlotSet direction page) as [slots |] eqn:Hget;
      simpl; [by apply Hshape | apply new_slot_set_array_length]. }
  assert (Hbefore : ∀ x, recorded_in kPageSize table x
                         = slot_recorded kPageSize direction page x).
  { intros x. subst table. unfold slot_recorded.
    destruct (RememberedSet.GetSlotSet direction page); simpl; [done |].
    apply recorded_in_new. }
  destruct (lookup_lt_is_Some_2 table (Z.to_nat (offset / kPageSize)))
    as [s Hs]; [lia |].
  eexists. split.
  { rewrite Insert_eq, Hoffset. fold table. unfold DCHECK.
    rewrite Hin, andb_false_r. simpl. rewrite Hs. simpl. reflexivity. }
  split; [rewrite GetSlotSet_store; by eexists |].
  split; [by destruct direction |].
  unfold slot_recorded at 1 2. rewrite GetSlotSet_store.
  split.
  - rewrite recorded_in_insert by (done || subst offset; lia).
    by rewrite (bool_decide_eq_true_2 (offset = offset)), orb_true_r.
  - intros x Hx Hne.
    rewrite recorded_in_insert by (done || subst offset; lia).
    by rewrite (bool_decide_eq_false_2 (x = offset)), orb_false_r, Hbefore.
Qed.

Lemma Insert_records_witness :
  ∃ page',
    RememberedSet.Insert Example.kPageSize true OLD_TO_NEW Example.empty_chunk
      (Example.base + Example.kPageSize + 20) = Some page' ∧
    slot_recorded Example.kPageSize OLD_TO_NEW page' (Example.kPageSize + 20)
      = true.
Proof.
  destruct (Insert_records Example.kPageSize true OLD_TO_NEW
              Example.empty_chunk (Example.base + Example.kPageSize + 20))
    as (page' & Hrun & _ & _ & Hrecorded & _);
    [done | by vm_compute | by intros slots [=] | by vm_compute |].
  exists page'. split; [exact Hrun | exact Hrecorded].
Defined.

Lemma SlotSet_Insert_Insert (s : SlotSet.t) (o : Z) :
  SlotSet.Insert (SlotSet.Insert s o) o = SlotSet.Insert s o.
Proof.
  unfold SlotSet.Insert. simpl. f_equal.
  apply set_eq. intros x. rewrite !elem_of_union. tauto.
Qed.

Lemma SlotSet_Remove_Insert (s : SlotSet.t) (o : Z) :
  o ∉ SlotSet.bits s → SlotSet.Remove (SlotSet.Insert s o) o = s.
Proof.
  intros Hfresh. destruct s as [start b]. unfold SlotSet.Remove, SlotSet.Insert.
  simpl in *. f_equal. apply set_eq. intros x.
  rewrite elem_of_difference, elem_of_union, elem_of_singleton.
  split; [tauto |]. intros Hx. split; [by right |]. by intros ->.
Qed.

Lemma store_slot_set_store direction chunk slots1 slots2 :
  RememberedSet.store_slot_set direction
    (RememberedSet.store_slot_set direction chunk slots1) slots2
  = RememberedSet.store_slot_set direction chunk slots2.
Proof. by destruct direction. Qed.

(** [Remove] on a page with a slot table. *)
Lemma Remove_eq (kPageSize : Z) (debug : bool) (direction : PointerDirection)
    (page : MemoryChunk.t) (slot_addr : Z) (slots : list SlotSet.t) :
  RememberedSet.GetSlotSet direction page = Some slots →
  let offset := to_uintptr (slot_addr - MemoryChunk.address page) in
  let index := Z.to_nat (offset / kPageSize) in
  RememberedSet.Remove kPageSize debug direction page slot_addr
  = _ ← DCHECK debug (MemoryChunk.Contains page slot_addr);
    s ← slots !! index;
    Some (RememberedSet.store_slot_set direction page
            (<[index := SlotSet.Remove s (offset `mod` kPageSize)]> slots)).
Proof. intros Hget. unfold RememberedSet.Remove. by rewrite Hget. Qed.

(** X2. [Insert] is idempotent: once a slot was inserted, inserting it again
    returns the chunk as it is. *)
Theorem Insert_idempotent (kPageSize : Z) (debug : bool)
    (direction : PointerDirection) (page page' : MemoryChunk.t)
    (slot_addr : Z) :
  RememberedSet.Insert kPageSize debug direction page slot_addr = Some page' →
  RememberedSet.Insert kPageSize debug direction page' slot_addr = Some page'.
Proof.
  rewrite !Insert_eq.
  destruct (DCHECK debug (MemoryChunk.Contains page slot_addr))
    as [[] |] eqn:Hcheck; simpl; [| done].
  set (table := default _ (RememberedSet.GetSlotSet direction page)).
  set (offset := to_uintptr (slot_addr - MemoryChunk.address page)).
  destruct (table !! Z.to_nat (offset / kPageSize)) as [s |] eqn:Hs; simpl;
    [| done].
  intros [= <-].
  assert (Haddress : MemoryChunk.address
            (RememberedSet.store_slot_set direction page
               (<[Z.to_nat (offset / kPageSize) :=
                    SlotSet.Insert s (offset `mod` kPageSize)]> table))
          = MemoryChunk.address page) by by destruct direction.
  assert (Hcontains : MemoryChunk.Contains
            (RememberedSet.store_slot_set direction page
               (<[Z.to_nat (offset / kPageSize) :=
                    SlotSet.Insert s (offset `mod` kPageSize)]> table))
            slot_addr
          = MemoryChunk.Contains page slot_addr) by by destruct direction.
  rewrite Hcontains, Hcheck, GetSlotSet_store, Haddress. simpl. fold offset.
  rewrite list_lookup_insert_eq by by eapply lookup_lt_Some.
  simpl. by rewrite SlotSet_Insert_Insert, list_insert_insert_eq,
    store_slot_set_store.
Qed.

Lemma Insert_idempotent_witness :
  RememberedSet.Insert Example.kPageSize true OLD_TO_NEW
    (Example.recorded_chunk OLD_TO_NEW) (Example.base + Example.kPageSize + 20)
  = Some (Example.recorded_chunk OLD_TO_NEW).
Proof.
  apply (Insert_idempotent Example.kPageSize true OLD_TO_NEW
           (default Example.empty_chunk
              (RememberedSet.Insert Example.kPageSize true OLD_TO_NEW
                 Example.empty_chunk (Example.base + 20)))).
  by vm_compute.
Defined.

(** X3. [Remove] takes out the given slot and nothing else, and keeps the
    table. On a page with a slot table that contains the slot, [Remove]
    succeeds; afterwards the slot is not recorded, every other slot is
    recorded exactly if it was before, and the slot table is still attached,
    also when it holds no slot any more. *)
Theorem Remove_removes_slot (kPageSize : Z) (debug : bool)
    (direction : PointerDirection) (page : MemoryChunk.t) (slot_addr : Z)
    (slots : list SlotSet.t) :
  0 < kPageSize →
  MemoryChunk.size page + kPageSize ≤ 2 ^ 64 →
  RememberedSet.GetSlotSet direction page = Some slots →
  length slots = Z.to_nat (MemoryChunk.pages kPageSize page) →
  MemoryChunk.Contains page slot_addr = true →
  let offset := slot_addr - MemoryChunk.address page in
  ∃ page' slots',
    RememberedSet.Remove kPageSize debug direction page slot_addr = Some page' ∧
    RememberedSet.GetSlotSet direction page' = Some slots' ∧
    length slots' = length slots ∧
    RememberedSet.GetTypedSlotSet direction page'
      = RememberedSet.GetTypedSlotSet direction page ∧
    ∀ x, 0 ≤ x →
         slot_recorded kPageSize direction page' x
         = slot_recorded kPageSize direction page x
           && negb (bool_decide (x = offset)).
Proof.
  intros Hk Hsize Hget Hlen Hin offset.
  pose proof (Contains_page_unit kPageSize page slot_addr Hk Hsize Hin) as Hindex.
  pose proof Hin as Hrange. unfold MemoryChunk.Contains in Hrange.
  apply bool_decide_eq_true in Hrange.
  assert (Hoffset : to_uintptr (slot_addr - MemoryChunk.address page) = offset)
    by (apply to_uintptr_small; subst offset; lia).
  rewrite Hoffset in Hindex.
  destruct (lookup_lt_is_Some_2 slots (Z.to_nat (offset / kPageSize)))
    as [s Hs]; [lia |].
  eexists _, _. split.
  { rewrite (Remove_eq _ _ _ _ _ slots), Hoffset by done. unfold DCHECK.
    rewrite Hin, andb_false_r. simpl. rewrite Hs. simpl. reflexivity. }
  split; [apply GetSlotSet_store |].
  split; [apply length_insert |].
  split; [by destruct direction |].
  intros x Hx. unfold slot_recorded. rewrite GetSlotSet_store, Hget.
  apply recorded_in_remove; (done || subst offset; lia).
Qed.

Lemma Remove_removes_slot_witness :
  ∃ page',
    RememberedSet.Remove Example.kPageSize true OLD_TO_NEW
      (Example.recorded_chunk OLD_TO_NEW) (Example.base + 20) = Some page' ∧
    slot_recorded Example.kPageSize OLD_TO_NEW page' 20 = false ∧
    slot_recorded Example.kPageSize OLD_TO_NEW page' (Example.kPageSize + 20)
      = true.
Proof.
  destruct (Remove_removes_slot Example.kPageSize true OLD_TO_NEW
              (Example.recorded_chunk OLD_TO_NEW) (Example.base + 20)
              (default [] (RememberedSet.GetSlotSet OLD_TO_NEW
                             (Example.recorded_chunk OLD_TO_NEW))))
    as (page' & slots' & Hrun & _ & _ & _ & Hrecorded);
    [done | by vm_compute | reflexivity | by vm_compute | by vm_compute |].
  exists page'. split; [exact Hrun |].
  split; rewrite Hrecorded by done; by vm_compute.
Defined.

(** X4. [Remove] undoes an [Insert] of a slot that was not recorded, up to
    the allocation: the chunk is again what it was if it had a slot table,
    and what it was with a fresh, empty table attached if it had none. *)
Theorem Remove_after_Insert (kPageSize : Z) (debug : bool)
    (direction : PointerDirection) (page page' : MemoryChunk.t)
    (slot_addr : Z) :
  0 < kPageSize →
  slot_recorded kPageSize direction page
    (to_uintptr (slot_addr - MemoryChunk.address page)) = false →
  RememberedSet.Insert kPageSize debug direction page slot_addr = Some page' →
  RememberedSet.Remove kPageSize debug direction page' slot_addr
  = Some (match RememberedSet.GetSlotSet direction page with
          | Some _ => page
          | None => (RememberedSet.AllocateSlotSet kPageSize direction page).1
          end).
Proof.
  intros Hk Hfresh. rewrite Insert_eq.
  destruct (DCHECK debug (MemoryChunk.Contains page slot_addr))
    as [[] |] eqn:Hcheck; simpl; [| done].
  set (table := default _ (RememberedSet.GetSlotSet direction page)).
  set (offset := to_uintptr (slot_addr - MemoryChunk.address page)) in *.
  destruct (table !! Z.to_nat (offset / kPageSize)) as [s |] eqn:Hs; simpl;
    [| done].
  intros [= <-].
  set (page' := RememberedSet.store_slot_set direction page _).
  assert (Haddress : MemoryChunk.address page' = MemoryChunk.address page)
    by by destruct direction.
  assert (Hcontains : MemoryChunk.Contains page' slot_addr
                      = MemoryChunk.Contains page slot_addr)
    by by destruct direction.
  rewrite (Remove_eq kPageSize debug direction page' slot_addr _
             (GetSlotSet_store _ _ _)).
  rewrite Hcontains, Hcheck, Haddress. simpl. fold offset.
  rewrite list_lookup_insert_eq by by eapply lookup_lt_Some.
  simpl. subst page'. rewrite store_slot_set_store, list_insert_insert_eq.
  assert (Hnot : offset `mod` kPageSize ∉ SlotSet.bits s).
  { assert (Hrec : recorded_in kPageSize table offset = false).
    { subst table. unfold slot_recorded in Hfresh.
      destruct (RememberedSet.GetSlotSet direction page); simpl; [done |].
      apply recorded_in_new. }
    unfold recorded_in in Hrec. rewrite Hs in Hrec.
    by apply bool_decide_eq_false in Hrec. }
  rewrite SlotSet_Remove_Insert, list_insert_id by done.
  subst table.
  destruct (RememberedSet.GetSlotSet direction page) as [slots |] eqn:Hget;
    simpl; [by rewrite store_slot_set_same |].
  by destruct direction.
Qed.

Lemma Remove_after_Insert_witness :
  RememberedSet.Remove Example.kPageSize true OLD_TO_NEW
    (default Example.empty_chunk
       (RememberedSet.Insert Example.kPageSize true OLD_TO_NEW
          Example.empty_chunk (Example.base + 20)))
    (Example.base + 20)
  = Some (RememberedSet.AllocateSlotSet Example.kPageSize OLD_TO_NEW
            Example.empty_chunk).1.
Proof.
  apply (Remove_after_Insert Example.kPageSize true OLD_TO_NEW
           Example.empty_chunk);
    [done | by vm_compute | by vm_compute].
Defined.

(** ** Preconditions in a checked build *)

(** X5. In a checked build [Insert] and [Remove] return a result exactly
    when the page contains the slot. [Remove] makes this check before it
    looks for the table, so on a page without a table it still fails for a
    slot the page does not contain. *)
Theorem Insert_Remove_checked_iff_contained (kPageSize : Z)
    (direction : PointerDirection) (page : MemoryChunk.t) (slot_addr : Z) :
  0 < kPageSize →
  MemoryChunk.size page + kPageSize ≤ 2 ^ 64 →
  (∀ slots, RememberedSet.GetSlotSet direction page = Some slots →
            length slots = Z.to_nat (MemoryChunk.pages kPageSize page)) →
  (is_Some (RememberedSet.Insert kPageSize true direction page slot_addr)
   ↔ MemoryChunk.Contains page slot_addr = true) ∧
  (is_Some (RememberedSet.Remove kPageSize true direction page slot_addr)
   ↔ MemoryChunk.Contains page slot_addr = true).
Proof.
  intros Hk Hsize Hshape. split; split.
  - rewrite Insert_eq. unfold DCHECK.
    destruct (MemoryChunk.Contains page slot_addr); [done |].
    simpl. by intros [? [=]].
  - intros Hin. rewrite Insert_eq. unfold DCHECK. rewrite Hin. simpl.
    pose proof (Contains_page_unit kPageSize page slot_addr Hk Hsize Hin)
      as Hindex.
    destruct (lookup_lt_is_Some_2
                (default (MemoryChunk.new_slot_set_array kPageSize page)
                   (RememberedSet.GetSlotSet direction page))
                (Z.to_nat (to_uintptr (slot_addr - MemoryChunk.address page)
                           / kPageSize))) as [s Hs].
    { destruct (RememberedSet.GetSlotSet direction page) as [slots |] eqn:Hget;
        simpl; [rewrite (Hshape slots) by done
               | rewrite new_slot_set_array_length]; done. }
    rewrite Hs. simpl. by eexists.
  - unfold RememberedSet.Remove, DCHECK.
    destruct (MemoryChunk.Contains page slot_addr); [done |].
    simpl. by intros [? [=]].
  - intros Hin. unfold RememberedSet.Remove, DCHECK. rewrite Hin. simpl.
    destruct (RememberedSet.GetSlotSet direction page) as [slots |] eqn:Hget;
      [| by eexists].
    pose proof (Contains_page_unit kPageSize page slot_addr Hk Hsize Hin)
      as Hindex.
    destruct (lookup_lt_is_Some_2 slots
                (Z.to_nat (to_uintptr (slot_addr - MemoryChunk.address page)
                           / kPageSize))) as [s Hs];
      [by rewrite (Hshape slots) |].
    rewrite Hs. simpl. by eexists.
Qed.

Lemma Insert_Remove_checked_iff_contained_witness :
  is_Some (RememberedSet.Insert Example.kPageSize true OLD_TO_NEW
             Example.empty_chunk (Example.base + 20)) ∧
  is_Some (RememberedSet.Remove Example.kPageSize true OLD_TO_NEW
             Example.empty_chunk (Example.base + 20)).
Proof.
  destruct (Insert_Remove_checked_iff_contained Example.kPageSize OLD_TO_NEW
              Example.empty_chunk (Example.base + 20))
    as [Hinsert Hremove]; [done | by vm_compute | by intros slots [=] |].
  split; [apply Hinsert | apply Hremove]; reflexivity.
Defined.

(** X6. In a checked build [RemoveRange] on a page with a slot table returns
    a result exactly when the range is not empty and ends within the first
    page unit. The two checks are made only once a table was found: without a
    table any range is accepted. *)
Theorem RemoveRange_checked_iff (kPageSize : Z) (direction : PointerDirection)
    (page : MemoryChunk.t) (start end_ : Z) :
  0 ≤ kPageSize < 2 ^ 64 →
  let start_offset := to_uintptr (start - MemoryChunk.address page) in
  let end_offset := to_uintptr (end_ - MemoryChunk.address page) in
  (∀ slots,
     RememberedSet.GetSlotSet direction page = Some slots → slots ≠ [] →
     (is_Some (RememberedSet.RemoveRange kPageSize true direction page
                 start end_)
      ↔ start_offset < end_offset ≤ kPageSize)) ∧
  (RememberedSet.GetSlotSet direction page = None →
   RememberedSet.RemoveRange kPageSize true direction page start end_
   = Some page).
Proof.
  intros Hk start_offset end_offset. split.
  - intros slots Hget Hslots. unfold RememberedSet.RemoveRange.
    rewrite Hget, (to_uintptr_small kPageSize) by done.
    fold start_offset end_offset. unfold DCHECK. simpl.
    destruct slots as [| s rest]; [done |]. simpl.
    repeat case_bool_decide; simpl; split; try done; try lia;
      try (by intros [? [=]]); by eexists.
  - intros Hget. unfold RememberedSet.RemoveRange. by rewrite Hget.
Qed.

Lemma RemoveRange_checked_iff_witness :
  is_Some (RememberedSet.RemoveRange Example.kPageSize true OLD_TO_NEW
             (Example.recorded_chunk OLD_TO_NEW) (Example.base + 8)
             (Example.base + 64)) ∧
  RememberedSet.RemoveRange Example.kPageSize true OLD_TO_NEW
    Example.empty_chunk (Example.base + 64) (Example.base + 64)
  = Some Example.empty_chunk.
Proof.
  split.
  - apply (proj1 (RemoveRange_checked_iff Example.kPageSize OLD_TO_NEW
                    (Example.recorded_chunk OLD_TO_NEW) (Example.base + 8)
                    (Example.base + 64) ltac:(done))
             (default [] (RememberedSet.GetSlotSet OLD_TO_NEW
                            (Example.recorded_chunk OLD_TO_NEW))));
      [reflexivity | by vm_compute | by vm_compute].
  - apply (RemoveRange_checked_iff Example.kPageSize OLD_TO_NEW
             Example.empty_chunk); done.
Defined.

(** ** Well-formed chunks *)

Lemma table_ok_new (kPageSize : Z) (chunk : MemoryChunk.t) :
  table_ok kPageSize chunk (MemoryChunk.new_slot_set_array kPageSize chunk).
Proof.
  split; [apply new_slot_set_array_length |].
  intros page s. unfold MemoryChunk.new_slot_set_array.
  rewrite list_lookup_fmap. intros Hs.
  apply fmap_Some in Hs as (i & Hi & ->).
  apply lookup_seq in Hi as [-> _]. split; [done |].
  simpl. by intros o ?%elem_of_empty.
Qed.

Lemma table_ok_insert (kPageSize : Z) (chunk : MemoryChunk.t)
    (slots : list SlotSet.t) (page : nat) (s : SlotSet.t) :
  table_ok kPageSize chunk slots →
  slot_set_ok kPageSize chunk page s →
  table_ok kPageSize chunk (<[page := s]> slots).
Proof.
  intros [Hlen Hsets] Hs. split; [by rewrite length_insert |].
  intros i s' Hi. destruct (decide (i = page)) as [-> | Hne].
  - apply list_lookup_insert_Some in Hi as [(_ & <- & _) | [? _]]; done.
  - rewrite list_lookup_insert_ne in Hi by done. by apply Hsets.
Qed.

Lemma slot_set_ok_subseteq (kPageSize : Z) (chunk : MemoryChunk.t)
    (page : nat) (s s' : SlotSet.t) :
  slot_set_ok kPageSize chunk page s →
  SlotSet.page_start s' = SlotSet.page_start s →
  SlotSet.bits s' ⊆ SlotSet.bits s →
  slot_set_ok kPageSize chunk page s'.
Proof.
  intros [Hstart Hbits] Hsame Hsub. split; [by rewrite Hsame |].
  intros o Ho. by apply Hbits, Hsub.
Qed.

Lemma slot_set_ok_Insert (kPageSize : Z) (chunk : MemoryChunk.t)
    (page : nat) (s : SlotSet.t) (offset : Z) :
  0 < kPageSize →
  slot_set_ok kPageSize chunk page s →
  slot_set_ok kPageSize chunk page (SlotSet.Insert s (offset `mod` kPageSize)).
Proof.
  intros Hk [Hstart Hbits]. split; [done |].
  intros o. simpl. rewrite elem_of_union, elem_of_singleton.
  intros [-> | Ho]; [by apply Z.mod_pos_bound | by apply Hbits].
Qed.

(** A slot set after an iteration: at the same place, with some of its
    offsets. *)
Lemma drained_lookup (slots : list SlotSet.t) verdicts (page : nat)
    (s' : SlotSet.t) :
  drained slots verdicts !! page = Some s' →
  ∃ s, slots !! page = Some s ∧
       SlotSet.page_start s' = SlotSet.page_start s ∧
       SlotSet.bits s' ⊆ SlotSet.bits s.
Proof.
  revert verdicts page.
  induction slots as [| s rest IH]; intros verdicts page; simpl.
  { by rewrite lookup_nil. }
  destruct page as [| page]; simpl; [| apply IH].
  intros [= <-]. exists s. split; [done |]. split; [done |].
  simpl. intros o. rewrite elem_of_difference. tauto.
Qed.

Lemma table_ok_drained (kPageSize : Z) (chunk : MemoryChunk.t)
    (slots : list SlotSet.t) verdicts :
  table_ok kPageSize chunk slots →
  table_ok kPageSize chunk (drained slots verdicts).
Proof.
  intros [Hlen Hsets]. split; [by rewrite drained_length |].
  intros page s' Hs'.
  apply drained_lookup in Hs' as (s & Hs & Hstart & Hsub).
  by eapply slot_set_ok_subseteq; [apply Hsets | |].
Qed.

Lemma table_ok_ext (kPageSize : Z) (chunk chunk' : MemoryChunk.t)
    (slots : list SlotSet.t) :
  MemoryChunk.address chunk' = MemoryChunk.address chunk →
  MemoryChunk.size chunk' = MemoryChunk.size chunk →
  table_ok kPageSize chunk slots → table_ok kPageSize chunk' slots.
Proof.
  unfold table_ok, slot_set_ok, MemoryChunk.pages. by intros -> ->.
Qed.

(** A chunk with the address and size of a well-formed one is well formed
    if its tables are. *)
Lemma well_formed_intro (kPageSize : Z) direction (chunk chunk' : MemoryChunk.t) :
  MemoryChunk.address chunk' = MemoryChunk.address chunk →
  MemoryChunk.size chunk' = MemoryChunk.size chunk →
  (∀ slots, RememberedSet.GetSlotSet direction chunk' = Some slots →
            table_ok kPageSize chunk slots) →
  (∀ typed, RememberedSet.GetTypedSlotSet direction chunk' = Some typed →
            TypedSlotSet.page_start typed = MemoryChunk.address chunk) →
  well_formed kPageSize direction chunk'.
Proof.
  intros Haddress Hsize Hslots Htyped. split.
  - intros slots Hget. by eapply table_ok_ext, Hslots.
  - intros typed Hget. rewrite Haddress. by apply Htyped.
Qed.

(** What a store or a release leaves of a chunk. *)
Lemma store_slot_set_fields direction chunk slots :
  let chunk' := RememberedSet.store_slot_set direction chunk slots in
  MemoryChunk.address chunk' = MemoryChunk.address chunk ∧
  MemoryChunk.size chunk' = MemoryChunk.size chunk ∧
  RememberedSet.GetSlotSet direction chunk' = Some slots ∧
  RememberedSet.GetTypedSlotSet direction chunk'
    = RememberedSet.GetTypedSlotSet direction chunk.
Proof. by destruct direction. Qed.

Lemma store_typed_slot_set_fields direction chunk typed :
  let chunk' := RememberedSet.store_typed_slot_set direction chunk typed in
  MemoryChunk.address chunk' = MemoryChunk.address chunk ∧
  MemoryChunk.size chunk' = MemoryChunk.size chunk ∧
  RememberedSet.GetSlotSet direction chunk'
    = RememberedSet.GetSlotSet direction chunk ∧
  RememberedSet.GetTypedSlotSet direction chunk' = Some typed.
Proof. by destruct direction. Qed.

Lemma ReleaseSlotSet_fields direction chunk :
  let chunk' := RememberedSet.ReleaseSlotSet direction chunk in
  MemoryChunk.address chunk' = MemoryChunk.address chunk ∧
  MemoryChunk.size chunk' = MemoryChunk.size chunk ∧
  RememberedSet.GetSlotSet direction chunk' = None ∧
  RememberedSet.GetTypedSlotSet direction chunk'
    = RememberedSet.GetTypedSlotSet direction chunk.
Proof. by destruct direction. Qed.

Lemma ReleaseTypedSlotSet_fields direction chunk :
  let chunk' := RememberedSet.ReleaseTypedSlotSet direction chunk in
  MemoryChunk.address chunk' = MemoryChunk.address chunk ∧
  MemoryChunk.size chunk' = MemoryChunk.size chunk ∧
  RememberedSet.GetSlotSet direction chunk'
    = RememberedSet.GetSlotSet direction chunk ∧
  RememberedSet.GetTypedSlotSet direction chunk' = None.
Proof. by destruct direction. Qed.

Lemma AllocateSlotSet_eq kPageSize direction chunk :
  (RememberedSet.AllocateSlotSet kPageSize direction chunk).1
  = RememberedSet.store_slot_set direction chunk
      (MemoryChunk.new_slot_set_array kPageSize chunk).
Proof. by destruct direction. Qed.

Lemma AllocateTypedSlotSet_eq direction chunk :
  (RememberedSet.AllocateTypedSlotSet direction chunk).1
  = RememberedSet.store_typed_slot_set direction chunk
      (MemoryChunk.new_typed_slot_set chunk).
Proof. by destruct direction. Qed.

Lemma well_formed_store_slot_set kPageSize direction chunk slots :
  well_formed kPageSize direction chunk →
  table_ok kPageSize chunk slots →
  well_formed kPageSize direction
    (RememberedSet.store_slot_set direction chunk slots).
Proof.
  intros [_ Htyped] Hslots.
  destruct (store_slot_set_fields direction chunk slots)
    as (Ha & Hs & Hget & Hgett).
  apply (well_formed_intro kPageSize direction chunk); try done.
  - rewrite Hget. by intros ? [= <-].
  - rewrite Hgett. apply Htyped.
Qed.

Lemma well_formed_store_typed_slot_set kPageSize direction chunk typed :
  well_formed kPageSize direction chunk →
  TypedSlotSet.page_start typed = MemoryChunk.address chunk →
  well_formed kPageSize direction
    (RememberedSet.store_typed_slot_set direction chunk typed).
Proof.
  intros [Hslots _] Htyped.
  destruct (store_typed_slot_set_fields direction chunk typed)
    as (Ha & Hs & Hget & Hgett).
  apply (well_formed_intro kPageSize direction chunk); try done.
  - rewrite Hget. apply Hslots.
  - rewrite Hgett. by intros ? [= <-].
Qed.

Lemma well_formed_ReleaseSlotSet kPageSize direction chunk :
  well_formed kPageSize direction chunk →
  well_formed kPageSize direction (RememberedSet.ReleaseSlotSet direction chunk).
Proof.
  intros [_ Htyped].
  destruct (ReleaseSlotSet_fields direction chunk) as (Ha & Hs & Hget & Hgett).
  apply (well_formed_intro kPageSize direction chunk); try done.
  - by rewrite Hget.
  - rewrite Hgett. apply Htyped.
Qed.

Lemma well_formed_ReleaseTypedSlotSet kPageSize direction chunk :
  well_formed kPageSize direction chunk →
  well_formed kPageSize direction
    (RememberedSet.ReleaseTypedSlotSet direction chunk).
Proof.
  intros [Hslots _].
  destruct (ReleaseTypedSlotSet_fields direction chunk)
    as (Ha & Hs & Hget & Hgett).
  apply (well_formed_intro kPageSize direction chunk); try done.
  - rewrite Hget. apply Hslots.
  - by rewrite Hgett.
Qed.

(** The table [Insert] works on is well formed. *)
Lemma table_ok_default kPageSize direction chunk :
  well_formed kPageSize direction chunk →
  table_ok kPageSize chunk
    (default (MemoryChunk.new_slot_set_array kPageSize chunk)
             (RememberedSet.GetSlotSet direction chunk)).
Proof.
  intros [Hslots _].
  destruct (RememberedSet.GetSlotSet direction chunk) as [slots |] eqn:Hget;
    simpl; [by apply Hslots | apply table_ok_new].
Qed.

(** The per-chunk iterations keep a chunk well formed. *)
Lemma well_formed_IterateChunk {S : Type} kPageSize direction
    (callback : Z → S → SlotCallbackResult * S) chunk st :
  well_formed kPageSize direction chunk →
  ∃ chunk' st',
    RememberedSet.IterateChunk kPageSize direction callback chunk st
      = Some (chunk', st') ∧
    well_formed kPageSize direction chunk' ∧
    MemoryChunk.address chunk' = MemoryChunk.address chunk ∧
    MemoryChunk.size chunk' = MemoryChunk.size chunk ∧
    RememberedSet.GetTypedSlotSet direction chunk'
      = RememberedSet.GetTypedSlotSet direction chunk.
Proof.
  intros Hwf.
  destruct (RememberedSet.GetSlotSet direction chunk) as [slots |] eqn:Hget.
  - destruct (proj1 Hwf slots Hget) as [Hlen Hsets].
    rewrite (IterateChunk_spec kPageSize direction callback chunk slots st)
      by done.
    eexists _, _. split; [reflexivity |].
    case_decide.
    + rewrite <- ReleaseSlotSet_tables.
      destruct (ReleaseSlotSet_fields direction chunk) as (? & ? & ? & ?).
      by split; [apply well_formed_ReleaseSlotSet |].
    + rewrite <- store_slot_set_tables.
      destruct (store_slot_set_fields direction chunk
                  (drained slots (run_callback callback
                                    (slot_addresses slots) st).1))
        as (? & ? & ? & ?).
      split; [| done].
      by apply well_formed_store_slot_set, table_ok_drained.
  - unfold RememberedSet.IterateChunk. rewrite Hget. by eexists _, _.
Qed.

Lemma well_formed_IterateTypedChunk {S : Type} kPageSize direction
    (callback : SlotType → Z → Z → S → SlotCallbackResult * S) chunk st :
  well_formed kPageSize direction chunk →
  ∃ chunk' st',
    RememberedSet.IterateTypedChunk direction callback chunk st
      = Some (chunk', st') ∧
    well_formed kPageSize direction chunk' ∧
    MemoryChunk.address chunk' = MemoryChunk.address chunk ∧
    MemoryChunk.size chunk' = MemoryChunk.size chunk ∧
    RememberedSet.GetSlotSet direction chunk'
      = RememberedSet.GetSlotSet direction chunk.
Proof.
  intros Hwf.
  destruct (RememberedSet.GetTypedSlotSet direction chunk) as [typed |] eqn:Hget.
  - rewrite (IterateTypedChunk_spec direction callback chunk typed st) by done.
    eexists _, _. split; [reflexivity |].
    case_decide.
    + rewrite <- ReleaseTypedSlotSet_tables.
      destruct (ReleaseTypedSlotSet_fields direction chunk) as (? & ? & ? & ?).
      by split; [apply well_formed_ReleaseTypedSlotSet |].
    + rewrite <- store_typed_slot_set_tables.
      destruct (store_typed_slot_set_fields direction chunk
                  (TypedSlotSet.Build (TypedSlotSet.page_start typed)
                     (with_verdict KEEP_SLOT (TypedSlotSet.slots typed)
                        (run_callback
                           (typed_call callback (TypedSlotSet.page_start typed))
                           (TypedSlotSet.slots typed) st).1)))
        as (? & ? & ? & ?).
      split; [| done].
      apply well_formed_store_typed_slot_set; [done |].
      simpl. by apply Hwf.
  - unfold RememberedSet.IterateTypedChunk. rewrite Hget. by eexists _, _.
Qed.

(** X7. Every operation of a remembered set keeps the chunk well formed: the
    slot table of the direction, when attached, has one slot set per page
    unit of the chunk, each relative to the start of its page unit and holding
    offsets within the page unit only, and the typed slot table is relative
    to the base address. No operation changes the address or the size of the
    chunk. A chunk without tables is well formed, so the chunks the
    operations build from it all are. *)
Theorem well_formed_preserved {S : Type} (kPageSize kMaxOffset : Z)
    (debug : bool) (direction : PointerDirection) (op : Operation S)
    (chunk : MemoryChunk.t) (st : S) :
  0 < kPageSize →
  well_formed kPageSize direction chunk →
  match perform kPageSize kMaxOffset debug direction op chunk st with
  | Some (chunk', _) =>
      well_formed kPageSize direction chunk' ∧
      MemoryChunk.address chunk' = MemoryChunk.address chunk ∧
      MemoryChunk.size chunk' = MemoryChunk.size chunk
  | None => True
  end.
Proof.
  intros Hk Hwf.
  assert (Hstore : ∀ slots, table_ok kPageSize chunk slots →
            well_formed kPageSize direction
              (RememberedSet.store_slot_set direction chunk slots) ∧
            MemoryChunk.address
              (RememberedSet.store_slot_set direction chunk slots)
              = MemoryChunk.address chunk ∧
            MemoryChunk.size
              (RememberedSet.store_slot_set direction chunk slots)
              = MemoryChunk.size chunk).
  { intros slots Hslots. split; [by apply well_formed_store_slot_set |].
    by destruct direction. }
  assert (Hstoret : ∀ typed,
            TypedSlotSet.page_start typed = MemoryChunk.address chunk →
            well_formed kPageSize direction
              (RememberedSet.store_typed_slot_set direction chunk typed) ∧
            MemoryChunk.address
              (RememberedSet.store_typed_slot_set direction chunk typed)
              = MemoryChunk.address chunk ∧
            MemoryChunk.size
              (RememberedSet.store_typed_slot_set direction chunk typed)
              = MemoryChunk.size chunk).
  { intros typed Htyped.
    split; [by apply well_formed_store_typed_slot_set |].
    by destruct direction. }
  destruct op as [slot_addr | slot_addr | start end_ | host_addr slot_type
                  slot_addr | start end_ | callback | callback | | | |];
    simpl.
  - rewrite Insert_eq.
    destruct (DCHECK debug _) as [[] |]; simpl; [| done].
    destruct (_ !! _) as [s |] eqn:Hs; simpl; [| done].
    pose proof (table_ok_default kPageSize direction chunk Hwf) as Htable.
    apply Hstore, table_ok_insert; [done |].
    apply slot_set_ok_Insert; [done |]. by apply Htable.
  - destruct (RememberedSet.GetSlotSet direction chunk) as [slots |] eqn:Hget.
    + rewrite (Remove_eq _ _ _ _ _ slots) by done.
      destruct (DCHECK debug _) as [[] |]; simpl; [| done].
      destruct (_ !! _) as [s |] eqn:Hs; simpl; [| done].
      pose proof (proj1 Hwf slots Hget) as Htable.
      apply Hstore, table_ok_insert; [done |].
      eapply slot_set_ok_subseteq; [by apply Htable | done |].
      simpl. intros o. rewrite elem_of_difference. tauto.
    + unfold RememberedSet.Remove. rewrite Hget.
      by destruct (DCHECK debug _) as [[] |].
  - unfold RememberedSet.RemoveRange.
    destruct (RememberedSet.GetSlotSet direction chunk) as [slots |] eqn:Hget;
      simpl; [| done].
    do 2 (destruct (DCHECK debug _) as [[] |]; simpl; try done).
    destruct (slots !! 0%nat) as [s |] eqn:Hs; simpl; [| done].
    pose proof (proj1 Hwf slots Hget) as Htable.
    apply Hstore, table_ok_insert; [done |].
    eapply slot_set_ok_subseteq; [by apply Htable | done |].
    simpl. intros o. rewrite elem_of_filter. tauto.
  - unfold RememberedSet.InsertTyped.
    destruct (RememberedSet.GetTypedSlotSet direction chunk) as [typed |]
      eqn:Hget; simpl.
    + do 2 (destruct (DCHECK debug _) as [[] |]; simpl; try done).
      apply Hstoret. simpl. by apply Hwf.
    + rewrite AllocateTypedSlotSet_eq, GetTypedSlotSet_store. simpl.
      do 2 (destruct (DCHECK debug _) as [[] |]; simpl; try done).
      replace (RememberedSet.store_typed_slot_set direction
                 (RememberedSet.store_typed_slot_set direction chunk _) _)
        with (RememberedSet.store_typed_slot_set direction chunk
                (TypedSlotSet.Insert (MemoryChunk.new_typed_slot_set chunk)
                   slot_type
                   (to_uint32 (to_uintptr
                      ((if bool_decide (host_addr = nullptr)
                        then MemoryChunk.address chunk else host_addr)
                       - MemoryChunk.address chunk)))
                   (to_uint32 (to_uintptr
                      (slot_addr - MemoryChunk.address chunk)))))
        by by destruct direction.
      by apply Hstoret.
  - unfold RememberedSet.RemoveRangeTyped.
    destruct (RememberedSet.GetTypedSlotSet direction chunk) as [typed |]
      eqn:Hget; simpl; [| done].
    unfold TypedSlotSet.Iterate. rewrite iterate_slots_in_range. simpl.
    apply Hstoret. simpl. by apply Hwf.
  - destruct (well_formed_IterateChunk kPageSize direction callback chunk st
                Hwf) as (chunk' & st' & -> & ? & ? & ? & _).
    done.
  - destruct (well_formed_IterateTypedChunk kPageSize direction callback
                chunk st Hwf) as (chunk' & st' & -> & ? & ? & ? & _).
    done.
  - rewrite AllocateSlotSet_eq. apply Hstore, table_ok_new.
  - rewrite AllocateTypedSlotSet_eq. by apply Hstoret.
  - split; [by apply well_formed_ReleaseSlotSet | by destruct direction].
  - split; [by apply well_formed_ReleaseTypedSlotSet | by destruct direction].
Qed.

Lemma well_formed_preserved_witness :
  well_formed Example.kPageSize OLD_TO_NEW
    (default Example.empty_chunk
       (RememberedSet.Insert Example.kPageSize true OLD_TO_NEW
          Example.empty_chunk (Example.base + 20))).
Proof.
  refine (proj1 (well_formed_preserved (S:=unit) Example.kPageSize
                   Example.kMaxOffset true OLD_TO_NEW
                   (OpInsert (Example.base + 20)) Example.empty_chunk tt
                   _ _)).
  - done.
  - split; by intros ? [=].
Defined.

(** A chunk without tables is well formed, and [Insert] keeps a chunk well
    formed. *)
Lemma well_formed_no_tables (kPageSize : Z) direction (chunk : MemoryChunk.t) :
  RememberedSet.GetSlotSet direction chunk = None →
  RememberedSet.GetTypedSlotSet direction chunk = None →
  well_formed kPageSize direction chunk.
Proof. intros Hslots Htyped. split; intros ?; by rewrite ?Hslots, ?Htyped. Qed.

Lemma well_formed_Insert (kPageSize : Z) (debug : bool) direction
    (page page' : MemoryChunk.t) (slot_addr : Z) :
  0 < kPageSize →
  well_formed kPageSize direction page →
  RememberedSet.Insert kPageSize debug direction page slot_addr = Some page' →
  well_formed kPageSize direction page'.
Proof.
  intros Hk Hwf. rewrite Insert_eq.
  destruct (DCHECK debug _) as [[] |]; simpl; [| done].
  destruct (_ !! _) as [s |] eqn:Hs; simpl; [| done].
  intros [= <-].
  pose proof (table_ok_default kPageSize direction page Hwf) as Htable.
  apply well_formed_store_slot_set, table_ok_insert; [done.. |].
  apply slot_set_ok_Insert; [done |]. by apply Htable.
Qed.

(** The example chunk with two slots is well formed. *)
Lemma well_formed_recorded_chunk direction :
  well_formed Example.kPageSize direction (Example.recorded_chunk direction).
Proof.
  unfold Example.recorded_chunk, Example.two_slots.
  destruct (RememberedSet.Insert Example.kPageSize true direction
              Example.empty_chunk (Example.base + 20)) as [chunk |] eqn:Hfirst;
    simpl; [| by apply well_formed_no_tables; destruct direction].
  assert (Hchunk : well_formed Example.kPageSize direction chunk).
  { eapply well_formed_Insert; [done | | exact Hfirst].
    by apply well_formed_no_tables; destruct direction. }
  destruct (RememberedSet.Insert Example.kPageSize true direction chunk _)
    as [chunk' |] eqn:Hsecond; simpl.
  - by eapply well_formed_Insert; [| | exact Hsecond].
  - by apply well_formed_no_tables; destruct direction.
Qed.

(** ** The slots an iteration visits *)

Lemma elem_of_slot_addresses (slots : list SlotSet.t) (a : Z) :
  a ∈ slot_addresses slots
  ↔ ∃ page s o, slots !! page = Some s ∧ o ∈ SlotSet.bits s ∧
                a = SlotSet.page_start s + o.
Proof.
  induction slots as [| s rest IH]; simpl.
  { split; [by intros ?%elem_of_nil |]. intros (page & s & o & Hs & _).
    by rewrite lookup_nil in Hs. }
  rewrite elem_of_app, list_elem_of_fmap, IH. split.
  - intros [(o & -> & Ho) | (page & s' & o & Hs & Ho & ->)].
    + exists 0%nat, s, o. by rewrite <- elem_of_offsets.
    + by exists (Datatypes.S page), s', o.
  - intros ([| page] & s' & o & Hs & Ho & ->); simpl in Hs.
    + simplify_eq. left. exists o. by rewrite elem_of_offsets.
    + right. by exists page, s', o.
Qed.

(** The addresses of the slots of the page units from [first] on lie at or
    above the start of the page unit [first]. *)
Lemma slot_addresses_lower_bound (kPageSize : Z) (chunk : MemoryChunk.t)
    (first : nat) (slots : list SlotSet.t) (a : Z) :
  0 < kPageSize →
  (∀ j s, slots !! j = Some s →
          slot_set_ok kPageSize chunk (first + j) s) →
  a ∈ slot_addresses slots →
  MemoryChunk.address chunk + Z.of_nat first * kPageSize ≤ a.
Proof.
  intros Hk Hok Ha.
  apply elem_of_slot_addresses in Ha as (j & s & o & Hs & Ho & ->).
  destruct (Hok j s Hs) as [-> Hbits]. specialize (Hbits o Ho).
  rewrite Nat2Z.inj_add. nia.
Qed.

Lemma slot_addresses_NoDup (kPageSize : Z) (chunk : MemoryChunk.t)
    (first : nat) (slots : list SlotSet.t) :
  0 < kPageSize →
  (∀ j s, slots !! j = Some s →
          slot_set_ok kPageSize chunk (first + j) s) →
  NoDup (slot_addresses slots).
Proof.
  intros Hk. revert first.
  induction slots as [| s rest IH]; intros first Hok; simpl.
  { apply NoDup_nil_2. }
  apply NoDup_app. split; [| split].
  - apply NoDup_fmap_2; [| apply offsets_NoDup]. intros x y Hxy. lia.
  - intros a Ha Hrest.
    apply list_elem_of_fmap in Ha as (o & -> & Ho).
    apply elem_of_offsets in Ho.
    destruct (Hok 0%nat s eq_refl) as [Hstart Hbits].
    specialize (Hbits o Ho).
    apply (slot_addresses_lower_bound kPageSize chunk (Datatypes.S first))
      in Hrest; [| done |].
    + rewrite Hstart, Nat.add_0_r in Hrest. lia.
    + intros j s' Hs'. specialize (Hok (Datatypes.S j) s' Hs').
      by replace (Datatypes.S first + j)%nat
        with (first + Datatypes.S j)%nat by lia.
  - apply (IH (Datatypes.S first)).
    intros j s' Hs'. specialize (Hok (Datatypes.S j) s' Hs').
    by replace (Datatypes.S first + j)%nat
      with (first + Datatypes.S j)%nat by lia.
Qed.

(** The addresses of the slots of a well-formed table are the base address
    plus the offsets recorded. *)
Lemma elem_of_slot_addresses_recorded (kPageSize : Z) (chunk : MemoryChunk.t)
    (slots : list SlotSet.t) (a : Z) :
  0 < kPageSize →
  table_ok kPageSize chunk slots →
  a ∈ slot_addresses slots
  ↔ MemoryChunk.address chunk ≤ a ∧
    recorded_in kPageSize slots (a - MemoryChunk.address chunk) = true.
Proof.
  intros Hk [_ Hok]. rewrite elem_of_slot_addresses. unfold recorded_in.
  split.
  - intros (page & s & o & Hs & Ho & ->).
    destruct (Hok page s Hs) as [-> Hbits]. specialize (Hbits o Ho).
    replace (MemoryChunk.address chunk + Z.of_nat page * kPageSize + o
             - MemoryChunk.address chunk)
      with (o + Z.of_nat page * kPageSize) by lia.
    rewrite Z.div_add, Z.mod_add, Z.div_small, Z.mod_small by lia.
    rewrite Z.add_0_l, Nat2Z.id, Hs.
    split; [nia | by apply bool_decide_eq_true_2].
  - intros [Hbase Hrecorded].
    set (x := a - MemoryChunk.address chunk) in *.
    destruct (slots !! Z.to_nat (x / kPageSize)) as [s |] eqn:Hs; [| done].
    apply bool_decide_eq_true in Hrecorded.
    exists (Z.to_nat (x / kPageSize)), s, (x `mod` kPageSize).
    split; [done |]. split; [done |].
    destruct (Hok _ s Hs) as [-> _].
    assert (0 ≤ x / kPageSize) by (apply Z.div_pos; lia).
    rewrite Z2Nat.id by done.
    pose proof (Z.div_mod x kPageSize ltac:(lia)). lia.
Qed.

(** X8. The per-chunk [Iterate] visits every recorded slot exactly once. On
    a well-formed chunk with a slot table it succeeds, the callback is
    invoked on a sequence of addresses without repetition, and an address is
    in that sequence exactly if it is the base address plus the offset of a
    recorded slot. *)
Theorem Iterate_visits_each_slot_once {S : Type} (kPageSize : Z)
    (direction : PointerDirection) (chunk : MemoryChunk.t)
    (slots : list SlotSet.t) :
  0 < kPageSize →
  well_formed kPageSize direction chunk →
  RememberedSet.GetSlotSet direction chunk = Some slots →
  let visited := slot_addresses slots in
  NoDup visited ∧
  (∀ a, a ∈ visited
        ↔ MemoryChunk.address chunk ≤ a ∧
          slot_recorded kPageSize direction chunk
            (a - MemoryChunk.address chunk) = true) ∧
  ∀ (callback : Z → S → SlotCallbackResult * S) (st : S),
    ∃ chunk',
      RememberedSet.IterateChunk kPageSize direction callback chunk st
      = Some (chunk', (run_callback callback visited st).2).
Proof.
  intros Hk Hwf Hget visited.
  pose proof (proj1 Hwf slots Hget) as Htable.
  split; [| split].
  - apply (slot_addresses_NoDup kPageSize chunk 0); [done |].
    intros j s Hs. by apply Htable.
  - intros a. unfold slot_recorded. rewrite Hget.
    by apply elem_of_slot_addresses_recorded.
  - intros callback st. eexists.
    by apply IterateChunk_spec; [| apply Htable].
Qed.

Lemma Iterate_visits_each_slot_once_witness :
  ∃ chunk',
    RememberedSet.IterateChunk Example.kPageSize OLD_TO_NEW Example.keep_all
      (Example.recorded_chunk OLD_TO_NEW) []
    = Some (chunk', [Example.base + 20; Example.base + Example.kPageSize + 20]).
Proof.
  exact (proj2 (proj2 (Iterate_visits_each_slot_once (S:=list Z)
                         Example.kPageSize OLD_TO_NEW
                         (Example.recorded_chunk OLD_TO_NEW)
                         (default [] (RememberedSet.GetSlotSet OLD_TO_NEW
                                        (Example.recorded_chunk OLD_TO_NEW)))
                         eq_refl (well_formed_recorded_chunk OLD_TO_NEW)
                         eq_refl))
           Example.keep_all []).
Defined.

(** X9. A slot that was inserted is visited at its own address. After
    [Insert] of a slot into a well-formed page that contains it, the
    per-chunk [Iterate] on the resulting chunk invokes the callback on a
    sequence of addresses without repetition in which the address of the
    slot occurs: the split of the address into page unit and offset that
    [Insert] makes is put together again by the iteration. *)
Theorem Insert_then_Iterate_visits {S : Type} (kPageSize : Z) (debug : bool)
    (direction : PointerDirection) (page page' : MemoryChunk.t)
    (slot_addr : Z) :
  0 < kPageSize →
  MemoryChunk.size page ≤ 2 ^ 64 →
  well_formed kPageSize direction page →
  MemoryChunk.Contains page slot_addr = true →
  RememberedSet.Insert kPageSize debug direction page slot_addr = Some page' →
  ∃ visited,
    slot_addr ∈ visited ∧ NoDup visited ∧
    ∀ (callback : Z → S → SlotCallbackResult * S) (st : S),
      ∃ chunk,
        RememberedSet.IterateChunk kPageSize direction callback page' st
        = Some (chunk, (run_callback callback visited st).2).
Proof.
  intros Hk Hsize Hwf Hin Hinsert.
  pose proof (well_formed_Insert _ _ _ _ _ _ Hk Hwf Hinsert) as Hwf'.
  pose proof Hin as Hrange. unfold MemoryChunk.Contains in Hrange.
  apply bool_decide_eq_true in Hrange.
  rewrite Insert_eq in Hinsert.
  destruct (DCHECK debug _) as [[] |]; simpl in Hinsert; [| done].
  rewrite to_uintptr_small in Hinsert by lia.
  set (offset := slot_addr - MemoryChunk.address page) in *.
  set (table := default _ (RememberedSet.GetSlotSet direction page)) in *.
  destruct (table !! Z.to_nat (offset / kPageSize)) as [s |] eqn:Hs;
    simpl in Hinsert; [| done].
  injection Hinsert as <-.
  set (slots' := <[Z.to_nat (offset / kPageSize) :=
                     SlotSet.Insert s (offset `mod` kPageSize)]> table) in *.
  assert (Hget : RememberedSet.GetSlotSet direction
                   (RememberedSet.store_slot_set direction page slots')
                 = Some slots') by apply GetSlotSet_store.
  pose proof (proj1 Hwf' slots' Hget) as Htable.
  assert (Haddress : MemoryChunk.address
                       (RememberedSet.store_slot_set direction page slots')
                     = MemoryChunk.address page) by by destruct direction.
  exists (slot_addresses slots'). split; [| split].
  - apply (elem_of_slot_addresses_recorded kPageSize _ _ _ Hk Htable).
    rewrite Haddress. split; [lia |]. fold offset. subst slots'.
    rewrite recorded_in_insert by (done || subst offset; lia).
    by rewrite (bool_decide_eq_true_2 (offset = offset)), orb_true_r.
  - apply (slot_addresses_NoDup kPageSize
             (RememberedSet.store_slot_set direction page slots') 0);
      [done |].
    intros j s' Hs'. by apply Htable.
  - intros callback st. eexists.
    by apply IterateChunk_spec; [| apply Htable].
Qed.

Lemma Insert_then_Iterate_visits_witness :
  ∃ visited,
    Example.base + Example.kPageSize + 20 ∈ visited ∧ NoDup visited ∧
    ∀ (callback : Z → list Z → SlotCallbackResult * list Z) (st : list Z),
      ∃ chunk,
        RememberedSet.IterateChunk Example.kPageSize OLD_TO_NEW callback
          (default Example.empty_chunk
             (RememberedSet.Insert Example.kPageSize true OLD_TO_NEW
                Example.empty_chunk (Example.base + Example.kPageSize + 20)))
          st
        = Some (chunk, (run_callback callback visited st).2).
Proof.
  apply (Insert_then_Iterate_visits Example.kPageSize true OLD_TO_NEW
           Example.empty_chunk);
    [done | by vm_compute | by apply well_formed_no_tables | by vm_compute
    | by vm_compute].
Defined.

(** ** Typed slots *)

(** [InsertTyped] in terms of the table it works on: the one attached, or a
    fresh one. *)
Lemma InsertTyped_eq (kMaxOffset : Z) (debug : bool)
    (direction : PointerDirection) (page : MemoryChunk.t)
    (host_addr : Z) (slot_type : SlotType) (slot_addr : Z) :
  let base := MemoryChunk.address page in
  let host := if bool_decide (host_addr = nullptr) then base else host_addr in
  let offset := to_uintptr (slot_addr - base) in
  let host_offset := to_uintptr (host - base) in
  let table := default (MemoryChunk.new_typed_slot_set page)
                       (RememberedSet.GetTypedSlotSet direction page) in
  RememberedSet.InsertTyped kMaxOffset debug direction page host_addr
    slot_type slot_addr
  = _ ← DCHECK debug (bool_decide (offset < to_uintptr kMaxOffset));
    _ ← DCHECK debug (bool_decide (host_offset < to_uintptr kMaxOffset));
    Some (RememberedSet.store_typed_slot_set direction page
            (TypedSlotSet.Insert table slot_type (to_uint32 host_offset)
               (to_uint32 offset))).
Proof.
  intros base host offset host_offset table.
  subst table host_offset offset host base.
  unfold RememberedSet.InsertTyped.
  destruct (RememberedSet.GetTypedSlotSet direction page) as [t |] eqn:Hget;
    simpl; [done |].
  destruct direction, page; unfold_accessors; simplify_eq/=;
    destruct_steps; done.
Qed.

(** X10. A typed slot that was inserted is handed to the callback as it was
    given. After [InsertTyped] in a checked build, with the slot and the host
    at or above the base address of a well-formed page, the typed table of
    the resulting chunk ends with one new entry, and the call the typed
    iteration makes for that entry is the callback on the slot type, the host
    address (the base address if none was given) and the slot address
    themselves. *)
Theorem InsertTyped_then_IterateTyped (kPageSize kMaxOffset : Z)
    (direction : PointerDirection) (page page' : MemoryChunk.t)
    (host_addr : Z) (slot_type : SlotType) (slot_addr : Z) :
  0 < kMaxOffset < 2 ^ 32 →
  well_formed kPageSize direction page →
  0 ≤ MemoryChunk.address page ≤ slot_addr ∧ slot_addr < 2 ^ 64 →
  host_addr = nullptr ∨
    (MemoryChunk.address page ≤ host_addr ∧ host_addr < 2 ^ 64) →
  RememberedSet.InsertTyped kMaxOffset true direction page host_addr
    slot_type slot_addr = Some page' →
  let host := if bool_decide (host_addr = nullptr)
              then MemoryChunk.address page else host_addr in
  let before := default [] (TypedSlotSet.slots
                              <$> RememberedSet.GetTypedSlotSet direction page) in
  ∃ typed e,
    RememberedSet.GetTypedSlotSet direction page' = Some typed ∧
    TypedSlotSet.slots typed = before ++ [e] ∧
    ∀ (S : Type) (callback : SlotType → Z → Z → S → SlotCallbackResult * S)
      (st : S),
      typed_call callback (TypedSlotSet.page_start typed) e st
        = callback slot_type host slot_addr st ∧
      ∃ chunk,
        RememberedSet.IterateTypedChunk direction callback page' st
        = Some (chunk,
                (run_callback
                   (typed_call callback (TypedSlotSet.page_start typed))
                   (before ++ [e]) st).2).
Proof.
  intros Hmax Hwf Hslot Hhost Hinsert host before.
  rewrite InsertTyped_eq in Hinsert. fold host in Hinsert.
  rewrite (to_uintptr_small kMaxOffset) in Hinsert by lia.
  unfold DCHECK in Hinsert. simpl in Hinsert.
  destruct (bool_decide (to_uintptr (slot_addr - MemoryChunk.address page)
                         < kMaxOffset)) eqn:Hoff;
    simpl in Hinsert; [| done].
  destruct (bool_decide (to_uintptr (host - MemoryChunk.address page)
                         < kMaxOffset)) eqn:Hhostoff;
    simpl in Hinsert; [| done].
  apply bool_decide_eq_true in Hoff, Hhostoff.
  injection Hinsert as <-.
  assert (Hhost' : MemoryChunk.address page ≤ host ∧ host < 2 ^ 64).
  { subst host. case_bool_decide; [lia |]. by destruct Hhost. }
  rewrite to_uintptr_small in Hoff by lia.
  rewrite to_uintptr_small in Hhostoff by lia.
  rewrite !to_uintptr_small, !to_uint32_small by lia.
  set (table := default _ (RememberedSet.GetTypedSlotSet direction page)).
  assert (Hstart : TypedSlotSet.page_start table = MemoryChunk.address page).
  { subst table.
    destruct (RememberedSet.GetTypedSlotSet direction page) as [t |] eqn:Hget;
      simpl; [by apply Hwf | done]. }
  assert (Hbefore : TypedSlotSet.slots table = before).
  { subst table before.
    by destruct (RememberedSet.GetTypedSlotSet direction page). }
  eexists _, _. split; [apply GetTypedSlotSet_store |].
  split; [simpl; by rewrite Hbefore |].
  intros S callback st. split.
  - unfold typed_call. simpl. rewrite Hstart. do 2 f_equal; lia.
  - eexists.
    rewrite (IterateTypedChunk_spec direction callback _ _ st
               (GetTypedSlotSet_store _ _ _)).
    simpl. by rewrite Hbefore.
Qed.

Lemma InsertTyped_then_IterateTyped_witness :
  ∃ typed e,
    RememberedSet.GetTypedSlotSet OLD_TO_OLD
      (default Example.empty_chunk (Example.one_typed_slot true OLD_TO_OLD))
    = Some typed ∧
    TypedSlotSet.slots typed = [e] ∧
    typed_call Example.keep_all_typed (TypedSlotSet.page_start typed) e []
    = (KEEP_SLOT, [Example.base + 64]).
Proof.
  destruct (InsertTyped_then_IterateTyped Example.kPageSize Example.kMaxOffset
              OLD_TO_OLD Example.empty_chunk
              (default Example.empty_chunk
                 (Example.one_typed_slot true OLD_TO_OLD))
              nullptr CODE_TARGET_SLOT (Example.base + 64))
    as (typed & e & Hget & Hslots & Hcall);
    [done | by apply well_formed_no_tables | by vm_compute | by left
    | by vm_compute |].
  destruct (Hcall (list Z) Example.keep_all_typed []) as [Hone _].
  exists typed, e. split; [exact Hget |]. split; [exact Hslots |].
  rewrite Hone. reflexivity.
Defined.

(** [RemoveRangeTyped] on a page with a typed table. *)
Lemma RemoveRangeTyped_eq (direction : PointerDirection) (page : MemoryChunk.t)
    (start end_ : Z) (typed : TypedSlotSet.t) :
  RememberedSet.GetTypedSlotSet direction page = Some typed →
  RememberedSet.RemoveRangeTyped direction page start end_
  = Some (RememberedSet.store_typed_slot_set direction page
            (TypedSlotSet.Build (TypedSlotSet.page_start typed)
               (filter (λ e, typed_slot_in_range (TypedSlotSet.page_start typed)
                               start end_ e = false)
                       (TypedSlotSet.slots typed)))).
Proof.
  intros Hget. unfold RememberedSet.RemoveRangeTyped, TypedSlotSet.Iterate.
  by rewrite Hget, iterate_slots_in_range.
Qed.

Lemma filter_all {A : Type} (P : A → Prop) `{∀ x, Decision (P x)} (l : list A) :
  (∀ x, x ∈ l → P x) → filter P l = l.
Proof.
  induction l as [| a l IH]; intros Hall; [done |].
  rewrite filter_cons_True by (apply Hall; by left).
  rewrite IH; [done |]. intros x Hx. apply Hall. by right.
Qed.

Lemma filter_filter_same {A : Type} (P : A → Prop) `{∀ x, Decision (P x)}
    (l : list A) :
  filter P (filter P l) = filter P l.
Proof. apply filter_all. by intros x [Hx _]%list_elem_of_filter. Qed.

(** X11. [RemoveRangeTyped] has no precondition on the range: with a range
    that is empty or reversed it removes nothing and returns the page as it
    is, whether or not a typed table is attached. *)
Theorem RemoveRangeTyped_empty_range (direction : PointerDirection)
    (page : MemoryChunk.t) (start end_ : Z) :
  end_ ≤ start →
  RememberedSet.RemoveRangeTyped direction page start end_ = Some page.
Proof.
  intros Hempty.
  destruct (RememberedSet.GetTypedSlotSet direction page) as [typed |] eqn:Hget.
  - rewrite (RemoveRangeTyped_eq _ _ _ _ typed) by done.
    rewrite filter_all.
    + destruct typed as [ps l]. simpl. by rewrite store_typed_slot_set_same.
    + intros e _. unfold typed_slot_in_range.
      apply andb_false_iff.
      destruct (decide (start ≤ TypedSlotSet.page_start typed
                                + TypedSlotSet.offset e));
        [right | left]; apply bool_decide_eq_false_2; lia.
  - unfold RememberedSet.RemoveRangeTyped. by rewrite Hget.
Qed.

Lemma RemoveRangeTyped_empty_range_witness :
  RememberedSet.RemoveRangeTyped OLD_TO_OLD
    (default Example.empty_chunk (Example.one_typed_slot true OLD_TO_OLD))
    (Example.base + 64) (Example.base + 64)
  = Some (default Example.empty_chunk (Example.one_typed_slot true OLD_TO_OLD)).
Proof.
  apply (RemoveRangeTyped_empty_range OLD_TO_OLD). by vm_compute.
Defined.

(** X12. [RemoveRangeTyped] is idempotent: removing the same range again
    returns the chunk as the first removal left it. *)
Theorem RemoveRangeTyped_idempotent (direction : PointerDirection)
    (page page' : MemoryChunk.t) (start end_ : Z) :
  RememberedSet.RemoveRangeTyped direction page start end_ = Some page' →
  RememberedSet.RemoveRangeTyped direction page' start end_ = Some page'.
Proof.
  destruct (RememberedSet.GetTypedSlotSet direction page) as [typed |] eqn:Hget.
  - rewrite (RemoveRangeTyped_eq _ _ _ _ typed) by done. intros [= <-].
    rewrite (RemoveRangeTyped_eq _ _ _ _ _ (GetTypedSlotSet_store _ _ _)).
    simpl. rewrite filter_filter_same. f_equal. by destruct direction.
  - unfold RememberedSet.RemoveRangeTyped at 1. rewrite Hget. intros [= <-].
    unfold RememberedSet.RemoveRangeTyped. by rewrite Hget.
Qed.

Lemma RemoveRangeTyped_idempotent_witness :
  RememberedSet.RemoveRangeTyped OLD_TO_OLD
    (Example.emptied_typed_chunk OLD_TO_OLD) Example.base (Example.base + 128)
  = Some (Example.emptied_typed_chunk OLD_TO_OLD).
Proof.
  apply (RemoveRangeTyped_idempotent OLD_TO_OLD
           (default Example.empty_chunk
              (Example.one_typed_slot true OLD_TO_OLD))).
  by vm_compute.
Defined.

(** * Further properties of the dispatcher *)

Section DispatcherRuns.
Context {W : Type} `{!RelocInfo.Codec W}.
Variable callback : Z → W → SlotCallbackResult * Z * W.
Variable callback_at : Z → W → SlotCallbackResult * W.

Import UpdateTypedSlotHelper.

(** What a run of the dispatcher returns, kind by kind and whatever the
    build. *)
Lemma UpdateTypedSlot_run (debug : bool) (slot_type : SlotType) (addr : Z)
    (st : State W) :
  let old := decoded slot_type addr (world st) in
  let r := callback old (world st) in
  UpdateTypedSlot debug callback callback_at slot_type addr st
  = match slot_type with
    | NUMBER_OF_SLOT_TYPES => None
    | OBJECT_SLOT =>
        Some ((callback_at addr (world st)).1,
              MkState (callback_at addr (world st)).2
                      (trace st ++ [CallbackInvokedAt addr]))
    | DEBUG_TARGET_SLOT =>
        if RelocInfo.IsPatchedDebugBreakSlotSequence
             (rinfo_of DEBUG_TARGET_SLOT addr) (world st)
        then Some (r.1.1, written_back slot_type addr old r.1.2 r.2 (trace st))
        else Some (REMOVE_SLOT, st)
    | _ =>
        Some (r.1.1,
              if decide (r.1.2 = old) then left_alone old r.2 (trace st)
              else written_back slot_type addr old r.1.2 r.2 (trace st))
    end.
Proof.
  intros old r.
  destruct (callback old (world st)) as [[result object] w] eqn:Hcb.
  subst r old. simpl.
  destruct slot_type.
  - by apply UpdateTypedSlot_encodes_on_change.
  - by apply UpdateTypedSlot_encodes_on_change.
  - by apply UpdateTypedSlot_encodes_on_change.
  - destruct (RelocInfo.IsPatchedDebugBreakSlotSequence _ _) eqn:Hpatched.
    + by apply UpdateTypedSlot_patched_debug_target.
    + simpl. unfold bind, read. unfold rinfo_of in Hpatched.
      by rewrite Hpatched.
  - by apply UpdateTypedSlot_encodes_on_change.
  - simpl. unfold invoke_at. by destruct (callback_at addr (world st)).
  - done.
Qed.

End DispatcherRuns.

(** X13. The dispatcher never fails one of the checks of its helpers: for
    every slot type its result in a checked build is its result in an
    unchecked one, and it has a result for every slot type but
    [NUMBER_OF_SLOT_TYPES], for which it fails in both. *)
Theorem UpdateTypedSlot_checks_never_fail
    {W : Type} `{!RelocInfo.Codec W} (debug : bool)
    (callback : Z → W → SlotCallbackResult * Z * W)
    (callback_at : Z → W → SlotCallbackResult * W)
    (slot_type : SlotType) (addr : Z) (st : UpdateTypedSlotHelper.State W) :
  UpdateTypedSlotHelper.UpdateTypedSlot debug callback callback_at
    slot_type addr st
  = UpdateTypedSlotHelper.UpdateTypedSlot false callback callback_at
      slot_type addr st ∧
  (is_Some (UpdateTypedSlotHelper.UpdateTypedSlot debug callback callback_at
              slot_type addr st)
   ↔ slot_type ≠ NUMBER_OF_SLOT_TYPES).
Proof.
  rewrite !UpdateTypedSlot_run. split; [done |].
  destruct slot_type; try (split; [done | intros _; by eexists]).
  - destruct (RelocInfo.IsPatchedDebugBreakSlotSequence _ _);
      (split; [done | intros _; by eexists]).
  - split; [by intros [? [=]] | done].
Qed.

(** X14. A run of the dispatcher invokes the callback at most once and
    writes back at most once, at the address of the slot and only after the
    callback was invoked: what it adds to the trace is nothing, one
    invocation of the callback, or one invocation followed by one write-back
    at the slot's address. *)
Theorem UpdateTypedSlot_trace_discipline
    {W : Type} `{!RelocInfo.Codec W} (debug : bool)
    (callback : Z → W → SlotCallbackResult * Z * W)
    (callback_at : Z → W → SlotCallbackResult * W)
    (slot_type : SlotType) (addr : Z) (st st' : UpdateTypedSlotHelper.State W)
    (result : SlotCallbackResult) :
  UpdateTypedSlotHelper.UpdateTypedSlot debug callback callback_at
    slot_type addr st = Some (result, st') →
  ∃ events,
    UpdateTypedSlotHelper.trace st' = UpdateTypedSlotHelper.trace st ++ events ∧
    is_dispatch_trace addr events.
Proof.
  rewrite UpdateTypedSlot_run. unfold is_dispatch_trace.
  destruct slot_type; try done.
  1-3, 5: intros [= <- <-]; case_decide; simpl;
    eexists; (split; [reflexivity |]); eauto 8.
  - destruct (RelocInfo.IsPatchedDebugBreakSlotSequence _ _);
      intros [= <- <-]; simpl.
    + eexists; (split; [reflexivity |]); eauto 8.
    + exists []. by rewrite app_nil_r; auto.
  - intros [= <- <-]; simpl. eexists; (split; [reflexivity |]); eauto.
Qed.

Lemma UpdateTypedSlot_trace_discipline_witness :
  ∃ events,
    UpdateTypedSlotHelper.trace
      (written_back CODE_TARGET_SLOT 1000 5000 9096 ExampleCodec.world0 [])
    = UpdateTypedSlotHelper.trace ExampleCodec.state0 ++ events ∧
    is_dispatch_trace 1000 events.
Proof.
  apply (UpdateTypedSlot_trace_discipline true ExampleCodec.move
           ExampleCodec.keep_at CODE_TARGET_SLOT 1000 ExampleCodec.state0
           _ KEEP_SLOT).
  by vm_compute.
Defined.

(** * Further properties: plain against typed, and the heap *)

(** X15. Within one direction the two kinds of table are kept apart: an
    operation on slots (insert, remove, range removal, iteration, allocation
    and release of the slot table) hands back the typed slot table as it was,
    and an operation on typed slots hands back the slot table as it was. *)
Theorem plain_and_typed_tables_apart {S : Type} (kPageSize kMaxOffset : Z)
    (debug : bool) (direction : PointerDirection) (op : Operation S)
    (chunk : MemoryChunk.t) (st : S) :
  match perform kPageSize kMaxOffset debug direction op chunk st with
  | Some (chunk', _) =>
      if on_typed_table op
      then RememberedSet.GetSlotSet direction chunk'
           = RememberedSet.GetSlotSet direction chunk
      else RememberedSet.GetTypedSlotSet direction chunk'
           = RememberedSet.GetTypedSlotSet direction chunk
  | None => True
  end.
Proof.
  destruct chunk as [a sz otn oto totn toto].
  destruct direction, op; simpl.
  all: unfold RememberedSet.Insert, RememberedSet.Remove,
         RememberedSet.RemoveRange, RememberedSet.InsertTyped,
         RememberedSet.RemoveRangeTyped, RememberedSet.IterateChunk,
         RememberedSet.IterateTypedChunk; unfold_accessors.
  all: repeat (case_match; simplify_eq/=; try done).
  all: try revert select (_ = Some _); destruct_steps; intros;
    by simplify_eq/=.
Qed.

(** ** Heap-wide iteration *)

(** One chunk of a heap-wide [Iterate]: visited or not, a well-formed chunk
    comes out as the per-chunk form leaves it. *)
Lemma Iterate_step {S : Type} (kPageSize : Z) direction
    (callback : Z → S → SlotCallbackResult * S) (chunk : MemoryChunk.t)
    (st : S) :
  well_formed kPageSize direction chunk →
  (if has_table direction chunk
   then RememberedSet.IterateChunk kPageSize direction callback chunk st
   else Some (chunk, st))
  = Some (chunk_after_Iterate direction callback chunk st,
          (run_callback callback
             (slot_addresses
                (default [] (RememberedSet.GetSlotSet direction chunk)))
             st).2).
Proof.
  intros Hwf. unfold chunk_after_Iterate, has_table.
  destruct (RememberedSet.GetSlotSet direction chunk) as [slots |] eqn:Hget.
  - rewrite bool_decide_eq_true_2 by done. simpl.
    by apply IterateChunk_spec; [| apply Hwf].
  - assert (set_tables direction chunk None
              (RememberedSet.GetTypedSlotSet direction chunk) = chunk) as ->
      by (rewrite <- Hget; apply set_tables_same).
    simpl. unfold RememberedSet.IterateChunk. rewrite Hget.
    by repeat case_match.
Qed.

Lemma heap_slot_addresses_cons direction chunk heap :
  heap_slot_addresses direction (chunk :: heap)
  = slot_addresses (default [] (RememberedSet.GetSlotSet direction chunk))
      ++ heap_slot_addresses direction heap.
Proof. done. Qed.

(** The heap-wide [Iterate] on a well-formed heap. *)
Lemma Iterate_heap_spec {S : Type} (kPageSize : Z) direction
    (callback : Z → S → SlotCallbackResult * S) (heap : list MemoryChunk.t)
    (st : S) :
  Forall (well_formed kPageSize direction) heap →
  RememberedSet.Iterate kPageSize direction callback heap st
  = Some (heap_after_Iterate direction callback heap st,
          (run_callback callback (heap_slot_addresses direction heap) st).2).
Proof.
  unfold RememberedSet.Iterate. intros Hheap. revert st.
  induction Hheap as [| chunk heap Hchunk Hheap IH]; intros st; [done |].
  rewrite heap_slot_addresses_cons, run_callback_app.
  rewrite IterateMemoryChunks_cons, Iterate_step by done.
  cbn [mbind option_bind fst snd]. rewrite IH. done.
Qed.

Lemma well_formed_chunk_after_Iterate {S : Type} (kPageSize : Z) direction
    (callback : Z → S → SlotCallbackResult * S) (chunk : MemoryChunk.t)
    (st : S) :
  well_formed kPageSize direction chunk →
  well_formed kPageSize direction
    (chunk_after_Iterate direction callback chunk st).
Proof.
  intros Hwf.
  destruct (well_formed_IterateChunk kPageSize direction callback chunk st Hwf)
    as (chunk' & st' & Hrun & Hwf' & _).
  pose proof (Iterate_step kPageSize direction callback chunk st Hwf) as Hstep.
  destruct (has_table direction chunk).
  - rewrite Hrun in Hstep. injection Hstep as Heq _. by rewrite <- Heq.
  - injection Hstep as Heq _. by rewrite <- Heq.
Qed.

(** X16. The heap-wide [Iterate] on a heap of well-formed chunks succeeds;
    the callback is run over the slots of all chunks, chunk by chunk in heap
    order, and the state it leaves is handed back. Of every chunk only the
    slot table of the direction changes, and every chunk is well formed
    afterwards. *)
Theorem Iterate_heap {S : Type} (kPageSize : Z) (direction : PointerDirection)
    (callback : Z → S → SlotCallbackResult * S) (heap : list MemoryChunk.t)
    (st : S) :
  Forall (well_formed kPageSize direction) heap →
  ∃ heap',
    RememberedSet.Iterate kPageSize direction callback heap st
    = Some (heap',
            (run_callback callback (heap_slot_addresses direction heap) st).2) ∧
    Forall2 (λ chunk chunk',
               ∃ slots, chunk' = set_tables direction chunk slots
                                   (RememberedSet.GetTypedSlotSet direction
                                      chunk))
            heap heap' ∧
    Forall (well_formed kPageSize direction) heap'.
Proof.
  intros Hheap. exists (heap_after_Iterate direction callback heap st).
  split; [by apply Iterate_heap_spec |].
  clear -Hheap. revert st.
  induction Hheap as [| chunk heap Hchunk Hheap IH]; intros st; simpl.
  { split; constructor. }
  destruct (IH (run_callback callback
                  (slot_addresses
                     (default [] (RememberedSet.GetSlotSet direction chunk)))
                  st).2) as [Hframe Hwf].
  split; constructor; try done.
  - by eexists.
  - by apply well_formed_chunk_after_Iterate.
Qed.

(** The example heap: a chunk without tables and the chunk with two
    slots. *)
Lemma well_formed_example_heap direction :
  Forall (well_formed Example.kPageSize direction)
    [Example.empty_chunk; Example.recorded_chunk direction].
Proof.
  apply Forall_cons. split; [by apply well_formed_no_tables; destruct direction |].
  apply Forall_cons. split; [apply well_formed_recorded_chunk |].
  apply Forall_nil_2.
Qed.

Lemma Iterate_heap_witness :
  ∃ heap',
    RememberedSet.Iterate Example.kPageSize OLD_TO_NEW Example.keep_all
      [Example.empty_chunk; Example.recorded_chunk OLD_TO_NEW] []
    = Some (heap',
            [Example.base + 20; Example.base + Example.kPageSize + 20]).
Proof.
  destruct (Iterate_heap Example.kPageSize OLD_TO_NEW Example.keep_all
              [Example.empty_chunk; Example.recorded_chunk OLD_TO_NEW] []
              (well_formed_example_heap OLD_TO_NEW))
    as (heap' & Hrun & _).
  exists heap'. exact Hrun.
Defined.

Lemma retained_all_remove {A S : Type}
    (callback : A → S → SlotCallbackResult * S) (items : list A) (st : S) :
  (∀ a st, (callback a st).1 = REMOVE_SLOT) →
  retained (run_callback callback items st).1 = 0.
Proof.
  intros Hremove. revert st.
  induction items as [| a items IH]; intros st; [done |].
  cbn [run_callback]. cbv zeta. cbn [fst].
  rewrite retained_cons, Hremove, IH. by case_decide.
Qed.

(** X17. A heap-wide [Iterate] whose callback returns REMOVE for every slot
    drains the remembered set of the direction: on a heap of well-formed
    chunks it succeeds and hands back every chunk without a slot table of the
    direction and otherwise as it was, the typed slot table included. *)
Theorem Iterate_heap_remove_all {S : Type} (kPageSize : Z)
    (direction : PointerDirection)
    (callback : Z → S → SlotCallbackResult * S) (heap : list MemoryChunk.t)
    (st : S) :
  (∀ a st, (callback a st).1 = REMOVE_SLOT) →
  Forall (well_formed kPageSize direction) heap →
  ∃ st',
    RememberedSet.Iterate kPageSize direction callback heap st
    = Some ((λ chunk, set_tables direction chunk None
                        (RememberedSet.GetTypedSlotSet direction chunk))
              <$> heap, st').
Proof.
  intros Hremove Hheap. eexists.
  rewrite Iterate_heap_spec by done. do 2 f_equal.
  clear Hheap. revert st.
  induction heap as [| chunk heap IH]; intros st; [done |].
  cbn [heap_after_Iterate fmap list_fmap]. rewrite IH. f_equal.
  unfold chunk_after_Iterate.
  destruct (RememberedSet.GetSlotSet direction chunk) as [slots |]; [| done].
  cbv zeta. by rewrite retained_all_remove, decide_True.
Qed.

Lemma Iterate_heap_remove_all_witness :
  ∃ st',
    RememberedSet.Iterate Example.kPageSize OLD_TO_NEW Example.remove_all
      [Example.empty_chunk; Example.recorded_chunk OLD_TO_NEW] []
    = Some ([Example.empty_chunk; Example.empty_chunk], st').
Proof.
  exact (Iterate_heap_remove_all Example.kPageSize OLD_TO_NEW
           Example.remove_all
           [Example.empty_chunk; Example.recorded_chunk OLD_TO_NEW] []
           (λ _ _, eq_refl) (well_formed_example_heap OLD_TO_NEW)).
Defined.

(** ** Heap-wide typed iteration *)

(** The call the typed iteration makes for a typed slot of the heap. *)
Lemma heap_typed_slots_cons direction chunk heap :
  heap_typed_slots direction (chunk :: heap)
  = match RememberedSet.GetTypedSlotSet direction chunk with
    | Some typed =>
        (λ e, (TypedSlotSet.page_start typed, e)) <$> TypedSlotSet.slots typed
    | None => []
    end ++ heap_typed_slots direction heap.
Proof. done. Qed.

(** X18. The heap-wide [IterateTyped] succeeds on every heap. The callback
    is run over the typed slots of all chunks, chunk by chunk in heap order
    and in the order of the entries, on the slot type and the two addresses
    of each entry, and the state it leaves is handed back. Of every chunk
    only the typed slot table of the direction changes. *)
Theorem IterateTyped_heap {S : Type} (direction : PointerDirection)
    (callback : SlotType → Z → Z → S → SlotCallbackResult * S)
    (heap : list MemoryChunk.t) (st : S) :
  ∃ heap',
    RememberedSet.IterateTyped direction callback heap st
    = Some (heap',
            (run_callback (λ p, typed_call callback p.1 p.2)
               (heap_typed_slots direction heap) st).2) ∧
    Forall2 (λ chunk chunk',
               ∃ typed, chunk' = set_tables direction chunk
                                   (RememberedSet.GetSlotSet direction chunk)
                                   typed)
            heap heap'.
Proof.
  unfold RememberedSet.IterateTyped. revert st.
  induction heap as [| chunk heap IH]; intros st.
  { exists []. split; [done | constructor]. }
  rewrite IterateMemoryChunks_cons, heap_typed_slots_cons, run_callback_app.
  assert (Hstep : ∃ chunk',
            (if has_table direction chunk
             then RememberedSet.IterateTypedChunk direction callback chunk st
             else Some (chunk, st))
            = Some (chunk',
                    (run_callback (λ p, typed_call callback p.1 p.2)
                       match RememberedSet.GetTypedSlotSet direction chunk with
                       | Some typed =>
                           (λ e, (TypedSlotSet.page_start typed, e))
                             <$> TypedSlotSet.slots typed
                       | None => []
                       end st).2) ∧
            ∃ typed, chunk' = set_tables direction chunk
                                (RememberedSet.GetSlotSet direction chunk)
                                typed).
  { destruct (RememberedSet.GetTypedSlotSet direction chunk) as [typed |]
      eqn:Hget.
    - unfold has_table. rewrite Hget.
      rewrite (bool_decide_eq_true_2 (Some typed ≠ None)), orb_true_r by done.
      rewrite (IterateTypedChunk_spec direction callback chunk typed st)
        by done.
      rewrite run_callback_fmap. eexists. split; [reflexivity |]. by eexists.
    - exists chunk. split.
      + unfold RememberedSet.IterateTypedChunk. rewrite Hget.
        by destruct (has_table direction chunk).
      + exists None. rewrite <- Hget. by rewrite set_tables_same. }
  destruct Hstep as (chunk' & -> & Hframe). cbn [mbind option_bind fst snd].
  destruct (IH (run_callback (λ p, typed_call callback p.1 p.2)
                  match RememberedSet.GetTypedSlotSet direction chunk with
                  | Some typed =>
                      (λ e, (TypedSlotSet.page_start typed, e))
                        <$> TypedSlotSet.slots typed
                  | None => []
                  end st).2) as (heap' & -> & Hheap).
  exists (chunk' :: heap'). split; [done |]. by constructor.
Qed.

(** ** After ClearAll *)

(** Nothing is visited on a heap whose chunks have no table of the
    direction. *)
Lemma IterateMemoryChunks_no_tables {S : Type} direction
    (callback : MemoryChunk.t → S → option (MemoryChunk.t * S))
    (heap : list MemoryChunk.t) (st : S) :
  Forall (λ chunk, has_table direction chunk = false) heap →
  RememberedSet.IterateMemoryChunks direction callback heap st
  = Some (heap, st).
Proof.
  intros Hheap. induction Hheap as [| chunk heap Hchunk Hheap IH]; [done |].
  rewrite IterateMemoryChunks_cons, Hchunk. simpl. by rewrite IH.
Qed.

(** X19. After [ClearAll] the old-to-old remembered set is empty for the
    heap-wide operations: [IterateMemoryChunks], and with it [Iterate] and
    [IterateTyped], invokes its callback on no chunk and hands back the heap
    and the state as they are, whatever the callback; a second [ClearAll]
    changes nothing; and the chunks an old-to-new iteration visits are the
    same as before. *)
Theorem ClearAll_then_iterate {S : Type} (heap heap' : list MemoryChunk.t) :
  RememberedSet.ClearAll OLD_TO_OLD heap = Some heap' →
  (∀ (callback : MemoryChunk.t → S → option (MemoryChunk.t * S)) (st : S),
     RememberedSet.IterateMemoryChunks OLD_TO_OLD callback heap' st
     = Some (heap', st)) ∧
  RememberedSet.ClearAll OLD_TO_OLD heap' = Some heap' ∧
  has_table OLD_TO_NEW <$> heap' = has_table OLD_TO_NEW <$> heap.
Proof.
  intros [= <-]. split; [| split].
  - intros callback st. apply IterateMemoryChunks_no_tables.
    apply Forall_fmap, Forall_true. by intros chunk.
  - unfold RememberedSet.ClearAll. simpl. f_equal.
    rewrite <- list_fmap_compose. apply list_fmap_ext.
    by intros i chunk _.
  - rewrite <- list_fmap_compose. apply list_fmap_ext.
    by intros i chunk _.
Qed.

Lemma ClearAll_then_iterate_witness :
  RememberedSet.IterateMemoryChunks OLD_TO_OLD (recording Example.skip)
    (default [] (RememberedSet.ClearAll OLD_TO_OLD
                   [Example.recorded_chunk OLD_TO_OLD]))
    (tt, [])
  = Some (default [] (RememberedSet.ClearAll OLD_TO_OLD
                        [Example.recorded_chunk OLD_TO_OLD]),
          (tt, [])).
Proof.
  exact (proj1 (ClearAll_then_iterate (S:=unit * list MemoryChunk.t)
                  [Example.recorded_chunk OLD_TO_OLD] _ eq_refl)
           (recording Example.skip) (tt, [])).
Defined.

(** ** The order of insertions *)

Lemma SlotSet_Insert_comm (s : SlotSet.t) (o1 o2 : Z) :
  SlotSet.Insert (SlotSet.Insert s o1) o2
  = SlotSet.Insert (SlotSet.Insert s o2) o1.
Proof.
  unfold SlotSet.Insert. simpl. f_equal.
  apply set_eq. intros x. rewrite !elem_of_union. tauto.
Qed.

(** [Insert] on the chunk a store left. *)
Lemma Insert_store (kPageSize : Z) (debug : bool) (direction : PointerDirection)
    (page : MemoryChunk.t) (slots : list SlotSet.t) (slot_addr : Z) :
  let offset := to_uintptr (slot_addr - MemoryChunk.address page) in
  let index := Z.to_nat (offset / kPageSize) in
  RememberedSet.Insert kPageSize debug direction
    (RememberedSet.store_slot_set direction page slots) slot_addr
  = _ ← DCHECK debug (MemoryChunk.Contains page slot_addr);
    s ← slots !! index;
    Some (RememberedSet.store_slot_set direction page
            (<[index := SlotSet.Insert s (offset `mod` kPageSize)]> slots)).
Proof.
  intros offset index. rewrite Insert_eq, GetSlotSet_store. simpl.
  destruct (store_slot_set_fields direction page slots) as (Ha & Hs & _).
  unfold MemoryChunk.Contains. rewrite Ha, Hs. fold offset index.
  destruct (DCHECK debug _) as [[] |]; simpl; [| done].
  destruct (slots !! index) as [s |]; simpl; [| done].
  by rewrite store_slot_set_store.
Qed.

(** X20. The order of two insertions does not matter: if inserting a slot
    and then another one succeeds, so does inserting them the other way
    round, and the chunk that results is the same. *)
Theorem Insert_commutes (kPageSize : Z) (debug : bool)
    (direction : PointerDirection) (page page1 page2 : MemoryChunk.t)
    (slot_addr1 slot_addr2 : Z) :
  RememberedSet.Insert kPageSize debug direction page slot_addr1 = Some page1 →
  RememberedSet.Insert kPageSize debug direction page1 slot_addr2 = Some page2 →
  ∃ page1',
    RememberedSet.Insert kPageSize debug direction page slot_addr2
      = Some page1' ∧
    RememberedSet.Insert kPageSize debug direction page1' slot_addr1
      = Some page2.
Proof.
  rewrite (Insert_eq _ _ _ page slot_addr1), (Insert_eq _ _ _ page slot_addr2).
  set (table := default _ (RememberedSet.GetSlotSet direction page)).
  set (o1 := to_uintptr (slot_addr1 - MemoryChunk.address page)).
  set (o2 := to_uintptr (slot_addr2 - MemoryChunk.address page)).
  set (i1 := Z.to_nat (o1 / kPageSize)). set (i2 := Z.to_nat (o2 / kPageSize)).
  destruct (DCHECK debug (MemoryChunk.Contains page slot_addr1))
    as [[] |] eqn:Hcheck1; simpl; [| done].
  destruct (table !! i1) as [s1 |] eqn:Hs1; simpl; [| done].
  intros [= <-]. rewrite Insert_store. fold o2 i2.
  destruct (DCHECK debug (MemoryChunk.Contains page slot_addr2))
    as [[] |] eqn:Hcheck2; simpl; [| done].
  pose proof (lookup_lt_Some _ _ _ Hs1) as Hlt1.
  destruct (decide (i1 = i2)) as [Heq | Hne].
  - rewrite <- Heq, list_lookup_insert_eq by done. simpl. intros [= <-].
    rewrite Hs1. simpl. eexists. split; [reflexivity |].
    rewrite Insert_store, Hcheck1. fold o1 i1. simpl.
    rewrite list_lookup_insert_eq by done. simpl.
    by rewrite !list_insert_insert_eq, SlotSet_Insert_comm.
  - rewrite list_lookup_insert_ne by done.
    destruct (table !! i2) as [s2 |] eqn:Hs2; simpl; [| done].
    intros [= <-]. eexists. split; [reflexivity |].
    rewrite Insert_store, Hcheck1. fold o1 i1. simpl.
    rewrite list_lookup_insert_ne, Hs1 by done. simpl.
    by rewrite list_insert_insert_ne.
Qed.

Lemma Insert_commutes_witness :
  ∃ page1',
    RememberedSet.Insert Example.kPageSize true OLD_TO_NEW Example.empty_chunk
      (Example.base + Example.kPageSize + 20) = Some page1' ∧
    RememberedSet.Insert Example.kPageSize true OLD_TO_NEW page1'
      (Example.base + 20) = Some (Example.recorded_chunk OLD_TO_NEW).
Proof.
  apply (Insert_commutes Example.kPageSize true OLD_TO_NEW Example.empty_chunk
           (default Example.empty_chunk
              (RememberedSet.Insert Example.kPageSize true OLD_TO_NEW
                 Example.empty_chunk (Example.base + 20))));
    by vm_compute.
Defined.
